(** * spec_kit.py: feature numbering, feature names, plan fields and
      agent-context patching

    A shallow embedding of [scripts/spec_kit.py] and the properties its
    specification states about it.

    Conventions of the embedding.
    - A Python [str] is a [list ascii]; a character is read as the code
      point of the same number, so the alphabet is U+0000..U+00FF.  On this
      alphabet the regex class [\d] is [0-9], [str.lower] is the Latin-1
      lower-casing and [str.strip] removes the code points 9-13, 28-32,
      0x85 and 0xA0.
    - Integers are [N] (Python integers are unbounded and the program only
      builds non-negative ones).
    - The regular expressions of the program are embedded as matchers: a
      matcher tries the pattern at the start of its subject and returns the
      captured groups and the unconsumed rest.  [re.search] is the leftmost
      scan over start positions, as in the backtracking engine; [.*?]
      extends one character at a time until what follows matches.  The
      replacement of [re.sub] is parsed as CPython 3.12 parses it.
    - The file system is a finite map from path strings to nodes, the
      process state is threaded explicitly, and [sys.exit] and exceptions
      are results. *)

From stdpp Require Import gmap strings list sorting.
From Stdlib Require Import Ascii NArith Lia.

(** ** Strings *)

Abbreviation str := (list ascii).

Inductive str_lit := LNil | LCons (a : ascii) (l : str_lit).

Fixpoint str_lit_of_bytes (l : list Byte.byte) : str_lit :=
  match l with
  | [] => LNil
  | b :: r => LCons (ascii_of_byte b) (str_lit_of_bytes r)
  end.

Fixpoint bytes_of_str_lit (l : str_lit) : list Byte.byte :=
  match l with
  | LNil => []
  | LCons a r => byte_of_ascii a :: bytes_of_str_lit r
  end.

Declare Scope str_scope.
Delimit Scope str_scope with str.
#[warnings="-via-type-remapping,-via-type-mismatch"]
String Notation list str_lit_of_bytes bytes_of_str_lit
  (via str_lit mapping [[nil] => LNil, [cons] => LCons]) : str_scope.
Local Open Scope str_scope.

(** The line feed, ["\n"] in the Python source. *)
Definition nl : ascii := "010"%char.

(** The backslash. *)
Definition backslash : ascii := "092"%char.

Definition code (c : ascii) : nat := nat_of_ascii c.

Definition eqc (a b : ascii) : bool := Ascii.eqb a b.

(** [0-9], and [\d] on this alphabet. *)
Definition is_digit (c : ascii) : bool :=
  (48 <=? code c)%nat && (code c <=? 57)%nat.

(** [a-z0-9] *)
Definition is_lower_alnum (c : ascii) : bool :=
  is_digit c || ((97 <=? code c)%nat && (code c <=? 122)%nat).

(** [str.isspace] of one character, as [str.strip()] uses it. *)
Definition is_space (c : ascii) : bool :=
  ((9 <=? code c)%nat && (code c <=? 13)%nat)
  || ((28 <=? code c)%nat && (code c <=? 32)%nat)
  || (code c =? 133)%nat || (code c =? 160)%nat.

(** [str.lower] of one character: A-Z, and the Latin-1 capitals
    U+00C0..U+00DE without the multiplication sign U+00D7. *)
Definition lower_char (c : ascii) : ascii :=
  if ((65 <=? code c)%nat && (code c <=? 90)%nat)
     || ((192 <=? code c)%nat && (code c <=? 222)%nat
         && negb (code c =? 215)%nat)
  then ascii_of_nat (code c + 32) else c.

Definition lower (s : str) : str := map lower_char s.

Fixpoint take_while (p : ascii → bool) (s : str) : str :=
  match s with
  | [] => []
  | c :: s' => if p c then c :: take_while p s' else []
  end.

Fixpoint drop_while (p : ascii → bool) (s : str) : str :=
  match s with
  | [] => []
  | c :: s' => if p c then drop_while p s' else s
  end.

(** [s.strip()] and [s.strip(chars)] *)
Definition strip_with (p : ascii → bool) (s : str) : str :=
  rev (drop_while p (rev (drop_while p s))).

Definition strip (s : str) : str := strip_with is_space s.

(** [s.startswith(p)] *)
Fixpoint starts_with (p s : str) : bool :=
  match p, s with
  | [], _ => true
  | a :: p', b :: s' => eqc a b && starts_with p' s'
  | _ :: _, [] => false
  end.

(** [sep.join(parts)] *)
Fixpoint join (sep : str) (parts : list str) : str :=
  match parts with
  | [] => []
  | [x] => x
  | x :: rest => x ++ sep ++ join sep rest
  end.

(** [s.split(sep)] for a one-character separator: empty pieces are kept,
    and the empty string splits into one empty piece. *)
Fixpoint split_on (sep : ascii) (s : str) : list str :=
  match s with
  | [] => [[]]
  | c :: s' =>
      if eqc c sep then [] :: split_on sep s'
      else match split_on sep s' with
           | h :: t => (c :: h) :: t
           | [] => [[c]]
           end
  end.

(** Any character but the line feed: [.] without [re.DOTALL]. *)
Definition not_nl (c : ascii) : bool := negb (eqc c nl).

Definition nonempty (s : str) : bool :=
  match s with [] => false | _ :: _ => true end.

(** ** Scanning

    [scan f s] tries [f] at every suffix of [s], from the left, and
    returns the skipped prefix with the first success.  It is the loop of
    [re.search] over start positions, the loop of a lazy [.*?] over the
    characters it gives up one at a time, and the loop of [str.find]. *)

Section Scan.
Context {A : Type}.
Variable f : str → option A.

Fixpoint scan (s : str) : option (str * A) :=
  match f s with
  | Some a => Some ([], a)
  | None =>
      match s with
      | [] => None
      | c :: s' =>
          match scan s' with
          | Some (pre, a) => Some (c :: pre, a)
          | None => None
          end
      end
  end.

End Scan.

(** A literal at the start of the subject: the rest after it. *)
Definition lit (p : str) (s : str) : option str :=
  if starts_with p s then Some (drop (length p) s) else None.

(** [p in s] *)
Definition str_in (p s : str) : bool :=
  match scan (lit p) s with Some _ => true | None => false end.

(** ** Feature numbers: [ProjectManager.get_next_feature_number] *)

(** [int(digits)] for a string of decimal digits (a file name is far
    shorter than the 4300 digits at which [int] gives up). *)
Definition digit_val (c : ascii) : N := N.of_nat (code c - 48).

Definition int_of_digits (d : str) : N :=
  fold_left (λ acc c, 10 * acc + digit_val c)%N d 0%N.

(** [re.match(r'^(\d+)', entry)]: group 1, the longest run of digits at the
    start, when there is at least one. *)
Definition match_digits (entry : str) : option str :=
  match take_while is_digit entry with
  | [] => None
  | d => Some d
  end.

(** A listing of [specs/]: every entry of [os.listdir] with the answer of
    [os.path.isdir] for it. *)
Abbreviation listing := (list (str * bool)).

(** The loop body of [get_next_feature_number] for one entry. *)
Definition visit (highest : N) (e : str * bool) : N :=
  let '(entry, is_dir) := e in
  if is_dir then
    match match_digits entry with
    | Some d =>
        let number := int_of_digits d in
        if (highest <? number)%N then number else highest
    | None => highest
    end
  else highest.

(** The scan of [get_next_feature_number] over what [os.path.isdir] and
    [os.listdir] say about [specs/]: [None] when it is not a directory. *)
Definition next_feature_number (specs : option listing) : N :=
  let highest :=
    match specs with
    | Some entries => fold_left visit entries 0%N
    | None => 0%N
    end in
  (highest + 1)%N.

(** The numbers of the digit-prefixed subdirectories of a listing. *)
Definition numbered (e : str * bool) : option N :=
  if e.2 then int_of_digits <$> match_digits e.1 else None.

Definition dir_numbers (entries : listing) : list N := omap numbered entries.

Definition max_N (l : list N) : N := foldr N.max 0%N l.

(** ** Feature names: the pure part of [FeatureManager] *)

Definition digit_char (n : N) : ascii := ascii_of_nat (48 + N.to_nat n).

Fixpoint digits_of (fuel : nat) (n : N) : str :=
  match fuel with
  | O => []
  | S k =>
      if (n <? 10)%N then [digit_char n]
      else digits_of k (n / 10)%N ++ [digit_char (n mod 10)%N]
  end.

(** [str(n)] for [n >= 0]; a number has no more decimal digits than bits. *)
Definition str_of_N (n : N) : str := digits_of (S (N.to_nat (N.size n))) n.

(** [f"{n:03d}"]: zeros on the left up to width 3, never a truncation. *)
Definition format_03d (n : N) : str :=
  let d := str_of_N n in replicate (3 - length d) "0"%char ++ d.

(** [re.match(r'^[0-9]{3}-', name)] as a truth value. *)
Definition match_feature_prefix (name : str) : bool :=
  match name with
  | a :: b :: c :: d :: _ =>
      is_digit a && is_digit b && is_digit c && eqc d "-"
  | _ => false
  end.

Definition is_hyphen (c : ascii) : bool := eqc c "-".

(** [re.sub(r'[^a-z0-9]', '-', s)]: every character outside the class is
    a match of its own. *)
Definition hyphenate (s : str) : str :=
  map (λ c, if is_lower_alnum c then c else "-"%char) s.

(** [re.sub(r'-+', '-', s)]: a greedy run of hyphens is one match, so the
    first hyphen of a run is written and the hyphens after it ([in_run])
    are dropped. *)
Fixpoint squeeze_from (in_run : bool) (s : str) : str :=
  match s with
  | [] => []
  | c :: s' =>
      if is_hyphen c then
        if in_run then squeeze_from true s'
        else "-"%char :: squeeze_from true s'
      else c :: squeeze_from false s'
  end.

Definition squeeze_hyphens (s : str) : str := squeeze_from false s.

(** The slug of [create_new_feature], statement by statement. *)
Definition slug (feature_description : str) : str :=
  let feature_name := hyphenate (lower feature_description) in
  let feature_name := squeeze_hyphens feature_name in
  let feature_name := strip_with is_hyphen feature_name in
  let words := filter (λ w, nonempty w = true) (split_on "-" feature_name) in
  let words := take 3 words in
  join "-" words.

Definition final_feature_name (next_num : N) (feature_description : str) : str :=
  format_03d next_num ++ "-" ++ slug feature_description.

(** ** Regular expressions

    A matcher is one compiled pattern tried at one position. *)

Definition matcher := str → option (list str * str).

(** [re.search(pattern, s)]: the text before the match, the groups
    1, 2, ... and the text after the match. *)
Definition re_search (m : matcher) (s : str) : option (str * (list str * str)) :=
  scan m s.

(** What the match at the start of [s] that leaves [rest] has consumed. *)
Definition consumed (s rest : str) : str := take (length s - length rest) s.

(** The terminator of a lazy [.*?]: what it captures and what it leaves. *)
Definition terminator := str → option (str * str).

(** A literal terminator, as in [(.*?)\n\n]. *)
Definition term_lit (t : str) : terminator :=
  λ s, match lit t s with Some rest => Some (t, rest) | None => None end.

(** The terminator [(\n\n|$)] without [re.MULTILINE]: two line feeds, or
    the end of the subject, or the place before a line feed that ends the
    subject; [$] consumes nothing. *)
Definition term_blank_or_end : terminator :=
  λ s, match lit [nl; nl] s with
       | Some rest => Some ([nl; nl], rest)
       | None =>
           match s with
           | [] => Some ([], s)
           | [c] => if eqc c nl then Some ([], s) else None
           | _ => None
           end
       end.

(** [h.*?t] with [re.DOTALL] at one position: the literal [h], then the
    shortest text after which the terminator matches.  The result is the
    text of [.*?], the text of the terminator and the rest. *)
Definition lazy_between (h : str) (t : terminator) (s : str)
  : option (str * str * str) :=
  match lit h s with
  | Some s1 =>
      match scan t s1 with
      | Some (g, (tm, rest)) => Some (g, tm, rest)
      | None => None
      end
  | None => None
  end.

(** [h(.*?)t] and [h(.*?)(t)]: the groups of the search patterns. *)
Definition m_inner (h : str) (t : terminator) : matcher :=
  λ s, match lazy_between h t s with
       | Some (g, tm, rest) => Some ([g], rest)
       | None => None
       end.

Definition m_inner_term (h : str) (t : terminator) : matcher :=
  λ s, match lazy_between h t s with
       | Some (g, tm, rest) => Some ([g; tm], rest)
       | None => None
       end.

(** [(h).*?(t)]: the groups of the substitution patterns. *)
Definition m_outer (h : str) (t : terminator) : matcher :=
  λ s, match lazy_between h t s with
       | Some (g, tm, rest) => Some ([h; tm], rest)
       | None => None
       end.

(** *** Replacement templates

    [re.sub] parses a string replacement before it substitutes: a
    backslash starts an escape, a group reference or an error.  This is
    [re._parser.parse_template] of CPython 3.12, for a pattern without
    named groups. *)

Inductive token := Ch (c : ascii) | Esc (c : ascii).

(** The tokenizer pairs a backslash with the character after it; a
    backslash at the end is an error. *)
Fixpoint tokenize (t : str) : option (list token) :=
  match t with
  | [] => Some []
  | c :: t1 =>
      if eqc c backslash then
        match t1 with
        | [] => None
        | e :: t2 =>
            match tokenize t2 with
            | Some ts => Some (Esc e :: ts)
            | None => None
            end
        end
      else
        match tokenize t1 with
        | Some ts => Some (Ch c :: ts)
        | None => None
        end
  end.

Inductive item := Lit (s : str) | Group (index : nat).

Definition is_octdigit (c : ascii) : bool :=
  (48 <=? code c)%nat && (code c <=? 55)%nat.

Definition is_ascii_letter (c : ascii) : bool :=
  ((65 <=? code c)%nat && (code c <=? 90)%nat)
  || ((97 <=? code c)%nat && (code c <=? 122)%nat).

Definition dval (c : ascii) : nat := code c - 48.

(** [ESCAPES] of the parser. *)
Definition escape_char (c : ascii) : option ascii :=
  if eqc c "a" then Some (ascii_of_nat 7)
  else if eqc c "b" then Some (ascii_of_nat 8)
  else if eqc c "f" then Some (ascii_of_nat 12)
  else if eqc c "n" then Some nl
  else if eqc c "r" then Some (ascii_of_nat 13)
  else if eqc c "t" then Some (ascii_of_nat 9)
  else if eqc c "v" then Some (ascii_of_nat 11)
  else if eqc c backslash then Some backslash
  else None.

(** [addgroup]: a reference beyond the groups of the pattern is an error. *)
Definition add_group (groups index : nat) (k : option (list item))
  : option (list item) :=
  if (groups <? index)%nat then None
  else match k with Some items => Some (Group index :: items) | None => None end.

Definition add_lit (s : str) (k : option (list item)) : option (list item) :=
  match k with Some items => Some (Lit s :: items) | None => None end.

(** The name between [\g<] and [>]: a token is added with both of its
    characters. *)
Fixpoint group_name (ts : list token) : option (str * list token) :=
  match ts with
  | [] => None
  | Ch c :: ts' =>
      if eqc c ">" then Some ([], ts')
      else match group_name ts' with
           | Some (name, rest) => Some (c :: name, rest)
           | None => None
           end
  | Esc c :: ts' =>
      match group_name ts' with
      | Some (name, rest) => Some (backslash :: c :: name, rest)
      | None => None
      end
  end.

Definition decimal (name : str) : nat :=
  fold_left (λ acc c, 10 * acc + dval c) name 0.

Fixpoint parse_tokens (fuel groups : nat) (ts : list token)
  : option (list item) :=
  match fuel with
  | O => None
  | S fuel' =>
      let parse := parse_tokens fuel' groups in
      match ts with
      | [] => Some []
      | Ch c :: ts1 => add_lit [c] (parse ts1)
      | Esc c :: ts1 =>
          if eqc c "g" then
            match ts1 with
            | Ch lt :: ts2 =>
                if eqc lt "<" then
                  match group_name ts2 with
                  | Some (name, ts3) =>
                      if nonempty name && forallb is_digit name
                      then add_group groups (decimal name) (parse ts3)
                      else None
                  | None => None
                  end
                else None
            | _ => None
            end
          else if eqc c "0" then
            match ts1 with
            | Ch d1 :: ts2 =>
                if is_octdigit d1 then
                  match ts2 with
                  | Ch d2 :: ts3 =>
                      if is_octdigit d2
                      then add_lit [ascii_of_nat ((8 * dval d1 + dval d2) mod 256)]
                                   (parse ts3)
                      else add_lit [ascii_of_nat (dval d1)] (parse ts2)
                  | _ => add_lit [ascii_of_nat (dval d1)] (parse ts2)
                  end
                else add_lit [ascii_of_nat 0] (parse ts1)
            | _ => add_lit [ascii_of_nat 0] (parse ts1)
            end
          else if is_digit c then
            match ts1 with
            | Ch d1 :: ts2 =>
                if is_digit d1 then
                  match ts2 with
                  | Ch d2 :: ts3 =>
                      if is_octdigit c && is_octdigit d1 && is_octdigit d2 then
                        let v := 64 * dval c + 8 * dval d1 + dval d2 in
                        if (255 <? v)%nat then None
                        else add_lit [ascii_of_nat v] (parse ts3)
                      else add_group groups (10 * dval c + dval d1) (parse ts2)
                  | _ => add_group groups (10 * dval c + dval d1) (parse ts2)
                  end
                else add_group groups (dval c) (parse ts1)
            | _ => add_group groups (dval c) (parse ts1)
            end
          else
            match escape_char c with
            | Some e => add_lit [e] (parse ts1)
            | None =>
                if is_ascii_letter c then None
                else add_lit [backslash; c] (parse ts1)
            end
      end
  end.

(** The template of a pattern with [groups] groups, or [None] where
    [re.sub] raises. *)
Definition parse_template (groups : nat) (template : str)
  : option (list item) :=
  match tokenize template with
  | Some ts => parse_tokens (S (length ts)) groups ts
  | None => None
  end.

(** The expansion for one match: [whole] is group 0. *)
Definition expand (items : list item) (whole : str) (gs : list str) : str :=
  flat_map (λ i, match i with
                 | Lit s => s
                 | Group 0 => whole
                 | Group (S k) => nth k gs []
                 end) items.

(** [re.sub]: the matches from left to right, each after the end of the
    one before; every pattern of this program consumes at least one
    character, so the length of the subject bounds the number of matches. *)
Fixpoint sub_loop (m : matcher) (items : list item) (fuel : nat) (s : str)
  : str :=
  match fuel with
  | O => s
  | S fuel' =>
      match re_search m s with
      | Some (pre, (gs, rest)) =>
          let whole := consumed (drop (length pre) s) rest in
          pre ++ expand items whole gs ++ sub_loop m items fuel' rest
      | None => s
      end
  end.

Definition re_sub (m : matcher) (groups : nat) (template s : str)
  : option str :=
  match parse_template groups template with
  | Some items => Some (sub_loop m items (S (length s)) s)
  | None => None
  end.

(** [s.replace(old, new)] for a non-empty [old]: the occurrences from left
    to right, each after the end of the one before. *)
Fixpoint replace_loop (old new : str) (fuel : nat) (s : str) : str :=
  match fuel with
  | O => s
  | S fuel' =>
      match scan (lit old) s with
      | Some (pre, rest) => pre ++ new ++ replace_loop old new fuel' rest
      | None => s
      end
  end.

(** With an empty [old], [new] goes before every character and at the end. *)
Definition str_replace (old new s : str) : str :=
  match old with
  | [] => new ++ flat_map (λ c, c :: new) s
  | _ => replace_loop old new (S (length s)) s
  end.

(** ** Plan fields: the extraction of [SpecKit.update_agent_context] *)

(** [^\*\*NAME\*\*: (.+)$] at a position where [^] holds: the literal,
    then the greedy [.+], which takes every character up to the next line
    feed and needs at least one; [$] with [re.MULTILINE] holds where it
    stops. *)
Definition m_field (name : str) (s : str) : option str :=
  match lit ("**" ++ name ++ "**: ") s with
  | Some rest =>
      match take_while not_nl rest with
      | [] => None
      | v => Some v
      end
  | None => None
  end.

(** [re.search] of that pattern with [re.MULTILINE]: [^] holds at the
    start of the subject and after every line feed. *)
Fixpoint search_field_from (name : str) (line_start : bool) (s : str)
  : option str :=
  match (if line_start then m_field name s else None) with
  | Some v => Some v
  | None =>
      match s with
      | [] => None
      | c :: s' => search_field_from name (eqc c nl) s'
      end
  end.

Definition search_field (name content : str) : option str :=
  search_field_from name true content.

Record plan_fields := PlanFields {
  new_lang : str;
  new_framework : str;
  new_testing : str;
  new_db : str;
  new_project_type : str
}.

Definition needs_clarification : str := "NEEDS CLARIFICATION".

(** The five searches over the text of plan.md; a field that is not
    assigned keeps its initial empty string. *)
Definition extract_fields (content : str) : plan_fields :=
  let lang :=
    match search_field "Language/Version" content with
    | Some g => if negb (str_in needs_clarification g) then strip g else []
    | None => []
    end in
  let framework :=
    match search_field "Primary Dependencies" content with
    | Some g => if negb (str_in needs_clarification g) then strip g else []
    | None => []
    end in
  let testing :=
    match search_field "Testing" content with
    | Some g => if negb (str_in needs_clarification g) then strip g else []
    | None => []
    end in
  let db :=
    match search_field "Storage" content with
    | Some g =>
        if negb (str_in "N/A" g) && negb (str_in needs_clarification g)
        then strip g else []
    | None => []
    end in
  let project_type :=
    match search_field "Project Type" content with
    | Some g => strip g
    | None => []
    end in
  PlanFields lang framework testing db project_type.

(** ** Patching an existing agent context file *)

Definition str_eqb (a b : str) : bool := bool_decide (a = b).

Definition tech_header : str := "## Active Technologies" ++ [nl].
Definition blank : str := [nl; nl].
Definition struct_header : str := "## Project Structure" ++ [nl] ++ "```" ++ [nl].
Definition fence_close : str := [nl] ++ "```".
Definition commands_header : str := "## Commands" ++ [nl].
Definition commands_bash_header : str := "## Commands" ++ [nl] ++ "```bash" ++ [nl].
Definition changes_header : str := "## Recent Changes" ++ [nl].

(** [f'\\1{text}\\2'] *)
Definition between_groups (text : str) : str :=
  [backslash; "1"%char] ++ text ++ [backslash; "2"%char].

Section Patch.
Variable f : plan_fields.
Variable current_feature : str.
Variable today : str.

Definition tech_line : str :=
  "- " ++ new_lang f ++ " + " ++ new_framework f ++ " (" ++ current_feature ++ ")".

Definition db_line : str := "- " ++ new_db f ++ " (" ++ current_feature ++ ")".

Definition new_additions (existing_tech : str) : list str :=
  (if nonempty (new_lang f) && negb (str_in (new_lang f) existing_tech)
   then [tech_line] else [])
  ++ (if nonempty (new_db f) && negb (str_in (new_db f) existing_tech)
         && negb (str_eqb (new_db f) "N/A")
      then [db_line] else []).

(** "Check if new tech already exists" *)
Definition patch_tech (content : str) : str :=
  match re_search (m_inner tech_header (term_lit blank)) content with
  | Some (pre, ([existing_tech], rest)) =>
      match new_additions existing_tech with
      | [] => content
      | additions =>
          let updated_tech := existing_tech ++ [nl] ++ join [nl] additions in
          let group0 := consumed (drop (length pre) content) rest in
          str_replace group0 (tech_header ++ updated_tech ++ blank) content
      end
  | _ => content
  end.

Definition frontend_line : str := [nl] ++ "frontend/src/ # Web UI".

(** "Update project structure if needed" *)
Definition patch_structure (content : str) : option str :=
  if str_eqb (new_project_type f) "web" && negb (str_in "frontend/" content)
  then
    match re_search (m_inner struct_header (term_lit fence_close)) content with
    | Some (_, ([g1], _)) =>
        let updated_struct := g1 ++ frontend_line in
        re_sub (m_outer struct_header (term_lit fence_close)) 2
               (between_groups updated_struct) content
    | _ => Some content
    end
  else Some content.

Definition language_commands : str :=
  if str_in "Python" (new_lang f)
  then [nl] ++ "cd src && pytest && ruff check ."
  else if str_in "Rust" (new_lang f)
  then [nl] ++ "cargo test && cargo clippy"
  else if str_in "JavaScript" (new_lang f) || str_in "TypeScript" (new_lang f)
  then [nl] ++ "npm test && npm run lint"
  else [].

(** "Add new commands if language is new" *)
Definition patch_commands (content : str) : option str :=
  if nonempty (new_lang f) && negb (str_in ("# " ++ new_lang f) content)
  then
    let commands_match :=
      match re_search (m_inner commands_bash_header (term_lit fence_close)) content with
      | Some r => Some r
      | None => re_search (m_inner commands_header (term_lit blank)) content
      end in
    match commands_match with
    | Some (_, ([g1], _)) =>
        let new_commands := g1 ++ language_commands in
        if str_in "```bash" content
        then re_sub (m_outer commands_bash_header (term_lit fence_close)) 2
                    (between_groups new_commands) content
        else re_sub (m_outer commands_header (term_lit blank)) 2
                    (between_groups new_commands) content
    | _ => Some content
    end
  else Some content.

Definition change_entry : str :=
  "- " ++ current_feature ++ ": Added " ++ new_lang f ++ " + " ++ new_framework f.

(** [[c.strip() for c in g.strip().split('\n') if c.strip()]] *)
Definition change_lines (g : str) : list str :=
  map strip (filter (λ c, nonempty (strip c) = true) (split_on nl (strip g))).

(** [changes.insert(0, entry); changes = changes[:3]] *)
Definition updated_changes (g : str) : list str :=
  take 3 (change_entry :: change_lines g).

(** "Update recent changes (keep only last 3)" *)
Definition patch_changes (content : str) : option str :=
  match re_search (m_inner_term changes_header term_blank_or_end) content with
  | Some (_, (g1 :: _, _)) =>
      re_sub (m_outer changes_header term_blank_or_end) 2
             (between_groups (join [nl] (updated_changes g1))) content
  | _ => Some content
  end.

(** [n] digits at the start of the subject. *)
Fixpoint digits_then (n : nat) (k : str → option str) (s : str) : option str :=
  match n with
  | O => k s
  | S n' =>
      match s with
      | c :: s' => if is_digit c then digits_then n' k s' else None
      | [] => None
      end
  end.

(** [Last updated: \d{4}-\d{2}-\d{2}] *)
Definition m_date : matcher :=
  λ s, match lit "Last updated: " s with
       | Some s1 =>
           match digits_then 4 (lit "-") s1 with
           | Some s2 =>
               match digits_then 2 (lit "-") s2 with
               | Some s3 =>
                   match digits_then 2 Some s3 with
                   | Some rest => Some ([], rest)
                   | None => None
                   end
               | None => None
               end
           | None => None
           end
       | None => None
       end.

(** "Update date" *)
Definition patch_date (content : str) : option str :=
  re_sub m_date 0 ("Last updated: " ++ today) content.

(** The body of the [try] of [update_agent_file] between the read and the
    write of the target; [None] where an exception leaves the [try]. *)
Definition patch_existing (content : str) : option str :=
  let content := patch_tech content in
  match patch_structure content with
  | Some content =>
      match patch_commands content with
      | Some content =>
          match patch_changes content with
          | Some content => patch_date content
          | None => None
          end
      | None => None
      end
  | None => None
  end.

(** The new file of [update_agent_file], from agent-file-template.md. *)
Definition fill_template (project_name template_content : str) : str :=
  let t := str_replace "[PROJECT NAME]" project_name template_content in
  let t := str_replace "[DATE]" today t in
  let t := str_replace "[EXTRACTED FROM ALL PLAN.MD FILES]" tech_line t in
  let structure :=
    if str_in "web" (lower (new_project_type f))
    then "backend/" ++ [nl] ++ "frontend/" ++ [nl] ++ "tests/"
    else "src/" ++ [nl] ++ "tests/" in
  let t := str_replace "[ACTUAL STRUCTURE FROM PLANS]" structure t in
  let commands :=
    if str_in "Python" (new_lang f) then "cd src && pytest && ruff check ."
    else if str_in "Rust" (new_lang f) then "cargo test && cargo clippy"
    else if str_in "JavaScript" (new_lang f) || str_in "TypeScript" (new_lang f)
    then "npm test && npm run lint"
    else "# Add commands for " ++ new_lang f in
  let t := str_replace "[ONLY COMMANDS FOR ACTIVE TECHNOLOGIES]" commands t in
  let t := str_replace "[LANGUAGE-SPECIFIC, ONLY FOR LANGUAGES IN USE]"
                       (new_lang f ++ ": Follow standard conventions") t in
  str_replace "[LAST 3 FEATURES AND WHAT THEY ADDED]" change_entry t.

End Patch.

(** ** The file system

    A finite map from path strings to nodes.  The program builds every
    path with [os.path.join] from the project root, and the map is keyed
    by these strings: two spellings of one path are two keys. *)

Inductive node := File (content : str) | Dir.

Definition isfile (fs : gmap str node) (p : str) : bool :=
  match fs !! p with Some (File _) => true | _ => false end.

Definition isdir (fs : gmap str node) (p : str) : bool :=
  match fs !! p with Some Dir => true | _ => false end.

Definition ends_with_slash (p : str) : bool :=
  match rev p with c :: _ => eqc c "/" | [] => false end.

(** [posixpath.join(path, b)], one step of its loop. *)
Definition join2 (path b : str) : str :=
  if starts_with "/" b then b
  else if negb (nonempty path) || ends_with_slash path then path ++ b
  else path ++ "/" ++ b.

Definition path_join (a : str) (p : list str) : str := fold_left join2 p a.

Definition is_slash (c : ascii) : bool := eqc c "/".

(** [posixpath.split(p)] *)
Definition path_split (p : str) : str * str :=
  let tail := rev (take_while (λ c, negb (is_slash c)) (rev p)) in
  let head := take (length p - length tail) p in
  let head :=
    if nonempty head && negb (forallb is_slash head)
    then rev (drop_while is_slash (rev head)) else head in
  (head, tail).

Definition basename (p : str) : str := (path_split p).2.

Inductive oserror :=
| FileNotFoundError | FileExistsError | NotADirectoryError
| IsADirectoryError | SameFileError.

(** Whether an entry can be made in directory [d]; the current directory
    (the empty head) and the root are there. *)
Definition parent_error (fs : gmap str node) (d : str) : option oserror :=
  if forallb is_slash d then None
  else match fs !! d with
       | Some Dir => None
       | Some (File _) => Some NotADirectoryError
       | None => Some FileNotFoundError
       end.

Definition path_exists (fs : gmap str node) (p : str) : bool :=
  (nonempty p && forallb is_slash p) || bool_decide (is_Some (fs !! p)).

(** [os.mkdir(name)] *)
Definition mkdir (name : str) (fs : gmap str node)
  : option oserror * gmap str node :=
  if path_exists fs name then (Some FileExistsError, fs)
  else match parent_error fs (path_split name).1 with
       | Some e => (Some e, fs)
       | None => (None, <[name := Dir]> fs)
       end.

(** [os.makedirs(name, exist_ok=True)]; every recursive call is on a
    shorter path. *)
Fixpoint makedirs_loop (fuel : nat) (name : str) (fs : gmap str node)
  : option oserror * gmap str node :=
  match fuel with
  | O => (Some FileNotFoundError, fs)
  | S fuel' =>
      let '(head, tail) := path_split name in
      let '(head, tail) :=
        if nonempty tail then (head, tail) else path_split head in
      let recursed :=
        if nonempty head && nonempty tail && negb (path_exists fs head)
        then
          match makedirs_loop fuel' head fs with
          | (Some FileExistsError, fs1) | (None, fs1) =>
              (None, fs1, str_eqb tail ".")
          | (Some e, fs1) => (Some e, fs1, false)
          end
        else (None, fs, false) in
      match recursed with
      | (Some e, fs1, _) => (Some e, fs1)
      | (None, fs1, true) => (None, fs1)
      | (None, fs1, false) =>
          match mkdir name fs1 with
          | (Some e, fs2) =>
              if isdir fs2 name then (None, fs2) else (Some e, fs2)
          | (None, fs2) => (None, fs2)
          end
      end
  end.

Definition makedirs (name : str) (fs : gmap str node)
  : option oserror * gmap str node :=
  makedirs_loop (S (length name)) name fs.

(** [open(path, 'w')] and one [write]. *)
Definition write_file (path content : str) (fs : gmap str node)
  : option oserror * gmap str node :=
  match fs !! path with
  | Some Dir => (Some IsADirectoryError, fs)
  | Some (File _) => (None, <[path := File content]> fs)
  | None =>
      match parent_error fs (path_split path).1 with
      | Some e => (Some e, fs)
      | None => (None, <[path := File content]> fs)
      end
  end.

(** [open(path, 'r')] and [read()] *)
Definition read_file (path : str) (fs : gmap str node)
  : oserror + str :=
  match fs !! path with
  | Some (File content) => inr content
  | Some Dir => inl IsADirectoryError
  | None => inl FileNotFoundError
  end.

(** [shutil.copy2(src, dst)]: into [dst] when it is a directory, an
    error when source and destination are one file. *)
Definition copy2 (src dst : str) (fs : gmap str node)
  : option oserror * gmap str node :=
  let dst := if isdir fs dst then join2 dst (basename src) else dst in
  if str_eqb src dst && path_exists fs src then (Some SameFileError, fs)
  else match read_file src fs with
       | inl e => (Some e, fs)
       | inr content => write_file dst content fs
       end.

(** [Path(path).touch()]: an existing node only gets a new time stamp,
    which the map does not record; a missing one becomes an empty file. *)
Definition touch (path : str) (fs : gmap str node)
  : option oserror * gmap str node :=
  match fs !! path with
  | Some _ => (None, fs)
  | None =>
      match parent_error fs (path_split path).1 with
      | Some e => (Some e, fs)
      | None => (None, <[path := File []]> fs)
      end
  end.

(** The name of [p] inside directory [d], when [p] is an entry of [d]. *)
Definition child_name (d p : str) : option str :=
  match lit (if ends_with_slash d then d else d ++ "/") p with
  | Some name =>
      if nonempty name && negb (str_in "/" name) then Some name else None
  | None => None
  end.

(** [os.listdir(d)], in the order of the map. *)
Definition listdir (fs : gmap str node) (d : str) : list str :=
  omap (λ kv, child_name d kv.1) (map_to_list fs).

(** The order of [sorted] on strings: by code point, a prefix first. *)
Fixpoint str_leb (a b : str) : bool :=
  match a, b with
  | [], _ => true
  | _ :: _, [] => false
  | x :: a', y :: b' =>
      if (code x <? code y)%nat then true
      else if (code y <? code x)%nat then false
      else str_leb a' b'
  end.

Definition sorted (l : list str) : list str :=
  merge_sort (λ a b, Is_true (str_leb a b)) l.

(** ** The process state

    [sys.exit] and exceptions are results; what was written before them
    stays written. *)

Inductive exn :=
| SystemExit (status : nat)
| SystemExitMsg (msg : str)
| ValueError (msg : str)
| OSError (e : oserror) (path : str)
| ReError.

(** The exit status of the process when the exception reaches the top. *)
Definition exit_status (e : exn) : nat :=
  match e with
  | SystemExit status => status
  | _ => 1
  end.

(** A value printed as a field of [json.dumps]. *)
Inductive jfield := JString (s : str) | JList (l : list str).

(** One [print].  Texts of this alphabet are kept; the lines with the
    check marks U+2713, U+2717 and U+2705 and the JSON documents are kept
    by what they say. *)
Inductive line :=
| Text (s : str)
| TextExn (s : str) (e : exn)
| Mark (found : bool) (description : str)
| UpdatedOk (agent_name : str)
| Json (fields : list (str * jfield)).

(** A Python value that is [None] or a string. *)
Abbreviation pyval := (option str).

Definition truthy (v : pyval) : bool :=
  match v with Some (_ :: _) => true | _ => false end.

(** The state of a run: the files, the dictionary [self.config] (under
    every key [None] or a string, as the program writes it), and what has
    been printed. *)
Record world := World {
  fs : gmap str node;
  config : gmap str pyval;
  stdout : list line;
  stderr : list line
}.

(** What a run does not change: the root found by [_find_project_root],
    the script name ([sys.argv[0]], or spec_kit.py when that is empty),
    the date of [datetime.now()] as [%Y-%m-%d], and
    [json.dump(config, f, indent=2)] as the text it writes. *)
Record env := Env {
  project_root : str;
  script_name : str;
  today : str;
  json_dump : gmap str pyval → str
}.

Inductive result (A : Type) := Ok (a : A) | Raise (e : exn).
Arguments Ok {A} a.
Arguments Raise {A} e.

Definition M (A : Type) : Type := world → result A * world.

Definition ret {A} (a : A) : M A := λ w, (Ok a, w).

Definition bind {A B} (c : M A) (k : A → M B) : M B :=
  λ w, match c w with
       | (Ok a, w') => k a w'
       | (Raise e, w') => (Raise e, w')
       end.

Definition raise {A} (e : exn) : M A := λ w, (Raise e, w).

(** [try: c except ...: h]; [h] answers [None] for an exception that the
    clause does not name. *)
Definition try_except {A} (c : M A) (h : exn → option (M A)) : M A :=
  λ w, match c w with
       | (Ok a, w') => (Ok a, w')
       | (Raise e, w') =>
           match h e with
           | Some handler => handler w'
           | None => (Raise e, w')
           end
       end.

Notation "x <- c ;; k" := (bind c (λ x, k))
  (at level 100, c at next level, right associativity).
Notation "c ;; k" := (bind c (λ _, k))
  (at level 100, right associativity).

Definition print (l : line) : M unit :=
  λ w, (Ok tt, World (fs w) (config w) (stdout w ++ [l]) (stderr w)).

Definition print_err (l : line) : M unit :=
  λ w, (Ok tt, World (fs w) (config w) (stdout w) (stderr w ++ [l])).

Definition get_fs : M (gmap str node) := λ w, (Ok (fs w), w).

Definition get_config : M (gmap str pyval) := λ w, (Ok (config w), w).

Definition set_config (c : gmap str pyval) : M unit :=
  λ w, (Ok tt, World (fs w) c (stdout w) (stderr w)).

(** A file-system call: its error is an [OSError] on [path]. *)
Definition fs_call (path : str)
    (op : gmap str node → option oserror * gmap str node) : M unit :=
  λ w, let '(r, fs') := op (fs w) in
       let w' := World fs' (config w) (stdout w) (stderr w) in
       match r with
       | None => (Ok tt, w')
       | Some e => (Raise (OSError e path), w')
       end.

Definition read_text (path : str) : M str :=
  λ w, match read_file path (fs w) with
       | inr content => (Ok content, w)
       | inl e => (Raise (OSError e path), w)
       end.

Definition when (b : bool) (c : M unit) : M unit := if b then c else ret tt.

Definition is_oserror (e : exn) : bool :=
  match e with OSError _ _ => true | _ => false end.

(** ** [class ProjectManager] *)

Module ProjectManager.

Definition CONFIG_FILE : str := "spec-kit.json".

Definition config_path (E : env) : str := join2 (project_root E) CONFIG_FILE.

Definition _save_config (E : env) : M unit :=
  try_except
    (cfg <- get_config ;;
     fs_call (config_path E) (write_file (config_path E) (json_dump E cfg)))
    (λ e, if is_oserror e
          then Some (print (TextExn ("Error: Could not save config to "
                                     ++ config_path E ++ ": ") e) ;;
                     raise e)
          else None).

Definition get_project_root (E : env) : str := project_root E.

Definition get_current_feature : M pyval :=
  cfg <- get_config ;;
  ret (match cfg !! ("current_feature" : str) with
       | Some v => v
       | None => None
       end).

Definition set_current_feature (E : env) (feature_name : str) : M unit :=
  cfg <- get_config ;;
  set_config (<[("current_feature" : str) := Some feature_name]> cfg) ;;
  _save_config E.

(** The listing that the loop of [get_next_feature_number] goes through. *)
Definition specs_listing (E : env) (fs : gmap str node) : option listing :=
  let specs_dir := path_join (project_root E) ["specs"] in
  if isdir fs specs_dir
  then Some (map (λ entry, (entry, isdir fs (path_join specs_dir [entry])))
                 (listdir fs specs_dir))
  else None.

Definition get_next_feature_number (E : env) : M N :=
  fs <- get_fs ;;
  ret (next_feature_number (specs_listing E fs)).

Definition get_project_name (E : env) : str := basename (project_root E).

End ProjectManager.

(** ** [class FeatureManager] *)

Record feature_paths := FeaturePaths {
  PROJECT_ROOT : str;
  CURRENT_FEATURE : str;
  FEATURE_DIR : str;
  FEATURE_SPEC : str;
  IMPL_PLAN : str;
  TASKS : str;
  RESEARCH : str;
  DATA_MODEL : str;
  QUICKSTART : str;
  CONTRACTS_DIR : str
}.

Record new_feature := NewFeature {
  feature_name : str;
  feature_dir : str;
  feature_num : str
}.

Module FeatureManager.

Definition check_feature_name (feature_name : pyval) : M bool :=
  if negb (truthy feature_name) then
    print (Text "ERROR: No current feature set.") ;;
    print (Text "Run 'create-new-feature' first to create a feature.") ;;
    ret false
  else
    let name := default [] feature_name in
    if negb (match_feature_prefix name) then
      print (Text ("ERROR: Invalid feature name: " ++ name)) ;;
      print (Text "Feature names should be like: 001-feature-name") ;;
      ret false
    else ret true.

Definition get_feature_dir (E : env) (feature_name : str) : str :=
  path_join (ProjectManager.get_project_root E) ["specs"; feature_name].

Definition get_feature_paths (E : env) : M feature_paths :=
  let project_root := ProjectManager.get_project_root E in
  current_feature <- ProjectManager.get_current_feature ;;
  if negb (truthy current_feature) then
    raise (SystemExitMsg
             "ERROR: No current feature set. Run 'create-new-feature' first.")
  else
    let current_feature := default [] current_feature in
    let feature_dir := get_feature_dir E current_feature in
    ret {| PROJECT_ROOT := project_root;
           CURRENT_FEATURE := current_feature;
           FEATURE_DIR := feature_dir;
           FEATURE_SPEC := path_join feature_dir ["spec.md"];
           IMPL_PLAN := path_join feature_dir ["plan.md"];
           TASKS := path_join feature_dir ["tasks.md"];
           RESEARCH := path_join feature_dir ["research.md"];
           DATA_MODEL := path_join feature_dir ["data-model.md"];
           QUICKSTART := path_join feature_dir ["quickstart.md"];
           CONTRACTS_DIR := path_join feature_dir ["contracts"] |}.

Definition create_new_feature (E : env) (feature_description : str)
  : M new_feature :=
  if negb (nonempty (strip feature_description)) then
    raise (ValueError "Feature description cannot be empty")
  else
    let project_root := ProjectManager.get_project_root E in
    let specs_dir := path_join project_root ["specs"] in
    fs_call specs_dir (makedirs specs_dir) ;;
    next_num <- ProjectManager.get_next_feature_number E ;;
    let feature_num := format_03d next_num in
    let final_feature_name := feature_num ++ "-" ++ slug feature_description in
    let feature_dir := path_join specs_dir [final_feature_name] in
    fs_call feature_dir (makedirs feature_dir) ;;
    ProjectManager.set_current_feature E final_feature_name ;;
    ret {| feature_name := final_feature_name;
           feature_dir := feature_dir;
           feature_num := feature_num |}.

End FeatureManager.

(** ** [class FileManager] *)

Module FileManager.

Definition check_file (file_path description : str) : M bool :=
  fs <- get_fs ;;
  if isfile fs file_path
  then print (Mark true description) ;; ret true
  else print (Mark false description) ;; ret false.

Definition check_dir (dir_path description : str) : M bool :=
  fs <- get_fs ;;
  if isdir fs dir_path && bool_decide (listdir fs dir_path ≠ [])
  then print (Mark true description) ;; ret true
  else print (Mark false description) ;; ret false.

Definition copy_template (E : env) (template_name target_path : str)
  : M bool :=
  let project_root := ProjectManager.get_project_root E in
  let template := path_join project_root ["templates"; template_name] in
  fs <- get_fs ;;
  if isfile fs template then
    fs_call target_path (copy2 template target_path) ;;
    ret true
  else
    print_err (Text ("Warning: Template not found at " ++ template)) ;;
    fs_call target_path (touch target_path) ;;
    ret false.

End FileManager.

(** ** [class SpecKit] *)

Module SpecKit.

Definition exit {A} (status : nat) : M A := raise (SystemExit status).

(** [try: paths = get_feature_paths() except SystemExit as e:
    print(str(e)); sys.exit(1)] *)
Definition feature_paths_or_exit (E : env) : M feature_paths :=
  try_except (FeatureManager.get_feature_paths E)
    (λ e, match e with
          | SystemExitMsg msg => Some (print (Text msg) ;; exit 1)
          | SystemExit status => Some (print (Text (str_of_N (N.of_nat status))) ;; exit 1)
          | _ => None
          end).

Definition check_task_prerequisites (E : env) (json_mode : bool) : M unit :=
  paths <- feature_paths_or_exit E ;;
  let current_feature := CURRENT_FEATURE paths in
  valid <- FeatureManager.check_feature_name (Some current_feature) ;;
  if negb valid then exit 1 else
  fs <- get_fs ;;
  if negb (isdir fs (FEATURE_DIR paths)) then
    print (Text ("ERROR: Feature directory not found: " ++ FEATURE_DIR paths)) ;;
    print (Text "Run 'create-new-feature' first to create the feature structure.") ;;
    exit 1
  else if negb (isfile fs (IMPL_PLAN paths)) then
    print (Text ("ERROR: plan.md not found in " ++ FEATURE_DIR paths)) ;;
    print (Text "Run 'setup-plan' first to create the plan.") ;;
    exit 1
  else if json_mode then
    let docs :=
      (if isfile fs (RESEARCH paths) then ["research.md" : str] else [])
      ++ (if isfile fs (DATA_MODEL paths) then ["data-model.md" : str] else [])
      ++ (if isdir fs (CONTRACTS_DIR paths)
             && bool_decide (listdir fs (CONTRACTS_DIR paths) ≠ [])
          then ["contracts/" : str] else [])
      ++ (if isfile fs (QUICKSTART paths) then ["quickstart.md" : str] else []) in
    print (Json [("FEATURE_DIR" : str, JString (FEATURE_DIR paths));
                 ("AVAILABLE_DOCS" : str, JList docs)])
  else
    print (Text ("FEATURE_DIR:" ++ FEATURE_DIR paths)) ;;
    print (Text "AVAILABLE_DOCS:") ;;
    FileManager.check_file (RESEARCH paths) "research.md" ;;
    FileManager.check_file (DATA_MODEL paths) "data-model.md" ;;
    FileManager.check_dir (CONTRACTS_DIR paths) "contracts/" ;;
    FileManager.check_file (QUICKSTART paths) "quickstart.md" ;;
    ret tt.

Definition get_feature_paths_command (E : env) : M unit :=
  paths <- feature_paths_or_exit E ;;
  let current_feature := CURRENT_FEATURE paths in
  valid <- FeatureManager.check_feature_name (Some current_feature) ;;
  if negb valid then exit 1 else
  print (Text ("PROJECT_ROOT: " ++ PROJECT_ROOT paths)) ;;
  print (Text ("FEATURE_NAME: " ++ CURRENT_FEATURE paths)) ;;
  print (Text ("FEATURE_DIR: " ++ FEATURE_DIR paths)) ;;
  print (Text ("FEATURE_SPEC: " ++ FEATURE_SPEC paths)) ;;
  print (Text ("IMPL_PLAN: " ++ IMPL_PLAN paths)) ;;
  print (Text ("TASKS: " ++ TASKS paths)).

Definition create_new_feature (E : env) (feature_description : str)
    (json_mode : bool) : M unit :=
  if negb (nonempty (strip feature_description)) then
    print_err (Text ("Usage: " ++ script_name E
                     ++ " create-new-feature [--json] <feature_description>")) ;;
    exit 1
  else
    result <- try_except
                (FeatureManager.create_new_feature E feature_description)
                (λ e, match e with
                      | ValueError msg =>
                          Some (print_err (Text ("ERROR: " ++ msg)) ;; exit 1)
                      | _ => None
                      end) ;;
    let spec_file := path_join (feature_dir result) ["spec.md"] in
    FileManager.copy_template E "spec-template.md" spec_file ;;
    if json_mode then
      print (Json [("FEATURE_NAME" : str, JString (feature_name result));
                   ("SPEC_FILE" : str, JString spec_file);
                   ("FEATURE_NUM" : str, JString (feature_num result))])
    else
      print (Text ("FEATURE_NAME: " ++ feature_name result)) ;;
      print (Text ("SPEC_FILE: " ++ spec_file)) ;;
      print (Text ("FEATURE_NUM: " ++ feature_num result)).

Definition setup_plan (E : env) (json_mode : bool) : M unit :=
  paths <- feature_paths_or_exit E ;;
  let current_feature := CURRENT_FEATURE paths in
  valid <- FeatureManager.check_feature_name (Some current_feature) ;;
  if negb valid then exit 1 else
  fs_call (FEATURE_DIR paths) (makedirs (FEATURE_DIR paths)) ;;
  FileManager.copy_template E "plan-template.md" (IMPL_PLAN paths) ;;
  if json_mode then
    print (Json [("FEATURE_SPEC" : str, JString (FEATURE_SPEC paths));
                 ("IMPL_PLAN" : str, JString (IMPL_PLAN paths));
                 ("SPECS_DIR" : str, JString (FEATURE_DIR paths));
                 ("FEATURE_NAME" : str, JString (CURRENT_FEATURE paths))])
  else
    print (Text ("FEATURE_SPEC: " ++ FEATURE_SPEC paths)) ;;
    print (Text ("IMPL_PLAN: " ++ IMPL_PLAN paths)) ;;
    print (Text ("SPECS_DIR: " ++ FEATURE_DIR paths)) ;;
    print (Text ("FEATURE_NAME: " ++ CURRENT_FEATURE paths)).

(** The feature directories of [specs/]: the entries that are directories
    and match [^[0-9]{3}-]. *)
Definition feature_entries (fs : gmap str node) (specs_dir : str)
    (entries : list str) : list str :=
  filter (λ entry, isdir fs (path_join specs_dir [entry])
                   && match_feature_prefix entry = true) entries.

Fixpoint print_all (ls : list line) : M unit :=
  match ls with
  | [] => ret tt
  | l :: ls' => print l ;; print_all ls'
  end.

Definition set_current_feature (E : env) (feature_name : str) : M unit :=
  valid <- FeatureManager.check_feature_name (Some feature_name) ;;
  if negb valid then exit 1 else
  let feature_dir := FeatureManager.get_feature_dir E feature_name in
  fs <- get_fs ;;
  if negb (isdir fs feature_dir) then
    print (Text ("ERROR: Feature directory not found: " ++ feature_dir)) ;;
    print (Text "Available features:") ;;
    let specs_dir := path_join (ProjectManager.get_project_root E) ["specs"] in
    when (isdir fs specs_dir)
         (print_all (map (λ entry, Text ("  " ++ entry))
                         (feature_entries fs specs_dir
                            (sorted (listdir fs specs_dir))))) ;;
    exit 1
  else
    ProjectManager.set_current_feature E feature_name ;;
    print (Text ("Current feature set to: " ++ feature_name)).

Definition get_current_feature_info (E : env) : M unit :=
  current_feature <- ProjectManager.get_current_feature ;;
  if negb (truthy current_feature) then
    print (Text "No current feature set.") ;;
    print (Text "Use 'create-new-feature' to create a new feature or 'set-current-feature' to switch to an existing one.")
  else
    print (Text ("Current feature: " ++ default [] current_feature)) ;;
    try_except
      (paths <- FeatureManager.get_feature_paths E ;;
       print (Text ("Feature directory: " ++ FEATURE_DIR paths)) ;;
       print (Text ("Feature spec: " ++ FEATURE_SPEC paths)) ;;
       print (Text ("Implementation plan: " ++ IMPL_PLAN paths)))
      (λ e, match e with
            | SystemExit _ | SystemExitMsg _ =>
                Some (print (Text "(Feature directory not found)"))
            | _ => None
            end).

Definition list_available_features (E : env) : M unit :=
  let specs_dir := path_join (ProjectManager.get_project_root E) ["specs"] in
  current_feature <- ProjectManager.get_current_feature ;;
  fs <- get_fs ;;
  if negb (isdir fs specs_dir) then
    print (Text "No features found. Use 'create-new-feature' to create the first feature.")
  else
    print (Text "Available features:") ;;
    let features := feature_entries fs specs_dir (listdir fs specs_dir) in
    match features with
    | [] =>
        print (Text "No features found. Use 'create-new-feature' to create the first feature.")
    | _ =>
        print_all (map (λ feature,
                          Text ("  " ++ feature
                                ++ if bool_decide (Some feature = current_feature)
                                   then " (current)" else []))
                       (sorted features)) ;;
        print (Text []) ;;
        print (Text ("Usage: " ++ script_name E ++ " set-current-feature <feature-name>")) ;;
        print (Text ("       " ++ script_name E ++ " get-current-feature"))
    end.

(** The nested [update_agent_file(target_file, agent_name)]; the fields
    of the plan and the current feature are the variables of the enclosing
    [update_agent_context]. *)
Definition update_agent_file (E : env) (f : plan_fields) (current_feature : str)
    (target_file agent_name : str) : M bool :=
  let project_root := ProjectManager.get_project_root E in
  print (Text ("Updating " ++ agent_name ++ " context file: " ++ target_file)) ;;
  fs <- get_fs ;;
  if negb (isfile fs target_file) then
    print (Text ("Creating new " ++ agent_name ++ " context file...")) ;;
    let template_path :=
      path_join project_root ["templates"; "agent-file-template.md"] in
    if isfile fs template_path then
      template_content <- read_text template_path ;;
      fs_call target_file
        (write_file target_file
           (fill_template f current_feature (today E)
              (basename project_root) template_content)) ;;
      print (UpdatedOk agent_name) ;;
      ret true
    else
      print (Text ("ERROR: Template not found at " ++ template_path)) ;;
      ret false
  else
    print (Text ("Updating existing " ++ agent_name ++ " context file...")) ;;
    updated <- try_except
      (content <- read_text target_file ;;
       match patch_existing f current_feature (today E) content with
       | Some content => fs_call target_file (write_file target_file content) ;;
                         ret true
       | None => raise ReError
       end)
      (λ e, match e with
            | SystemExit _ | SystemExitMsg _ => None
            | _ => Some (print (TextExn ("ERROR: Failed to update "
                                         ++ target_file ++ ": ") e) ;;
                         ret false)
            end) ;;
    if updated then print (UpdatedOk agent_name) ;; ret true else ret false.

Definition update_agent_context (E : env) (agent_type : pyval) : M unit :=
  paths <- feature_paths_or_exit E ;;
  let project_root := PROJECT_ROOT paths in
  let current_feature := CURRENT_FEATURE paths in
  let new_plan := IMPL_PLAN paths in
  let claude_file := path_join project_root ["CLAUDE.md"] in
  let gemini_file := path_join project_root ["GEMINI.md"] in
  let copilot_file := path_join project_root [".github"; "copilot-instructions.md"] in
  fs <- get_fs ;;
  if negb (isfile fs new_plan) then
    print (Text ("ERROR: No plan.md found at " ++ new_plan)) ;;
    exit 1
  else
    print (Text ("=== Updating agent context files for feature "
                 ++ current_feature ++ " ===")) ;;
    f <- try_except
           (content <- read_text new_plan ;; ret (extract_fields content))
           (λ e, match e with
                 | SystemExit _ | SystemExitMsg _ => None
                 | _ => Some (print (TextExn "Warning: Could not parse plan.md: " e) ;;
                              ret (PlanFields [] [] [] [] []))
                 end) ;;
    let update := update_agent_file E f current_feature in
    match agent_type with
    | Some agent =>
        if str_eqb agent "claude" then update claude_file "Claude Code" ;; ret tt
        else if str_eqb agent "gemini" then update gemini_file "Gemini CLI" ;; ret tt
        else if str_eqb agent "copilot" then update copilot_file "GitHub Copilot" ;; ret tt
        else
          print (Text ("ERROR: Unknown agent type '" ++ agent
                       ++ "'. Use: claude, gemini, copilot, or leave empty for all.")) ;;
          exit 1
    | None =>
        fs <- get_fs ;;
        let has_claude := isfile fs claude_file in
        when has_claude (update claude_file "Claude Code" ;; ret tt) ;;
        fs <- get_fs ;;
        let has_gemini := isfile fs gemini_file in
        when has_gemini (update gemini_file "Gemini CLI" ;; ret tt) ;;
        fs <- get_fs ;;
        let has_copilot := isfile fs copilot_file in
        when has_copilot (update copilot_file "GitHub Copilot" ;; ret tt) ;;
        let updated_any := has_claude || has_gemini || has_copilot in
        when (negb updated_any)
          (print (Text "No agent context files found. Creating Claude Code context file by default.") ;;
           fs_call (path_split claude_file).1 (makedirs (path_split claude_file).1) ;;
           update claude_file "Claude Code" ;; ret tt)
    end ;;
    print (Text []) ;;
    print (Text "Summary of changes:") ;;
    when (nonempty (new_lang f)) (print (Text ("- Added language: " ++ new_lang f))) ;;
    when (nonempty (new_framework f))
         (print (Text ("- Added framework: " ++ new_framework f))) ;;
    when (nonempty (new_db f) && negb (str_eqb (new_db f) "N/A"))
         (print (Text ("- Added database: " ++ new_db f))) ;;
    print (Text []) ;;
    print (Text ("Usage: " ++ script_name E ++ " update-agent-context [claude|gemini|copilot]")) ;;
    print (Text " - No argument: Update all existing agent context files") ;;
    print (Text " - claude: Update only CLAUDE.md") ;;
    print (Text " - gemini: Update only GEMINI.md") ;;
    print (Text " - copilot: Update only .github/copilot-instructions.md").

End SpecKit.

(** ** [main]

    [args] is [sys.argv[1:]]; the [SpecKit] object has been built, so the
    root and the configuration are those of the environment and the
    state. *)

Definition is_in (x : str) (l : list str) : bool := bool_decide (x ∈ l).

Definition help_asked (args : list str) : bool :=
  is_in "--help" args || is_in "-h" args.

Definition main_usage : list line :=
  map Text
    ["Usage: spec_kit.py <command> [args...]";
     [];
     "Available commands:";
     "  check-task-prerequisites [--json]";
     "  get-feature-paths";
     "  create-new-feature [--json] <description>";
     "  setup-plan [--json]";
     "  update-agent-context [claude|gemini|copilot]";
     "  set-current-feature <feature-name>";
     "  get-current-feature";
     "  list-features";
     [];
     "Examples:";
     "  spec_kit.py check-task-prerequisites";
     "  spec_kit.py check-task-prerequisites --json";
     "  spec_kit.py create-new-feature 'user authentication system'";
     "  spec_kit.py create-new-feature --json 'user authentication system'";
     "  spec_kit.py setup-plan";
     "  spec_kit.py setup-plan --json";
     "  spec_kit.py update-agent-context";
     "  spec_kit.py update-agent-context claude";
     "  spec_kit.py set-current-feature 001-user-auth";
     "  spec_kit.py get-current-feature";
     "  spec_kit.py list-features"].

Definition main (E : env) (args : list str) : M unit :=
  match args with
  | [] => SpecKit.print_all main_usage ;; SpecKit.exit 1
  | command :: rest =>
      if str_eqb command "check-task-prerequisites" then
        let json_mode := is_in "--json" rest in
        if help_asked rest then
          print (Text "Usage: spec_kit.py check-task-prerequisites [--json]") ;;
          SpecKit.exit 0
        else SpecKit.check_task_prerequisites E json_mode
      else if str_eqb command "get-feature-paths" then
        SpecKit.get_feature_paths_command E
      else if str_eqb command "create-new-feature" then
        let json_mode := is_in "--json" rest in
        let args := filter (λ arg, is_in arg ["--json"; "--help"; "-h"] = false) rest in
        if help_asked rest then
          print (Text "Usage: spec_kit.py create-new-feature [--json] <description>") ;;
          SpecKit.exit 0
        else
          match args with
          | [] =>
              print_err (Text "Usage: spec_kit.py create-new-feature [--json] <description>") ;;
              SpecKit.exit 1
          | _ => SpecKit.create_new_feature E (join " " args) json_mode
          end
      else if str_eqb command "setup-plan" then
        let json_mode := is_in "--json" rest in
        if help_asked rest then
          print (Text "Usage: spec_kit.py setup-plan [--json]") ;;
          SpecKit.exit 0
        else SpecKit.setup_plan E json_mode
      else if str_eqb command "update-agent-context" then
        match rest with
        | agent_type :: _ =>
            if is_in agent_type ["--help"; "-h"] then
              print (Text "Usage: spec_kit.py update-agent-context [claude|gemini|copilot]") ;;
              SpecKit.exit 0
            else SpecKit.update_agent_context E (Some agent_type)
        | [] => SpecKit.update_agent_context E None
        end
      else if str_eqb command "set-current-feature" then
        match rest with
        | [] =>
            print (Text "Usage: spec_kit.py set-current-feature <feature-name>") ;;
            SpecKit.list_available_features E ;;
            SpecKit.exit 1
        | feature_name :: _ =>
            if is_in feature_name ["--help"; "-h"] then
              print (Text "Usage: spec_kit.py set-current-feature <feature-name>") ;;
              SpecKit.list_available_features E ;;
              SpecKit.exit 0
            else SpecKit.set_current_feature E feature_name
        end
      else if str_eqb command "get-current-feature" then
        SpecKit.get_current_feature_info E
      else if str_eqb command "list-features" then
        SpecKit.list_available_features E
      else
        print_err (Text ("ERROR: Unknown command '" ++ command ++ "'")) ;;
        print_err (Text "Run 'spec_kit.py' without arguments to see available commands.") ;;
        SpecKit.exit 1
  end.

(** ** Replacement texts that are taken literally

    A text without a backslash that does not start with a digit stays as
    it is between [\1] and [\2]. *)

Definition no_backslash (text : str) : bool :=
  forallb (λ c, negb (eqc c backslash)) text.



(** A matcher that consumes at least one character, and a terminator
    that leaves no more than it was given. *)
Definition consuming (m : matcher) : Prop :=
  ∀ s gs rest, m s = Some (gs, rest) → length rest < length s.


(** [re.sub] with the template already parsed. *)
Definition sub_all (m : matcher) (items : list item) (s : str) : str :=
  sub_loop m items (S (length s)) s.

(** A text in which no line feed is followed by a line feed or by the
    end: the lazy group before a blank line is such a text. *)
Fixpoint no_blank_line (x : str) : bool :=
  match x with
  | [] => true
  | c :: x' =>
      negb (eqc c nl && match x' with [] => true | d :: _ => eqc d nl end)
      && no_blank_line x'
  end.

(** ** The specification's wording, for comparison with the code *)

(** "Replace every run of non-[a-z0-9] characters with a single hyphen":
    one substitution, where the code makes two. *)
Fixpoint replace_runs (in_run : bool) (s : str) : str :=
  match s with
  | [] => []
  | c :: s' =>
      if is_lower_alnum c then c :: replace_runs false s'
      else if in_run then replace_runs true s'
      else "-"%char :: replace_runs true s'
  end.

(** "Lowercase the description, replace every run ..., strip leading and
    trailing hyphens, split on hyphens, keep the first up to 3 non-empty
    tokens, rejoin with hyphens." *)
Definition spec_slug (description : str) : str :=
  let s := lower description in
  let s := replace_runs false s in
  let s := strip_with is_hyphen s in
  let tokens := filter (λ t, t ≠ []) (split_on "-" s) in
  join "-" (take 3 tokens).

(** "Lines of the form **Field**: value": the value of one line, which
    is not empty. *)
Definition line_value (name line : str) : option str :=
  match lit ("**" ++ name ++ "**: ") line with
  | Some (c :: v) => Some (c :: v)
  | _ => None
  end.

(** The value of the first line of that form. *)
Fixpoint first_value (name : str) (lines : list str) : option str :=
  match lines with
  | [] => None
  | l :: ls =>
      match line_value name l with
      | Some v => Some v
      | None => first_value name ls
      end
  end.

Definition field_value (name content : str) : option str :=
  first_value name (split_on nl content).

(** "A field whose value contains the marker is treated as absent": the
    empty string also stands for a field without a line. *)
Definition unless_marked (value : option str) : str :=
  match value with
  | Some v => if str_in needs_clarification v then [] else strip v
  | None => []
  end.

(** ** Sample inputs *)

(** A plan whose project type carries the marker. *)
Definition plan_marked_type : str :=
  "**Language/Version**: Python 3.11" ++ [nl]
  ++ "**Project Type**: web NEEDS CLARIFICATION" ++ [nl].

(** [json.dump] for a configuration that holds the current feature. *)
Definition quote : ascii := "034"%char.

Definition sample_json_dump (cfg : gmap str pyval) : str :=
  "{" ++ [nl] ++ "  " ++ [quote] ++ "current_feature" ++ [quote] ++ ": "
  ++ match cfg !! ("current_feature" : str) with
     | Some (Some v) => [quote] ++ v ++ [quote]
     | _ => "null"
     end
  ++ [nl] ++ "}".

Definition sample_env : env :=
  Env "/work/app" "spec_kit.py" "2026-11-04" sample_json_dump.

(** A project with the features 001-a and 003-b and a directory x-y. *)
Definition sample_fs : gmap str node :=
  list_to_map
    [("/work/app" : str, Dir);
     ("/work/app/specs" : str, Dir);
     ("/work/app/specs/001-a" : str, Dir);
     ("/work/app/specs/003-b" : str, Dir);
     ("/work/app/specs/x-y" : str, Dir)].

Definition sample_config : gmap str pyval :=
  {[ ("current_feature" : str) := Some ("003-b" : str) ]}.

Definition sample_world : world := World sample_fs sample_config [] [].

(** The same project after its 999th feature. *)
Definition world_999 : world :=
  World (<[("/work/app/specs/999-last" : str) := Dir]> sample_fs)
        sample_config [] [].

(** The same project with a plan that has been written, and without
    templates. *)
Definition world_with_plan : world :=
  World (<[("/work/app/specs/003-b/plan.md" : str) := File "# My plan"]> sample_fs)
        sample_config [] [].

(** The same project with the plan template. *)
Definition world_with_template : world :=
  World (<[("/work/app/templates/plan-template.md" : str) := File "# Plan"]>
           (<[("/work/app/templates" : str) := Dir]> sample_fs))
        sample_config [] [].

(** The fields of a plan for Python, FastAPI and PostgreSQL, type web. *)
Definition sample_plan : str :=
  "# Implementation Plan" ++ [nl]
  ++ "**Language/Version**: Python 3.11" ++ [nl]
  ++ "**Primary Dependencies**: FastAPI" ++ [nl]
  ++ "**Storage**: PostgreSQL" ++ [nl]
  ++ "**Testing**: pytest" ++ [nl]
  ++ "**Project Type**: web" ++ [nl].

(** An agent context file with its five sections. *)
Definition sample_context : str :=
  "# app Development Guidelines" ++ [nl] ++ [nl]
  ++ "## Active Technologies" ++ [nl]
  ++ "- Rust 1.75 + tokio (001-a)" ++ [nl] ++ [nl]
  ++ "## Project Structure" ++ [nl] ++ "```" ++ [nl]
  ++ "src/" ++ [nl] ++ "tests/" ++ [nl] ++ "```" ++ [nl] ++ [nl]
  ++ "## Commands" ++ [nl] ++ "cargo test && cargo clippy" ++ [nl] ++ [nl]
  ++ "## Recent Changes" ++ [nl]
  ++ "- 003-b: Added Rust 1.75 + tokio" ++ [nl]
  ++ "- 002-z: Added Rust 1.75 + serde" ++ [nl]
  ++ "- 001-a: Added Rust 1.75 + tokio" ++ [nl] ++ [nl]
  ++ "Last updated: 2026-01-31" ++ [nl].


(** The text of group 1 of a search. *)
Definition group1 (r : option (str * (list str * str))) : option str :=
  match r with
  | Some (_, (g :: _, _)) => Some g
  | _ => None
  end.

(** The project with the plan of feature 003-b and the context file
    CLAUDE.md. *)
Definition world_with_context : world :=
  World (<[("/work/app/CLAUDE.md" : str) := File sample_context]>
           (<[("/work/app/specs/003-b/plan.md" : str) := File sample_plan]>
              sample_fs))
        sample_config [] [].

(** The text of CLAUDE.md after [runs] runs of update-agent-context
    claude. *)
Fixpoint context_after (runs : nat) (w : world) : world :=
  match runs with
  | O => w
  | S n => (SpecKit.update_agent_context sample_env (Some ("claude" : str))
              (context_after n w)).2
  end.

Definition claude_md (w : world) : option str :=
  match read_file "/work/app/CLAUDE.md" (fs w) with
  | inr content => Some content
  | inl _ => None
  end.


(** ** [ProjectManager._find_project_root]

    [cwd] is the answer of [os.getcwd()]. *)

(** [posixpath.dirname(p)] *)
Definition dirname (p : str) : str := (path_split p).1.

(** The test of the loop: spec-kit.json is a file of the directory, or
    specs is a directory of it. *)
Definition has_marker (fs : gmap str node) (current_dir : str) : bool :=
  isfile fs (path_join current_dir [ProjectManager.CONFIG_FILE])
  || isdir fs (path_join current_dir ["specs"]).

(** The [while] loop: [Some (Some d)] is [return d] inside the loop and
    [Some None] is the end of the loop. *)
Fixpoint find_project_root_loop (fuel : nat) (fs : gmap str node)
    (current_dir : str) : option (option str) :=
  match fuel with
  | O => None
  | S fuel' =>
      if str_eqb current_dir (dirname current_dir) then Some None
      else if has_marker fs current_dir then Some (Some current_dir)
      else find_project_root_loop fuel' fs (dirname current_dir)
  end.

Definition _find_project_root (cwd : str) (fs : gmap str node) : option str :=
  match find_project_root_loop (S (length cwd)) fs cwd with
  | Some (Some found) => Some found
  | Some None => Some cwd
  | None => None
  end.

(** ** The shape of feature names *)

(** [[a-z0-9-]], the characters that a slug is made of. *)
Definition is_slug_char (c : ascii) : bool := is_lower_alnum c || is_hyphen c.

(** A word of a slug: one or more characters of [a-z0-9]. *)
Definition is_word (w : str) : bool := nonempty w && forallb is_lower_alnum w.

(** ** Paths below the project root *)

(** What [os.path.join] puts before a relative name: the directory, with
    a slash unless it is empty or ends with one. *)
Definition dir_prefix (path : str) : str :=
  if negb (nonempty path) || ends_with_slash path then path else path ++ "/".

(** A name without a slash: one component of a path. *)
Definition no_slash (name : str) : bool :=
  forallb (λ c, negb (is_slash c)) name.

(** The second file system holds what the first holds, and directories
    where the first holds nothing. *)
Definition adds_dirs (fs fs' : gmap str node) : Prop :=
  ∀ p, fs' !! p = fs !! p ∨ (fs !! p = None ∧ fs' !! p = Some Dir).

(** The number that the feature numberer reads from one node of the file
    system when it lists the directory [d]. *)
Definition node_number (d : str) (kv : str * node) : option N :=
  match child_name d kv.1 with
  | Some entry =>
      numbered (entry, match kv.2 with Dir => true | File _ => false end)
  | None => None
  end.

(** ** What the commands leave alone *)

(** [self.config.get("current_feature")] *)
Definition current_of (cfg : gmap str pyval) : pyval :=
  match cfg !! ("current_feature" : str) with
  | Some v => v
  | None => None
  end.

(** A computation that leaves the files, the configuration and the error
    stream as they are, whatever its outcome. *)
Definition read_only {A} (c : M A) : Prop :=
  ∀ w, fs (c w).2 = fs w ∧ config (c w).2 = config w ∧ stderr (c w).2 = stderr w.

(** The three tests that check-task-prerequisites makes after it has
    found a current feature. *)
Definition prerequisites_met (E : env) (w : world) : bool :=
  match current_of (config w) with
  | Some name =>
      match_feature_prefix name
      && isdir (fs w) (FeatureManager.get_feature_dir E name)
      && isfile (fs w) (path_join (FeatureManager.get_feature_dir E name) ["plan.md"])
  | None => false
  end.

(** The design documents of a feature directory that are there, in the
    order in which check-task-prerequisites looks for them. *)
Definition available_docs (fs : gmap str node) (feature_dir : str) : list str :=
  (if isfile fs (path_join feature_dir ["research.md"])
   then ["research.md" : str] else [])
  ++ (if isfile fs (path_join feature_dir ["data-model.md"])
      then ["data-model.md" : str] else [])
  ++ (if isdir fs (path_join feature_dir ["contracts"])
         && bool_decide (listdir fs (path_join feature_dir ["contracts"]) ≠ [])
      then ["contracts/" : str] else [])
  ++ (if isfile fs (path_join feature_dir ["quickstart.md"])
      then ["quickstart.md" : str] else []).

(** The error of [open(path, 'w')], if any: the path is a directory, or
    the directory that should hold it is not there. *)
Definition write_error (fs : gmap str node) (path : str) : option oserror :=
  match fs !! path with
  | Some Dir => Some IsADirectoryError
  | Some (File _) => None
  | None => parent_error fs (dirname path)
  end.

(** A computation that changes no file outside [allowed], whatever its
    outcome: a path outside keeps what it holds, or holds a directory
    where nothing was; and the configuration and the error stream stay
    as they are. *)
Definition writes_within (allowed : str → Prop) {A} (c : M A) : Prop :=
  ∀ w,
    (∀ p, ¬ allowed p →
          fs (c w).2 !! p = fs w !! p
          ∨ (fs w !! p = None ∧ fs (c w).2 !! p = Some Dir))
    ∧ config (c w).2 = config w
    ∧ stderr (c w).2 = stderr w.

(** The three agent context files of a project. *)
Definition agent_files (E : env) : list str :=
  [path_join (project_root E) ["CLAUDE.md"];
   path_join (project_root E) ["GEMINI.md"];
   path_join (project_root E) [".github"; "copilot-instructions.md"]].

(** The file and the name that update-agent-context gives to an agent
    type; [None] for a type it does not know. *)
Definition agent_target (E : env) (agent_type : str) : option (str * str) :=
  if str_eqb agent_type "claude"
  then Some (path_join (project_root E) ["CLAUDE.md"], "Claude Code" : str)
  else if str_eqb agent_type "gemini"
  then Some (path_join (project_root E) ["GEMINI.md"], "Gemini CLI" : str)
  else if str_eqb agent_type "copilot"
  then Some (path_join (project_root E) [".github"; "copilot-instructions.md"],
             "GitHub Copilot" : str)
  else None.



(** The texts by which the patch finds its places: the headers of the
    four sections and the start of the date line. *)
Definition section_markers : list str :=
  [tech_header; struct_header; commands_header; changes_header;
   "Last updated: "].

(** [\d{4}-\d{2}-\d{2}] as a test of a whole text. *)
Definition is_date (d : str) : bool :=
  match d with
  | [y1; y2; y3; y4; h1; m1; m2; h2; d1; d2] =>
      is_digit y1 && is_digit y2 && is_digit y3 && is_digit y4 && eqc h1 "-"
      && is_digit m1 && is_digit m2 && eqc h2 "-" && is_digit d1 && is_digit d2
  | _ => false
  end.

(** * Properties *)

(** ** Characters and literals *)

Lemma eqc_eq a b : eqc a b = true ↔ a = b.
Proof. unfold eqc. apply Ascii.eqb_eq. Qed.

Lemma eqc_refl a : eqc a a = true.
Proof. by apply eqc_eq. Qed.

Lemma eqc_neq a b : eqc a b = false ↔ a ≠ b.
Proof. unfold eqc. apply Ascii.eqb_neq. Qed.

Lemma starts_with_prefix p s : starts_with p s = true ↔ ∃ r, s = p ++ r.
Proof.
  revert s. induction p as [|a p IH]; intros s; simpl.
  - split; [intros _; by exists s | done].
  - destruct s as [|b s].
    + split; [done | intros [r Hr]; discriminate Hr].
    + rewrite andb_true_iff, eqc_eq, IH. split.
      * intros [-> [r ->]]. by exists r.
      * intros [r Hr]. injection Hr as -> ->. split; [done | by exists r].
Qed.

Lemma starts_with_app p r : starts_with p (p ++ r) = true.
Proof. apply starts_with_prefix. by exists r. Qed.

Lemma lit_Some p s r : lit p s = Some r ↔ s = p ++ r.
Proof.
  unfold lit. destruct (starts_with p s) eqn:H.
  - apply starts_with_prefix in H as [r' ->].
    rewrite drop_app_length. split.
    + by intros [= ->].
    + intros H. by apply app_inv_head in H as ->.
  - split; [done |]. intros ->. by rewrite starts_with_app in H.
Qed.

Lemma lit_app p r : lit p (p ++ r) = Some r.
Proof. by apply lit_Some. Qed.

Lemma lit_None p s : lit p s = None ↔ starts_with p s = false.
Proof. unfold lit. by destruct (starts_with p s). Qed.

(** ** Feature numbers *)

Lemma visit_max h e :
  visit h e = N.max h (default 0%N (numbered e)).
Proof.
  destruct e as [entry is_dir]. unfold visit, numbered. simpl.
  destruct is_dir; simpl; [| lia].
  destruct (match_digits entry) as [d|]; simpl; [| lia].
  destruct (N.ltb_spec h (int_of_digits d)); lia.
Qed.

Lemma fold_visit_max entries h :
  fold_left visit entries h = N.max h (max_N (dir_numbers entries)).
Proof.
  revert h. induction entries as [|e entries IH]; intros h; simpl.
  - unfold max_N. simpl. lia.
  - rewrite IH, visit_max. unfold dir_numbers. simpl.
    destruct (numbered e) as [n|]; simpl; fold (dir_numbers entries);
      unfold max_N; simpl; lia.
Qed.

Lemma max_N_bound l n : n ∈ l → (n <= max_N l)%N.
Proof.
  induction 1 as [n l | n m l _ IH]; unfold max_N in *; simpl; lia.
Qed.

Lemma max_N_elem l : l ≠ [] → max_N l ∈ l.
Proof.
  induction l as [|n l IH]; [done |]. intros _.
  destruct l as [|m l].
  - unfold max_N. simpl. rewrite N.max_0_r. by left.
  - change (max_N (n :: m :: l)) with (N.max n (max_N (m :: l))).
    destruct (N.max_spec n (max_N (m :: l))) as [[_ ->] | [_ ->]].
    + right. by apply IH.
    + by left.
Qed.

Lemma max_N_perm l1 l2 : l1 ≡ₚ l2 → max_N l1 = max_N l2.
Proof.
  induction 1; unfold max_N in *; simpl; lia.
Qed.

Lemma dir_numbers_perm es1 es2 :
  es1 ≡ₚ es2 → dir_numbers es1 ≡ₚ dir_numbers es2.
Proof. intros H. unfold dir_numbers. by rewrite H. Qed.

Lemma dir_numbers_filter entries :
  dir_numbers (filter (λ e, is_Some (numbered e)) entries) = dir_numbers entries.
Proof.
  unfold dir_numbers.
  induction entries as [|e entries IH]; [done |].
  rewrite filter_cons. destruct (decide (is_Some (numbered e))) as [Hs | Hn].
  - cbn. destruct (numbered e); cbn in IH; by rewrite IH.
  - cbn. destruct (numbered e); [| done]. destruct Hn. eauto.
Qed.

(** C2.  For every listing of specs/, the next feature number is one more
    than the greatest numeric prefix of the subdirectories whose names
    start with digits: it is above every such number, it is the
    successor of one of them when there is one, and it is 1 when there is
    none or when specs/ is absent.  Entries without a digit prefix, and
    entries that are not directories, do not change it, and neither does
    the order of the listing.  The listing 001-a, 003-b, x-y gives 4 in
    every order. *)
Theorem next_feature_number_is_max_plus_one (specs : option listing) :
  let entries := default [] specs in
  let next := next_feature_number specs in
  next = (max_N (dir_numbers entries) + 1)%N
  ∧ (∀ n, n ∈ dir_numbers entries → (n < next)%N)
  ∧ (dir_numbers entries ≠ [] → ∃ n, n ∈ dir_numbers entries ∧ next = (n + 1)%N)
  ∧ (dir_numbers entries = [] → next = 1%N)
  ∧ next_feature_number None = 1%N
  ∧ next_feature_number
      (Some (filter (λ e, is_Some (numbered e)) entries)) = next
  ∧ (∀ entries', entries' ≡ₚ entries → next_feature_number (Some entries') = next)
  ∧ (∀ order, order ≡ₚ [("001-a", true); ("003-b", true); ("x-y", true)] →
       next_feature_number (Some order) = 4%N).
Proof.
  intros entries next.
  assert (Hsome : ∀ es, next_feature_number (Some es)
                        = (max_N (dir_numbers es) + 1)%N).
  { intros es. unfold next_feature_number. rewrite fold_visit_max. lia. }
  assert (Hnext : next = (max_N (dir_numbers entries) + 1)%N).
  { subst next entries. destruct specs as [es|]; [apply Hsome | done]. }
  split_and!.
  - done.
  - intros n Hn. apply max_N_bound in Hn. lia.
  - intros Hne. exists (max_N (dir_numbers entries)).
    split; [by apply max_N_elem | done].
  - intros Hnil. rewrite Hnext, Hnil. done.
  - done.
  - by rewrite Hsome, dir_numbers_filter.
  - intros es' Hperm. rewrite Hsome, Hnext.
    by rewrite (max_N_perm _ _ (dir_numbers_perm _ _ Hperm)).
  - intros order Hperm. rewrite Hsome.
    by rewrite (max_N_perm _ _ (dir_numbers_perm _ _ Hperm)).
Qed.

(** ** Decimal numbers and [%03d] *)

Lemma digit_char_is_digit n : (n < 10)%N → is_digit (digit_char n) = true.
Proof.
  intros H. assert (Hn : (N.to_nat n < 10)%nat) by lia.
  unfold digit_char. remember (N.to_nat n) as k eqn:Hk. clear Hk H.
  do 10 (destruct k as [|k]; [done |]). lia.
Qed.

Lemma digit_val_digit_char n : (n < 10)%N → digit_val (digit_char n) = n.
Proof.
  intros H. assert (Hn : (N.to_nat n < 10)%nat) by lia.
  rewrite <- (N2Nat.id n) at 2.
  unfold digit_val, digit_char. remember (N.to_nat n) as k eqn:Hk. clear Hk H.
  do 10 (destruct k as [|k]; [done |]). lia.
Qed.

Lemma digits_of_enough k1 k2 n :
  (n < 2 ^ N.of_nat k1)%N → (n < 2 ^ N.of_nat k2)%N →
  digits_of (S k1) n = digits_of (S k2) n.
Proof.
  revert k2 n. induction k1 as [|k1 IH]; intros k2 n H1 H2.
  - assert (n = 0%N) as -> by (simpl in H1; lia). done.
  - simpl. destruct (N.ltb_spec n 10) as [Hlt | Hge]; [done |].
    destruct k2 as [|k2]; [simpl in H2; lia |].
    rewrite !Nat2N.inj_succ, !N.pow_succ_r' in *.
    assert (n / 10 < 2 ^ N.of_nat k1)%N.
    { apply N.Div0.div_lt_upper_bound. lia. }
    assert (n / 10 < 2 ^ N.of_nat k2)%N.
    { apply N.Div0.div_lt_upper_bound. lia. }
    f_equal. by apply IH.
Qed.

Lemma str_of_N_unfold n :
  str_of_N n =
  if (n <? 10)%N then [digit_char n]
  else str_of_N (n / 10) ++ [digit_char (n mod 10)].
Proof.
  unfold str_of_N at 1. simpl.
  destruct (N.ltb_spec n 10) as [Hlt | Hge]; [done |].
  f_equal. pose proof (N.size_gt n) as Hn. pose proof (N.size_gt (n / 10)) as Hd.
  destruct (N.to_nat (N.size n)) as [|k] eqn:Hk.
  { assert (N.size n = 0%N) as Hs by lia. rewrite Hs in Hn. simpl in Hn. lia. }
  unfold str_of_N. apply digits_of_enough.
  - assert (N.size n = N.succ (N.of_nat k)) as Hs by lia.
    rewrite Hs, N.pow_succ_r' in Hn.
    apply N.Div0.div_lt_upper_bound. lia.
  - by rewrite N2Nat.id.
Qed.

Lemma digits_of_digits k n : forallb is_digit (digits_of k n) = true.
Proof.
  revert n. induction k as [|k IH]; intros n; [done |].
  cbn [digits_of]. destruct (N.ltb_spec n 10) as [Hlt | Hge].
  - cbn [forallb]. rewrite digit_char_is_digit by done. done.
  - rewrite forallb_app, IH. cbn [forallb].
    rewrite digit_char_is_digit; [done |].
    apply N.mod_lt. lia.
Qed.

Lemma str_of_N_digits n : forallb is_digit (str_of_N n) = true.
Proof. apply digits_of_digits. Qed.

Lemma int_of_digits_snoc d c :
  int_of_digits (d ++ [c]) = (10 * int_of_digits d + digit_val c)%N.
Proof. unfold int_of_digits. by rewrite fold_left_app. Qed.

Lemma int_of_str_of_N n : int_of_digits (str_of_N n) = n.
Proof.
  induction n as [n IH] using (well_founded_induction N.lt_wf_0).
  rewrite str_of_N_unfold. destruct (N.ltb_spec n 10) as [Hlt | Hge].
  - unfold int_of_digits. simpl. by rewrite digit_val_digit_char.
  - rewrite int_of_digits_snoc, IH, digit_val_digit_char.
    + symmetry. apply N.div_mod. lia.
    + by apply N.mod_lt.
    + apply N.div_lt; lia.
Qed.

Lemma str_of_N_length_lower n k :
  (10 ^ N.of_nat k <= n)%N → k < length (str_of_N n).
Proof.
  revert n. induction k as [|k IH]; intros n Hn.
  - rewrite str_of_N_unfold. destruct (n <? 10)%N; [simpl; lia |].
    rewrite length_app. simpl. lia.
  - rewrite Nat2N.inj_succ, N.pow_succ_r' in Hn.
    rewrite str_of_N_unfold. destruct (N.ltb_spec n 10) as [Hlt | Hge].
    + assert (1 <= 10 ^ N.of_nat k)%N; [| lia].
      apply (N.pow_le_mono_r 10 0); lia.
    + rewrite length_app. simpl.
      assert (k < length (str_of_N (n / 10))); [| lia].
      apply IH. apply N.div_le_lower_bound; lia.
Qed.

Lemma str_of_N_length_upper n k :
  (n < 10 ^ N.of_nat (S k))%N → length (str_of_N n) ≤ S k.
Proof.
  revert n. induction k as [|k IH]; intros n Hn.
  - rewrite str_of_N_unfold. change (10 ^ N.of_nat 1)%N with 10%N in Hn.
    destruct (N.ltb_spec n 10); [simpl; lia | lia].
  - rewrite Nat2N.inj_succ, N.pow_succ_r' in Hn.
    rewrite str_of_N_unfold. destruct (N.ltb_spec n 10) as [Hlt | Hge].
    + simpl. lia.
    + rewrite length_app. simpl.
      assert (length (str_of_N (n / 10)) ≤ S k); [| lia].
      apply IH. apply N.Div0.div_lt_upper_bound. lia.
Qed.

Lemma int_of_digits_zeros k d :
  int_of_digits (replicate k "0"%char ++ d) = int_of_digits d.
Proof.
  unfold int_of_digits. rewrite fold_left_app. f_equal.
  induction k as [|k IH]; [done |].
  change (replicate (S k) "0"%char) with ("0"%char :: replicate k "0"%char).
  simpl. exact IH.
Qed.

(** [%03d]: a string of digits that reads as the number, with exactly
    three digits below 1000 and more than three from 1000 on. *)
Lemma format_03d_spec n :
  forallb is_digit (format_03d n) = true
  ∧ int_of_digits (format_03d n) = n
  ∧ ((n < 1000)%N → length (format_03d n) = 3)
  ∧ ((1000 <= n)%N → format_03d n = str_of_N n ∧ 3 < length (format_03d n)).
Proof.
  unfold format_03d. split_and!.
  - rewrite forallb_app, str_of_N_digits, andb_true_r.
    by induction (3 - length (str_of_N n)).
  - by rewrite int_of_digits_zeros, int_of_str_of_N.
  - intros Hn. rewrite length_app, length_replicate.
    pose proof (str_of_N_length_upper n 2 Hn). lia.
  - intros Hn. pose proof (str_of_N_length_lower n 3 Hn) as Hl.
    replace (3 - length (str_of_N n)) with 0 by lia. done.
Qed.

(** ** The slug *)

Lemma squeeze_hyphenate b s :
  squeeze_from b (hyphenate s) = replace_runs b s.
Proof.
  revert b. induction s as [|c s IH]; intros b; [done |].
  unfold hyphenate in *. cbn [map squeeze_from replace_runs].
  destruct (is_lower_alnum c) eqn:Hc.
  - assert (is_hyphen c = false) as ->.
    { unfold is_hyphen. apply eqc_neq. intros ->. discriminate Hc. }
    by rewrite IH.
  - change (is_hyphen "-"%char) with true. cbn. rewrite IH. by destruct b.
Qed.

Lemma filter_nonempty (l : list str) :
  filter (λ w, nonempty w = true) l = filter (λ t, t ≠ []) l.
Proof.
  apply list_filter_iff. intros [|c w]; simpl; split; congruence.
Qed.

Lemma slug_refines_spec description : slug description = spec_slug description.
Proof.
  unfold slug, spec_slug, squeeze_hyphens.
  by rewrite squeeze_hyphenate, filter_nonempty.
Qed.

Example slug_user_auth_system : slug "User Auth System!!" = "user-auth-system".
Proof. reflexivity. Qed.

(** ** Running the state monad *)

Ltac run :=
  repeat progress
    (unfold bind, ret, raise, try_except, fs_call, read_text, when,
       get_fs, get_config, set_config, print, print_err, SpecKit.exit in *;
     cbn [fs config stdout stderr fst snd negb]).

(** C3.  For a description that is not empty after stripping,
    create_new_feature names the feature NNN-slug: NNN is the next feature
    number in the format %03d (digits that read as the number, exactly
    three of them below 1000), and the slug is the one the specification
    describes: the description in lower case, every run of characters
    outside a-z0-9 replaced by one hyphen, hyphens stripped at both ends,
    split on hyphens, the first up to three non-empty tokens joined by
    hyphens.  When the directories can be made and the configuration can
    be written the call returns that name, its directory and NNN, and
    makes the feature current.  The description User Auth System!! gives
    the slug user-auth-system. *)
Theorem create_new_feature_names_the_feature
    (E : env) (feature_description : str) (w : world)
    (fs1 fs2 fs3 : gmap str node) :
  let specs_dir := path_join (project_root E) ["specs"] in
  let n := next_feature_number (ProjectManager.specs_listing E fs1) in
  let name := format_03d n ++ "-" ++ spec_slug feature_description in
  let cfg := <[("current_feature" : str) := Some name]> (config w) in
  strip feature_description ≠ [] →
  makedirs specs_dir (fs w) = (None, fs1) →
  makedirs (path_join specs_dir [name]) fs1 = (None, fs2) →
  write_file (ProjectManager.config_path E) (json_dump E cfg) fs2 = (None, fs3) →
  FeatureManager.create_new_feature E feature_description w
  = (Ok {| feature_name := name;
           feature_dir := path_join specs_dir [name];
           feature_num := format_03d n |},
     World fs3 cfg (stdout w) (stderr w))
  ∧ slug feature_description = spec_slug feature_description
  ∧ forallb is_digit (format_03d n) = true
  ∧ int_of_digits (format_03d n) = n
  ∧ ((n < 1000)%N → length (format_03d n) = 3)
  ∧ spec_slug "User Auth System!!" = "user-auth-system".
Proof.
  intros specs_dir n name cfg Hdesc Hspecs Hdir Hsave.
  pose proof (format_03d_spec n) as (Hdigits & Hint & Hlen & _).
  split_and!; try done; [| apply slug_refines_spec].
  unfold FeatureManager.create_new_feature.
  destruct (strip feature_description) as [|c d] eqn:Hs; [done |].
  cbn [nonempty negb].
  unfold ProjectManager.get_next_feature_number,
    ProjectManager.set_current_feature, ProjectManager._save_config,
    ProjectManager.get_project_root.
  run. fold specs_dir. rewrite Hspecs. cbn [fs config stdout stderr].
  fold n. rewrite slug_refines_spec. fold name. rewrite Hdir.
  cbn [fs config stdout stderr]. fold cfg. rewrite Hsave. done.
Qed.

(** ** Feature numbers beyond 999 *)

Lemma create_new_feature_Ok E feature_description w r w' :
  FeatureManager.create_new_feature E feature_description w = (Ok r, w') →
  ∃ n, r = {| feature_name := final_feature_name n feature_description;
              feature_dir := path_join (path_join (project_root E) ["specs"])
                               [final_feature_name n feature_description];
              feature_num := format_03d n |}
       ∧ config w' = <[("current_feature" : str) :=
                         Some (final_feature_name n feature_description)]> (config w).
Proof.
  unfold FeatureManager.create_new_feature.
  destruct (nonempty (strip feature_description)); cbn [negb]; [| by run].
  unfold ProjectManager.get_next_feature_number,
    ProjectManager.set_current_feature, ProjectManager._save_config,
    ProjectManager.get_project_root.
  run.
  destruct (makedirs _ (fs w)) as [[e1|] fs1]; [done |].
  cbn [fs config stdout stderr].
  match goal with |- context [next_feature_number ?l] =>
    set (n := next_feature_number l) end.
  destruct (makedirs _ fs1) as [[e2|] fs2]; [done |].
  cbn [fs config stdout stderr].
  destruct (write_file _ _ fs2) as [[e3|] fs3]; cbn [is_oserror]; [done |].
  intros [= <- <-]. exists n. done.
Qed.

(** A current feature whose name does not match [^[0-9]{3}-] stops the
    three commands that validate it. *)
Lemma invalid_current_feature_exits E w name json_mode :
  config w !! ("current_feature" : str) = Some (Some name) →
  name ≠ [] →
  match_feature_prefix name = false →
  let w' := World (fs w) (config w)
              (stdout w ++ [Text ("ERROR: Invalid feature name: " ++ name);
                            Text "Feature names should be like: 001-feature-name"])
              (stderr w) in
  FeatureManager.check_feature_name (Some name) w = (Ok false, w')
  ∧ SpecKit.check_task_prerequisites E json_mode w = (Raise (SystemExit 1), w')
  ∧ SpecKit.get_feature_paths_command E w = (Raise (SystemExit 1), w')
  ∧ SpecKit.setup_plan E json_mode w = (Raise (SystemExit 1), w').
Proof.
  intros Hcfg Hne Hbad w'.
  assert (Hcheck : FeatureManager.check_feature_name (Some name) w = (Ok false, w')).
  { unfold FeatureManager.check_feature_name.
    destruct name as [|c name]; [done |]. cbn [truthy negb from_option id].
    rewrite Hbad. cbn [negb]. run. subst w'. by rewrite <- app_assoc. }
  assert (Hpaths : ∃ p, SpecKit.feature_paths_or_exit E w = (Ok p, w)
                        ∧ CURRENT_FEATURE p = name).
  { unfold SpecKit.feature_paths_or_exit, FeatureManager.get_feature_paths,
      ProjectManager.get_current_feature.
    run. rewrite Hcfg. destruct name as [|c name]; [done |].
    cbn [truthy negb from_option id]. eexists. split; [reflexivity | done]. }
  destruct Hpaths as (p & Hp & Hname).
  split_and!; [done | | |].
  - unfold SpecKit.check_task_prerequisites. unfold bind at 1.
    rewrite Hp. unfold bind at 1. rewrite Hname, Hcheck. done.
  - unfold SpecKit.get_feature_paths_command. unfold bind at 1.
    rewrite Hp. unfold bind at 1. rewrite Hname, Hcheck. done.
  - unfold SpecKit.setup_plan. unfold bind at 1.
    rewrite Hp. unfold bind at 1. rewrite Hname, Hcheck. done.
Qed.

Lemma long_number_has_no_feature_prefix n rest :
  (1000 <= n)%N → match_feature_prefix (format_03d n ++ "-" ++ rest) = false.
Proof.
  intros Hn. pose proof (format_03d_spec n) as (Hdigits & _ & _ & Hlong).
  destruct (Hlong Hn) as [_ Hlen].
  destruct (format_03d n) as [|a [|b [|c [|d digits]]]]; simpl in Hlen; try lia.
  cbn [forallb] in Hdigits. cbn [app match_feature_prefix].
  apply andb_true_iff in Hdigits as [_ Hdigits].
  apply andb_true_iff in Hdigits as [_ Hdigits].
  apply andb_true_iff in Hdigits as [_ Hdigits].
  apply andb_true_iff in Hdigits as [Hd _].
  assert (eqc d "-" = false) as ->; [| by rewrite !andb_false_r].
  apply eqc_neq. intros ->. discriminate Hd.
Qed.

(** C10.  When the next feature number is 1000 or more, the feature that
    create_new_feature has just created and made current has a numeric
    prefix of more than three digits (%03d pads and never truncates),
    check_feature_name answers False for its name, and every command that
    validates the current feature name, check-task-prerequisites,
    get-feature-paths and setup-plan, exits with status 1. *)
Theorem feature_numbered_1000_or_more_is_rejected
    (E : env) (feature_description : str) (json_mode : bool)
    (w w' : world) (r : new_feature) :
  FeatureManager.create_new_feature E feature_description w = (Ok r, w') →
  (1000 <= int_of_digits (feature_num r))%N →
  feature_name r = feature_num r ++ "-" ++ slug feature_description
  ∧ feature_num r = str_of_N (int_of_digits (feature_num r))
  ∧ forallb is_digit (feature_num r) = true
  ∧ 3 < length (feature_num r)
  ∧ match_feature_prefix (feature_name r) = false
  ∧ ProjectManager.get_current_feature w' = (Ok (Some (feature_name r)), w')
  ∧ (FeatureManager.check_feature_name (Some (feature_name r)) w').1 = Ok false
  ∧ (SpecKit.check_task_prerequisites E json_mode w').1 = Raise (SystemExit 1)
  ∧ (SpecKit.get_feature_paths_command E w').1 = Raise (SystemExit 1)
  ∧ (SpecKit.setup_plan E json_mode w').1 = Raise (SystemExit 1).
Proof.
  intros Hcreate Hn.
  apply create_new_feature_Ok in Hcreate as (n & -> & Hcfg).
  cbn [feature_name feature_num] in *.
  pose proof (format_03d_spec n) as (Hdigits & Hint & _ & Hlong).
  rewrite Hint in *. destruct (Hlong Hn) as [Hstr Hlen].
  assert (Hbad : match_feature_prefix (final_feature_name n feature_description) = false)
    by by apply long_number_has_no_feature_prefix.
  assert (Hcur : config w' !! ("current_feature" : str)
                 = Some (Some (final_feature_name n feature_description)))
    by by rewrite Hcfg, lookup_insert_eq.
  assert (Hne : final_feature_name n feature_description ≠ []).
  { unfold final_feature_name. destruct (format_03d n); [simpl in Hlen; lia | done]. }
  destruct (invalid_current_feature_exits E w' _ json_mode Hcur Hne Hbad)
    as (H1 & H2 & H3 & H4).
  split_and!; try done.
  - unfold ProjectManager.get_current_feature. run. by rewrite Hcur.
  - by rewrite H1.
  - by rewrite H2.
  - by rewrite H3.
  - by rewrite H4.
Qed.

(** ** Rejected descriptions and rejected feature names *)

Lemma print_all_state ls w :
  SpecKit.print_all ls w
  = (Ok tt, World (fs w) (config w) (stdout w ++ ls) (stderr w)).
Proof.
  revert w. induction ls as [|l ls IH]; intros w; cbn [SpecKit.print_all].
  - run. rewrite app_nil_r. by destruct w.
  - run. rewrite IH. cbn [fs config stdout stderr]. by rewrite <- app_assoc.
Qed.

(** C5.  For a description that is empty or only white space,
    create_new_feature fails: the method of FeatureManager raises its
    ValueError before it touches anything, and the command of SpecKit
    writes the usage line to the error stream and exits with status 1.
    Neither makes a directory or changes the file system at all, and the
    configuration, with its current feature, stays as it was. *)
Theorem create_new_feature_rejects_blank_description
    (E : env) (feature_description : str) (json_mode : bool) (w : world) :
  strip feature_description = [] →
  FeatureManager.create_new_feature E feature_description w
  = (Raise (ValueError "Feature description cannot be empty"), w)
  ∧ ∃ w', SpecKit.create_new_feature E feature_description json_mode w
          = (Raise (SystemExit 1), w')
          ∧ fs w' = fs w
          ∧ config w' = config w
          ∧ (ProjectManager.get_current_feature w').1
            = (ProjectManager.get_current_feature w).1
          ∧ stdout w' = stdout w
          ∧ stderr w' = stderr w ++
              [Text ("Usage: " ++ script_name E
                     ++ " create-new-feature [--json] <feature_description>")].
Proof.
  intros Hblank. split.
  - unfold FeatureManager.create_new_feature. rewrite Hblank. by run.
  - unfold SpecKit.create_new_feature. rewrite Hblank. cbn [nonempty negb].
    run. eexists. split; [reflexivity |]. done.
Qed.

(** C6.  For a feature name that does not match [^[0-9]{3}-], and for a
    name whose directory under specs/ is not there, set-current-feature
    exits with status 1; it writes no file and leaves the configuration,
    with its current feature, as it was. *)
Theorem set_current_feature_rejects_bad_name
    (E : env) (feature_name : str) (w : world) :
  match_feature_prefix feature_name = false
  ∨ isdir (fs w) (FeatureManager.get_feature_dir E feature_name) = false →
  ∃ w', SpecKit.set_current_feature E feature_name w = (Raise (SystemExit 1), w')
        ∧ fs w' = fs w
        ∧ config w' = config w
        ∧ (ProjectManager.get_current_feature w').1
          = (ProjectManager.get_current_feature w).1
        ∧ stderr w' = stderr w.
Proof.
  intros Hbad. unfold SpecKit.set_current_feature.
  unfold FeatureManager.check_feature_name.
  destruct feature_name as [|c name].
  { cbn [truthy negb]. run. eexists. split; [reflexivity |]. done. }
  cbn [truthy negb from_option id].
  destruct (match_feature_prefix (c :: name)) eqn:Hprefix; cbn [negb].
  - destruct Hbad as [? | Hdir]; [done |].
    run. rewrite Hdir. cbn [negb].
    destruct (isdir (fs w) (path_join (ProjectManager.get_project_root E) ["specs"])).
    + rewrite print_all_state. cbn [fs config stdout stderr].
      eexists. split; [reflexivity |]. done.
    + eexists. split; [reflexivity |]. done.
  - run. eexists. split; [reflexivity |]. done.
Qed.

(** ** The command line of set-current-feature *)

Lemma list_available_features_state E w :
  ∃ w', SpecKit.list_available_features E w = (Ok tt, w')
        ∧ fs w' = fs w ∧ config w' = config w ∧ stderr w' = stderr w.
Proof.
  unfold SpecKit.list_available_features, ProjectManager.get_current_feature.
  run. destruct (isdir (fs w) _); cbn [negb].
  - destruct (SpecKit.feature_entries _ _ _) as [|x l].
    + eexists. split; [reflexivity |]. done.
    + rewrite print_all_state. cbn [fs config stdout stderr].
      eexists. split; [reflexivity |]. done.
  - eexists. split; [reflexivity |]. done.
Qed.

(** [main] hands every name but the two help flags to the method; for a
    help flag it prints the usage and the features and exits with status
    0, and the state of the project is as before. *)
Lemma main_set_current_feature E name more w :
  (is_in name ["--help"; "-h"] = false →
   main E ("set-current-feature" :: name :: more) w
   = SpecKit.set_current_feature E name w)
  ∧ (is_in name ["--help"; "-h"] = true →
     ∃ w', main E ("set-current-feature" :: name :: more) w
           = (Raise (SystemExit 0), w')
           ∧ fs w' = fs w ∧ config w' = config w).
Proof.
  unfold main.
  change (str_eqb "set-current-feature" "check-task-prerequisites") with false.
  change (str_eqb "set-current-feature" "get-feature-paths") with false.
  change (str_eqb "set-current-feature" "create-new-feature") with false.
  change (str_eqb "set-current-feature" "setup-plan") with false.
  change (str_eqb "set-current-feature" "update-agent-context") with false.
  change (str_eqb "set-current-feature" "set-current-feature") with true.
  cbn iota. split; intros ->; [done |].
  run. destruct (list_available_features_state E
                   (World (fs w) (config w)
                      (stdout w ++ [Text "Usage: spec_kit.py set-current-feature <feature-name>"])
                      (stderr w))) as (w' & -> & Hfs & Hcfg & _).
  eexists. split; [reflexivity |]. done.
Qed.

(** ** Copying a template *)

(** C7, amended.  Let the directory of the target exist, and let the
    target be neither a directory nor the template itself.  When the
    template is a file under templates/ of the root, copy_template writes
    its bytes to the target, over whatever was there, and returns true.
    Otherwise it writes a warning to the error stream and returns false;
    it makes an empty file at the target only when nothing is there, and
    a target that exists keeps its content.  In both cases the target is
    a file after the call, and nothing else in the file system, the
    configuration or the standard output changes. *)
Theorem copy_template_result
    (E : env) (template_name target_path : str) (w : world) :
  let template := path_join (project_root E) ["templates"; template_name] in
  let warning := Text ("Warning: Template not found at " ++ template) in
  parent_error (fs w) (path_split target_path).1 = None →
  isdir (fs w) target_path = false →
  target_path ≠ template →
  ∃ w', (FileManager.copy_template E template_name target_path w).2 = w'
    ∧ match fs w !! template with
      | Some (File bytes) =>
          (FileManager.copy_template E template_name target_path w).1 = Ok true
          ∧ fs w' = <[target_path := File bytes]> (fs w)
          ∧ stderr w' = stderr w
      | _ =>
          (FileManager.copy_template E template_name target_path w).1 = Ok false
          ∧ stderr w' = stderr w ++ [warning]
          ∧ match fs w !! target_path with
            | Some _ => fs w' = fs w
            | None => fs w' = <[target_path := File []]> (fs w)
            end
      end
    ∧ isfile (fs w') target_path = true
    ∧ config w' = config w
    ∧ stdout w' = stdout w.
Proof.
  intros template warning Hparent Hdir Hne.
  unfold FileManager.copy_template, ProjectManager.get_project_root.
  fold template. run.
  assert (Hcopy : ∀ bytes, fs w !! template = Some (File bytes) →
            copy2 template target_path (fs w)
            = (None, <[target_path := File bytes]> (fs w))).
  { intros bytes Htemplate. unfold copy2. rewrite Hdir.
    unfold str_eqb. rewrite bool_decide_eq_false_2 by done. cbn [andb].
    unfold read_file, write_file. rewrite Htemplate.
    unfold isdir in Hdir.
    destruct (fs w !! target_path) as [[old|]|]; [done | done |].
    by rewrite Hparent. }
  assert (Htouch : touch target_path (fs w)
            = (None, match fs w !! target_path with
                     | Some _ => fs w
                     | None => <[target_path := File []]> (fs w)
                     end)).
  { unfold touch. destruct (fs w !! target_path); [done |]. by rewrite Hparent. }
  assert (Hafter : isfile (match fs w !! target_path with
                           | Some _ => fs w
                           | None => <[target_path := File []]> (fs w)
                           end) target_path = true).
  { unfold isfile, isdir in *.
    destruct (fs w !! target_path) as [[old|]|] eqn:Htarget.
    - by rewrite Htarget.
    - done.
    - by rewrite lookup_insert_eq. }
  destruct (fs w !! template) as [[bytes|]|] eqn:Htemplate.
  - assert (isfile (fs w) template = true) as ->
      by (unfold isfile; by rewrite Htemplate).
    rewrite (Hcopy bytes eq_refl). cbn [fs config stdout stderr fst snd].
    eexists. split; [reflexivity |]. cbn [fs config stdout stderr].
    split_and!; try done. unfold isfile. by rewrite lookup_insert_eq.
  - assert (isfile (fs w) template = false) as ->
      by (unfold isfile; by rewrite Htemplate).
    cbn [fs config stdout stderr fst snd].
    rewrite Htouch. cbn [fs config stdout stderr fst snd].
    eexists. split; [reflexivity |]. cbn [fs config stdout stderr].
    split_and!; try done. by destruct (fs w !! target_path).
  - assert (isfile (fs w) template = false) as ->
      by (unfold isfile; by rewrite Htemplate).
    cbn [fs config stdout stderr fst snd].
    rewrite Htouch. cbn [fs config stdout stderr fst snd].
    eexists. split; [reflexivity |]. cbn [fs config stdout stderr].
    split_and!; try done. by destruct (fs w !! target_path).
Qed.

(** ** Plan fields *)

Lemma split_on_head sep s :
  ∃ t, split_on sep s = take_while (λ c, negb (eqc c sep)) s :: t.
Proof.
  induction s as [|c s [t IH]]; cbn [split_on take_while]; [by eexists |].
  destruct (eqc c sep); cbn [negb]; [by eexists |].
  rewrite IH. by eexists.
Qed.

Lemma lit_take_while p s :
  forallb not_nl p = true →
  lit p (take_while not_nl s) = take_while not_nl <$> lit p s.
Proof.
  revert s. induction p as [|a p IH]; intros s Hp.
  - unfold lit. cbn. by rewrite !drop_0.
  - cbn [forallb] in Hp. apply andb_true_iff in Hp as [Ha Hp].
    destruct s as [|b s]; [done |]. cbn [take_while].
    destruct (not_nl b) eqn:Hb.
    + unfold lit in *. cbn [starts_with length drop].
      destruct (eqc a b); cbn [andb]; [| done]. apply IH, Hp.
    + unfold lit. cbn [starts_with].
      assert (eqc a b = false) as ->; [| done].
      apply eqc_neq. intros ->. congruence.
Qed.

Lemma m_field_line_value name s :
  forallb not_nl name = true →
  m_field name s = line_value name (take_while not_nl s).
Proof.
  intros Hname. unfold m_field, line_value.
  rewrite lit_take_while.
  - destruct (lit _ s) as [rest|]; [| done]. cbn.
    by destruct (take_while not_nl rest).
  - by rewrite !forallb_app, Hname.
Qed.

Lemma search_field_from_lines name s :
  forallb not_nl name = true →
  search_field_from name true s = first_value name (split_on nl s)
  ∧ search_field_from name false s = first_value name (tail (split_on nl s)).
Proof.
  intros Hname. induction s as [|c s [IHt IHf]].
  - cbn [search_field_from split_on first_value tail].
    rewrite m_field_line_value by done. cbn [take_while].
    by destruct (line_value name []).
  - assert (Hf : search_field_from name false (c :: s)
                 = first_value name (tail (split_on nl (c :: s)))).
    { cbn [search_field_from split_on].
      destruct (eqc c nl); [done |].
      destruct (split_on_head nl s) as [t Ht]. rewrite Ht in *. done. }
    split; [| done].
    destruct (split_on_head nl (c :: s)) as [t Ht].
    rewrite Ht in Hf |- *. cbn [tail] in Hf.
    cbn [first_value]. rewrite <- m_field_line_value by done.
    cbn [search_field_from] in *.
    destruct (m_field name (c :: s)); done.
Qed.

Lemma search_field_refines name content :
  forallb not_nl name = true →
  search_field name content = field_value name content.
Proof. intros Hname. apply search_field_from_lines, Hname. Qed.

(** C9, amended.  The extraction takes, for each field, the first line
    of the plan of the form **Field**: value with a value that is not
    empty.  Language/Version, Primary Dependencies and Testing are absent
    (the empty string) when there is no such line or when the value
    contains NEEDS CLARIFICATION, and the stripped value otherwise;
    Storage is also absent when the value contains N/A.  Project Type is
    the stripped value whether or not it contains the marker. *)
Theorem extract_fields_by_lines (content : str) :
  let f := extract_fields content in
  new_lang f = unless_marked (field_value "Language/Version" content)
  ∧ new_framework f = unless_marked (field_value "Primary Dependencies" content)
  ∧ new_testing f = unless_marked (field_value "Testing" content)
  ∧ new_db f = match field_value "Storage" content with
               | Some v => if str_in "N/A" v then [] else unless_marked (Some v)
               | None => []
               end
  ∧ new_project_type f = match field_value "Project Type" content with
                         | Some v => strip v
                         | None => []
                         end.
Proof.
  unfold extract_fields. cbn [new_lang new_framework new_testing new_db new_project_type].
  rewrite !search_field_refines by done.
  unfold unless_marked. split_and!.
  - destruct (field_value "Language/Version" content) as [v|]; [| done].
    by destruct (str_in needs_clarification v).
  - destruct (field_value "Primary Dependencies" content) as [v|]; [| done].
    by destruct (str_in needs_clarification v).
  - destruct (field_value "Testing" content) as [v|]; [| done].
    by destruct (str_in needs_clarification v).
  - destruct (field_value "Storage" content) as [v|]; [| done].
    by destruct (str_in "N/A" v), (str_in needs_clarification v).
  - done.
Qed.

(** C9 as stated fails for Project Type: its value contains the marker
    and is kept. *)
Lemma project_type_keeps_marked_value :
  field_value "Project Type" plan_marked_type = Some "web NEEDS CLARIFICATION"
  ∧ str_in needs_clarification "web NEEDS CLARIFICATION" = true
  ∧ new_project_type (extract_fields plan_marked_type) = "web NEEDS CLARIFICATION"
  ∧ new_project_type (extract_fields plan_marked_type) ≠ [].
Proof. vm_compute. done. Qed.

(** ** The theorems at sample inputs *)

Lemma pair_from_fst {A B} (x : A * B) (a : A) : x.1 = a → x = (a, x.2).
Proof. destruct x. simpl. by intros ->. Qed.

Lemma create_new_feature_names_the_feature_witness :
  strip "User Auth System!!" ≠ []
  ∧ (FeatureManager.create_new_feature sample_env "User Auth System!!" sample_world).1
    = Ok {| feature_name := "004-user-auth-system";
            feature_dir := "/work/app/specs/004-user-auth-system";
            feature_num := "004" |}.
Proof.
  split; [discriminate |].
  pose (fs1 := (makedirs "/work/app/specs" sample_fs).2).
  pose (fs2 := (makedirs "/work/app/specs/004-user-auth-system" fs1).2).
  pose (fs3 := <[("/work/app/spec-kit.json" : str) :=
                   File (sample_json_dump
                           (<[("current_feature" : str) :=
                                Some ("004-user-auth-system" : str)]> sample_config))]> fs2).
  pose proof (create_new_feature_names_the_feature sample_env
                "User Auth System!!" sample_world fs1 fs2 fs3) as H.
  cbv zeta in H.
  destruct H as [H _].
  - discriminate.
  - reflexivity.
  - reflexivity.
  - reflexivity.
  - rewrite H. reflexivity.
Defined.

Lemma feature_numbered_1000_or_more_is_rejected_witness :
  (1000 <= int_of_digits "1000")%N
  ∧ (FeatureManager.create_new_feature sample_env "Big" world_999).1
    = Ok {| feature_name := "1000-big";
            feature_dir := "/work/app/specs/1000-big";
            feature_num := "1000" |}
  ∧ match_feature_prefix "1000-big" = false
  ∧ (SpecKit.setup_plan sample_env false
       (FeatureManager.create_new_feature sample_env "Big" world_999).2).1
    = Raise (SystemExit 1).
Proof.
  pose (r := {| feature_name := "1000-big" : str;
                feature_dir := "/work/app/specs/1000-big" : str;
                feature_num := "1000" : str |}).
  pose (w' := (FeatureManager.create_new_feature sample_env "Big" world_999).2).
  assert (Hfst : (FeatureManager.create_new_feature sample_env "Big" world_999).1
                 = Ok r) by (vm_compute; reflexivity).
  pose proof (pair_from_fst _ _ Hfst) as Hcreate. fold w' in Hcreate.
  assert (Hn : (1000 <= int_of_digits (feature_num r))%N) by (vm_compute; discriminate).
  pose proof (feature_numbered_1000_or_more_is_rejected sample_env "Big" false
                world_999 w' r Hcreate Hn) as H.
  split_and!.
  - exact Hn.
  - exact Hfst.
  - apply H.
  - apply H.
Defined.

Lemma create_new_feature_rejects_blank_description_witness :
  strip "   " = []
  ∧ FeatureManager.create_new_feature sample_env "   " sample_world
    = (Raise (ValueError "Feature description cannot be empty"), sample_world).
Proof.
  split; [reflexivity |].
  apply (create_new_feature_rejects_blank_description sample_env "   " false
           sample_world).
  reflexivity.
Defined.

Lemma set_current_feature_rejects_bad_name_witness :
  match_feature_prefix "x-y" = false
  ∧ ∃ w', SpecKit.set_current_feature sample_env "x-y" sample_world
          = (Raise (SystemExit 1), w')
          ∧ config w' = sample_config.
Proof.
  split; [reflexivity |].
  destruct (set_current_feature_rejects_bad_name sample_env "x-y" sample_world)
    as (w' & Hrun & _ & Hcfg & _).
  - left. reflexivity.
  - exists w'. split; [exact Hrun | exact Hcfg].
Defined.

Lemma copy_template_result_witness :
  (FileManager.copy_template sample_env "plan-template.md"
     "/work/app/specs/003-b/plan.md" world_with_template).1 = Ok true
  ∧ isfile (fs (FileManager.copy_template sample_env "plan-template.md"
                  "/work/app/specs/003-b/plan.md" world_with_template).2)
      "/work/app/specs/003-b/plan.md" = true.
Proof.
  destruct (copy_template_result sample_env "plan-template.md"
              "/work/app/specs/003-b/plan.md" world_with_template)
    as (w' & <- & Hcase & Hfile & _).
  - vm_compute. reflexivity.
  - vm_compute. reflexivity.
  - discriminate.
  - split; [| exact Hfile].
    assert (Htemplate : fs world_with_template
              !! path_join (project_root sample_env) ["templates"; "plan-template.md"]
              = Some (File "# Plan")) by (vm_compute; reflexivity).
    rewrite Htemplate in Hcase. apply Hcase.
Defined.

(** C7 as stated fails where the target is there and the template is
    not: the target keeps its content and is not an empty file. *)
Lemma copy_template_keeps_existing_target :
  isfile (fs world_with_plan) "/work/app/templates/plan-template.md" = false
  ∧ (FileManager.copy_template sample_env "plan-template.md"
       "/work/app/specs/003-b/plan.md" world_with_plan).1 = Ok false
  ∧ fs (FileManager.copy_template sample_env "plan-template.md"
          "/work/app/specs/003-b/plan.md" world_with_plan).2
      !! ("/work/app/specs/003-b/plan.md" : str) = Some (File "# My plan")
  ∧ fs (FileManager.copy_template sample_env "plan-template.md"
          "/work/app/specs/003-b/plan.md" world_with_plan).2
      !! ("/work/app/specs/003-b/plan.md" : str) ≠ Some (File []).
Proof. vm_compute. split_and!; try reflexivity. discriminate. Qed.

(** ** Scanning *)

Section ScanFacts.
Context {A : Type} (f : str → option A).

Lemma scan_Some s pre a :
  scan f s = Some (pre, a) →
  ∃ rest, s = pre ++ rest ∧ f rest = Some a
          ∧ ∀ i, i < length pre → f (drop i s) = None.
Proof.
  revert pre. induction s as [|c s IH]; intros pre; cbn [scan].
  - destruct (f []) eqn:Hf; [| done]. intros [= <- <-].
    exists []. split_and!; [done | done |]. intros i Hi. simpl in Hi. lia.
  - destruct (f (c :: s)) eqn:Hf.
    + intros [= <- <-]. exists (c :: s).
      split_and!; [done | done |]. intros i Hi. simpl in Hi. lia.
    + destruct (scan f s) as [[pre' a']|] eqn:Hs; [| done].
      intros [= <- <-]. destruct (IH _ eq_refl) as (rest & -> & Hrest & Hmin).
      exists rest. split_and!; [done | done |].
      intros [|i] Hi; [done |]. cbn [drop]. apply Hmin. simpl in Hi. lia.
Qed.

Lemma scan_intro pre rest a :
  f rest = Some a →
  (∀ i, i < length pre → f (drop i (pre ++ rest)) = None) →
  scan f (pre ++ rest) = Some (pre, a).
Proof.
  intros Hf. induction pre as [|c pre IH]; intros Hmin.
  - cbn [app]. destruct rest; cbn [scan]; by rewrite Hf.
  - pose proof (Hmin 0 ltac:(simpl; lia)) as H0. cbn [drop app] in H0.
    cbn [app scan]. rewrite H0.
    rewrite IH; [done |]. intros i Hi. apply (Hmin (S i)). simpl. lia.
Qed.

Lemma scan_None s i :
  scan f s = None → i ≤ length s → f (drop i s) = None.
Proof.
  revert i. induction s as [|c s IH]; intros i; cbn [scan].
  - destruct (f []) eqn:Hf; [done |]. intros _ Hi.
    by rewrite drop_nil.
  - destruct (f (c :: s)) eqn:Hf; [done |].
    destruct (scan f s) as [[pre a]|] eqn:Hs; [done |]. intros _ Hi.
    destruct i as [|i]; [done |]. cbn [drop]. apply IH; [done |].
    simpl in Hi. lia.
Qed.

Lemma scan_is_Some s i :
  i ≤ length s → is_Some (f (drop i s)) → is_Some (scan f s).
Proof.
  intros Hi [a Ha]. destruct (scan f s) eqn:Hs; [by eexists |].
  rewrite (scan_None s i Hs Hi) in Ha. done.
Qed.

End ScanFacts.

Lemma scan_ext {A} (f g : str → option A) s :
  (∀ x, f x = g x) → scan f s = scan g s.
Proof.
  intros Hfg. induction s as [|c s IH]; cbn [scan]; rewrite Hfg; [done |].
  by rewrite IH.
Qed.

Lemma scan_fmap {A B} (f : str → option A) (g : A → B) s :
  scan (λ x, g <$> f x) s = (λ r, (r.1, g r.2)) <$> scan f s.
Proof.
  induction s as [|c s IH]; cbn [scan].
  - by destruct (f []).
  - destruct (f (c :: s)); [done |]. cbn. rewrite IH.
    by destruct (scan f s) as [[pre a]|].
Qed.

(** ** Matchers *)

Lemma term_lit_Some t s tm rest :
  term_lit t s = Some (tm, rest) ↔ tm = t ∧ s = t ++ rest.
Proof.
  unfold term_lit. destruct (lit t s) as [r|] eqn:Hl.
  - apply lit_Some in Hl as ->. split.
    + by intros [= <- <-].
    + intros [-> Heq]. by apply app_inv_head in Heq as ->.
  - split; [done |]. intros [-> ->]. by rewrite lit_app in Hl.
Qed.

Lemma lazy_between_Some h t s g tm rest :
  lazy_between h t s = Some (g, tm, rest) ↔
  ∃ s1, s = h ++ s1 ∧ scan t s1 = Some (g, (tm, rest)).
Proof.
  unfold lazy_between. destruct (lit h s) as [s1|] eqn:Hl.
  - apply lit_Some in Hl as ->. split.
    + destruct (scan t s1) as [[g' [tm' rest']]|] eqn:Hs; [| done].
      intros [= <- <- <-]. by exists s1.
    + intros (s1' & Heq & Hs). apply app_inv_head in Heq as <-. by rewrite Hs.
  - split; [done |]. intros (s1 & -> & _). by rewrite lit_app in Hl.
Qed.

Lemma m_inner_fmap h t s :
  m_inner h t s = (λ r, ([r.1.1], r.2)) <$> lazy_between h t s.
Proof. unfold m_inner. by destruct (lazy_between h t s) as [[[g tm] rest]|]. Qed.

Lemma m_inner_term_fmap h t s :
  m_inner_term h t s = (λ r, ([r.1.1; r.1.2], r.2)) <$> lazy_between h t s.
Proof. unfold m_inner_term. by destruct (lazy_between h t s) as [[[g tm] rest]|]. Qed.

Lemma m_outer_fmap h t s :
  m_outer h t s = (λ r, ([h; r.1.2], r.2)) <$> lazy_between h t s.
Proof. unfold m_outer. by destruct (lazy_between h t s) as [[[g tm] rest]|]. Qed.

(** The three patterns on one header and terminator match at the same
    place. *)
Lemma search_between h t s :
  re_search (m_inner h t) s
  = (λ r, (r.1, ([r.2.1.1], r.2.2))) <$> scan (lazy_between h t) s
  ∧ re_search (m_inner_term h t) s
    = (λ r, (r.1, ([r.2.1.1; r.2.1.2], r.2.2))) <$> scan (lazy_between h t) s
  ∧ re_search (m_outer h t) s
    = (λ r, (r.1, ([h; r.2.1.2], r.2.2))) <$> scan (lazy_between h t) s.
Proof.
  unfold re_search. split_and!.
  - rewrite (scan_ext _ _ s (m_inner_fmap h t)), scan_fmap.
    by destruct (scan (lazy_between h t) s) as [[pre [[g tm] rest]]|].
  - rewrite (scan_ext _ _ s (m_inner_term_fmap h t)), scan_fmap.
    by destruct (scan (lazy_between h t) s) as [[pre [[g tm] rest]]|].
  - rewrite (scan_ext _ _ s (m_outer_fmap h t)), scan_fmap.
    by destruct (scan (lazy_between h t) s) as [[pre [[g tm] rest]]|].
Qed.

(** ** Replacement templates *)

Lemma tokenize_plain text rest :
  no_backslash text = true →
  tokenize (text ++ rest) = (map Ch text ++.) <$> tokenize rest.
Proof.
  intros Hplain. induction text as [|c text IH]; cbn [app map].
  - by destruct (tokenize rest).
  - cbn [no_backslash forallb] in Hplain.
    apply andb_true_iff in Hplain as [Hc Hplain].
    cbn [tokenize]. apply negb_true_iff in Hc. rewrite Hc, (IH Hplain).
    by destruct (tokenize rest).
Qed.


Lemma parse_plain groups text tail n :
  parse_tokens (length text + n) groups (map Ch text ++ tail)
  = (map (λ c, Lit [c]) text ++.) <$> parse_tokens n groups tail.
Proof.
  induction text as [|c text IH]; cbn [length map app Nat.add].
  - by destruct (parse_tokens n groups tail).
  - cbn [parse_tokens]. rewrite IH. unfold add_lit.
    by destruct (parse_tokens n groups tail).
Qed.



(** ** Substitution *)






Lemma sub_loop_fuel m items n1 n2 s :
  consuming m → length s < n1 → length s < n2 →
  sub_loop m items n1 s = sub_loop m items n2 s.
Proof.
  intros Hm. revert n2 s. induction n1 as [|n1 IH]; intros n2 s H1 H2; [lia |].
  destruct n2 as [|n2]; [lia |]. cbn [sub_loop].
  destruct (re_search m s) as [[pre [gs rest]]|] eqn:Hs; [| done].
  apply scan_Some in Hs as (r & -> & Hr & _). apply Hm in Hr.
  rewrite length_app in H1, H2. do 2 f_equal. apply IH; lia.
Qed.


(** ** Recent changes *)




(** ** Searching a delimited section *)

Lemma starts_with_drop_app p a x y i :
  i + length p ≤ length a →
  starts_with p (drop i (a ++ x)) = starts_with p (drop i (a ++ y)).
Proof.
  revert a i. induction p as [|c p IH]; intros a i Hi; [by destruct (drop i _), (drop i _) |].
  cbn [length] in Hi.
  rewrite !drop_app_le by lia.
  destruct (drop i a) as [|d a'] eqn:Hd.
  { apply (f_equal length) in Hd. rewrite length_drop in Hd. simpl in Hd. lia. }
  cbn [app starts_with]. f_equal.
  apply (f_equal length) in Hd. rewrite length_drop in Hd. cbn [length] in Hd.
  specialize (IH a' 0). cbn [drop] in IH. apply IH. lia.
Qed.

Lemma starts_with_app_l p q s :
  starts_with (p ++ q) s = true → starts_with p s = true.
Proof.
  intros [r ->]%starts_with_prefix. rewrite <- app_assoc. apply starts_with_app.
Qed.

Lemma starts_with_false_app_l p q s :
  starts_with p s = false → starts_with (p ++ q) s = false.
Proof.
  intros Hp. destruct (starts_with (p ++ q) s) eqn:Hpq; [| done].
  apply starts_with_app_l in Hpq. congruence.
Qed.

Lemma consumed_app x rest : consumed (x ++ rest) rest = x.
Proof.
  unfold consumed. rewrite length_app.
  replace (length x + length rest - length rest) with (length x) by lia.
  by rewrite take_app_length.
Qed.

Lemma scan_lit_Some t s g tm rest :
  scan (term_lit t) s = Some (g, (tm, rest)) →
  tm = t ∧ s = g ++ t ++ rest
  ∧ ∀ j, j < length g → starts_with t (drop j (g ++ t ++ rest)) = false.
Proof.
  intros (s2 & -> & [-> ->]%term_lit_Some & Hmin)%scan_Some.
  split_and!; [done | done |]. intros j Hj. specialize (Hmin j Hj).
  unfold term_lit in Hmin. destruct (lit t _) eqn:Hl; [done |].
  by apply lit_None in Hl.
Qed.

Lemma scan_lit_intro t g rest :
  (∀ j, j < length g → starts_with t (drop j (g ++ t ++ rest)) = false) →
  scan (term_lit t) (g ++ t ++ rest) = Some (g, (t, rest)).
Proof.
  intros Hmin. apply scan_intro.
  - by apply term_lit_Some.
  - intros j Hj. unfold term_lit. specialize (Hmin j Hj).
    apply lit_None in Hmin. by rewrite Hmin.
Qed.

(** What a match of [h(.*?)t] says about the subject: no [h] starts
    before it, and no [t] starts inside the group. *)
Lemma search_inner_lit_Some h t s pre g rest :
  re_search (m_inner h (term_lit t)) s = Some (pre, ([g], rest)) →
  s = pre ++ h ++ g ++ t ++ rest
  ∧ (∀ i, i < length pre → starts_with h (drop i s) = false)
  ∧ (∀ j, j < length g → starts_with t (drop j (g ++ t ++ rest)) = false)
  ∧ re_search (m_outer h (term_lit t)) s = Some (pre, ([h; t], rest)).
Proof.
  intros Hs.
  destruct (search_between h (term_lit t) s) as (Hinner & _ & Houter).
  rewrite Hinner in Hs. rewrite Houter.
  destruct (scan _ s) as [[pre' [[g' tm'] rest']]|] eqn:Hscan; [| done].
  cbn in Hs. injection Hs as <- <- <-.
  apply scan_Some in Hscan as (s' & -> & Hl & Hmin).
  apply lazy_between_Some in Hl as (s1 & -> & Hs1).
  apply scan_lit_Some in Hs1 as (-> & -> & Hg).
  split_and!; [done | | done | done].
  intros i Hi. specialize (Hmin i Hi).
  destruct (starts_with h (drop i (pre' ++ h ++ g' ++ t ++ rest'))) eqn:Hh; [| done].
  apply starts_with_prefix in Hh as [r Hr].
  unfold lazy_between in Hmin. rewrite Hr, lit_app in Hmin.
  assert (Hsome : is_Some (scan (term_lit t) r)).
  { assert (Hlen : length r = length pre' - i + length (g' ++ t ++ rest')).
    { apply (f_equal length) in Hr.
      rewrite length_drop, !length_app in Hr. rewrite !length_app. lia. }
    apply (scan_is_Some _ r (length pre' - i + length g')).
    - rewrite Hlen, !length_app. lia.
    - assert (drop (length pre' - i + length g') r = t ++ rest') as ->.
      { assert (r = drop (i + length h) (pre' ++ h ++ g' ++ t ++ rest')) as ->.
        { rewrite <- drop_drop, Hr. by rewrite drop_app_length. }
        rewrite drop_drop.
        replace (i + length h + (length pre' - i + length g'))
          with (length (pre' ++ h ++ g')) by (rewrite !length_app; lia).
        replace (pre' ++ h ++ g' ++ t ++ rest')
          with ((pre' ++ h ++ g') ++ t ++ rest') by (by rewrite <- !app_assoc).
        by rewrite drop_app_length. }
      exists (t, rest'). by apply term_lit_Some. }
  destruct Hsome as [[g2 [tm2 rest2]] Hsome]. by rewrite Hsome in Hmin.
Qed.

Lemma search_inner_lit_intro h t pre g rest :
  (∀ i, i < length pre →
        starts_with h (drop i (pre ++ h ++ g ++ t ++ rest)) = false) →
  (∀ j, j < length g → starts_with t (drop j (g ++ t ++ rest)) = false) →
  re_search (m_inner h (term_lit t)) (pre ++ h ++ g ++ t ++ rest)
  = Some (pre, ([g], rest)).
Proof.
  intros Hpre Hg. unfold re_search. apply scan_intro.
  - unfold m_inner, lazy_between. rewrite lit_app.
    by rewrite (scan_lit_intro t g rest Hg).
  - intros i Hi. unfold m_inner, lazy_between.
    specialize (Hpre i Hi). apply lit_None in Hpre. by rewrite Hpre.
Qed.

(** A section that is rewritten between its header and its terminator is
    found again at the same place. *)
Lemma search_inner_lit_stable h t s pre g rest g' rest' :
  re_search (m_inner h (term_lit t)) s = Some (pre, ([g], rest)) →
  (∀ j, j < length g' → starts_with t (drop j (g' ++ t ++ rest')) = false) →
  re_search (m_inner h (term_lit t)) (pre ++ h ++ g' ++ t ++ rest')
  = Some (pre, ([g'], rest')).
Proof.
  intros (-> & Hpre & _ & _)%search_inner_lit_Some Hg'.
  apply search_inner_lit_intro; [| done].
  intros i Hi. rewrite <- (Hpre i Hi).
  rewrite !(app_assoc pre h). apply starts_with_drop_app.
  rewrite length_app. lia.
Qed.

(** ** The project structure *)





(** ** Substrings and replacement *)

Lemma str_in_true p s : str_in p s = true ↔ ∃ a b, s = a ++ p ++ b.
Proof.
  unfold str_in. split.
  - destruct (scan (lit p) s) as [[pre rest]|] eqn:Hs; [| done]. intros _.
    apply scan_Some in Hs as (s' & -> & ->%lit_Some & _). by exists pre, rest.
  - intros (a & b & ->).
    destruct (scan_is_Some (lit p) (a ++ p ++ b) (length a)) as [r ->]; [| | done].
    + rewrite length_app. lia.
    + rewrite drop_app_length, lit_app. by eexists.
Qed.

Lemma str_in_app_l p s x : str_in p s = true → str_in p (s ++ x) = true.
Proof.
  intros (a & b & ->)%str_in_true. apply str_in_true.
  exists a, (b ++ x). by rewrite <- !app_assoc.
Qed.

Lemma str_in_app_r p s x : str_in p s = true → str_in p (x ++ s) = true.
Proof.
  intros (a & b & ->)%str_in_true. apply str_in_true.
  exists (x ++ a), b. by rewrite <- !app_assoc.
Qed.

Lemma str_in_refl_app p a b : str_in p (a ++ p ++ b) = true.
Proof. apply str_in_true. by exists a, b. Qed.

Lemma str_replace_first old new s pre rest :
  old ≠ [] →
  scan (lit old) s = Some (pre, rest) →
  str_replace old new s = pre ++ new ++ replace_loop old new (length s) rest.
Proof.
  intros Hold Hs. unfold str_replace. destruct old as [|c old]; [done |].
  cbn [replace_loop]. by rewrite Hs.
Qed.

(** ** Blank lines *)

Lemma eqc_sym a b : eqc a b = eqc b a.
Proof.
  destruct (eqc a b) eqn:Hab.
  - apply eqc_eq in Hab as ->. by rewrite eqc_refl.
  - symmetry. apply eqc_neq. apply eqc_neq in Hab. congruence.
Qed.

Lemma starts_with_blank s :
  starts_with blank s
  = match s with c :: d :: _ => eqc c nl && eqc d nl | _ => false end.
Proof.
  unfold blank. destruct s as [|c [|d s]]; cbn [starts_with]; [done | |].
  - by rewrite andb_false_r.
  - by rewrite andb_true_r, (eqc_sym nl c), (eqc_sym nl d).
Qed.

Lemma no_blank_line_iff x r :
  (∀ j, j < length x → starts_with blank (drop j (x ++ blank ++ r)) = false)
  ↔ no_blank_line x = true.
Proof.
  induction x as [|c x IH]; cbn [no_blank_line].
  - split; [done |]. intros _ j Hj. simpl in Hj. lia.
  - rewrite andb_true_iff, <- IH. split.
    + intros H. split.
      * specialize (H 0 ltac:(simpl; lia)). cbn [drop app] in H.
        rewrite starts_with_blank in H.
        destruct x as [|d x]; cbn [app blank] in H.
        -- rewrite eqc_refl in H. by rewrite H.
        -- by rewrite H.
      * intros j Hj. apply (H (S j)). simpl. lia.
    + intros [Hc Hx] [|j] Hj.
      * cbn [drop app]. rewrite starts_with_blank.
        destruct x as [|d x]; cbn [app blank].
        -- rewrite eqc_refl. apply negb_true_iff in Hc. exact Hc.
        -- apply negb_true_iff in Hc. exact Hc.
      * cbn [drop app]. apply Hx. simpl in Hj. lia.
Qed.

Lemma no_blank_line_app x c y :
  no_blank_line x = true → eqc c nl = false →
  no_blank_line (c :: y) = true →
  no_blank_line (x ++ nl :: c :: y) = true.
Proof.
  intros Hx Hc Hy. induction x as [|a x IH].
  - cbn [app].
    change (no_blank_line (nl :: c :: y))
      with (negb (eqc nl nl && eqc c nl) && no_blank_line (c :: y)).
    rewrite Hc, Hy. by rewrite andb_false_r.
  - cbn [app]. cbn [no_blank_line] in Hx |- *.
    apply andb_true_iff in Hx as [Ha Hx].
    rewrite (IH Hx), andb_true_r.
    destruct x as [|d x]; cbn [app]; [| done].
    rewrite andb_true_r in Ha. apply negb_true_iff in Ha.
    by rewrite Ha.
Qed.

Lemma no_blank_line_plain y : forallb not_nl y = true → no_blank_line y = true.
Proof.
  induction y as [|c y IH]; [done |]. cbn [forallb no_blank_line].
  intros [Hc Hy]%andb_true_iff. rewrite (IH Hy), andb_true_r.
  unfold not_nl in Hc. apply negb_true_iff in Hc. by rewrite Hc.
Qed.

(** ** Field values hold no line feed *)

Lemma take_while_forallb p s : forallb p (take_while p s) = true.
Proof.
  induction s as [|c s IH]; [done |]. cbn [take_while].
  destruct (p c) eqn:Hc; [| done]. cbn [forallb]. by rewrite Hc, IH.
Qed.

Lemma drop_while_In p s c : In c (drop_while p s) → In c s.
Proof.
  induction s as [|d s IH]; [done |]. cbn [drop_while].
  destruct (p d); [| done]. intros H. right. by apply IH.
Qed.

Lemma strip_forallb p s : forallb p s = true → forallb p (strip s) = true.
Proof.
  rewrite !forallb_forall. intros H c Hc. apply H.
  unfold strip, strip_with in Hc.
  apply in_rev, drop_while_In, in_rev, drop_while_In in Hc. done.
Qed.

Lemma search_field_from_no_nl name content v b :
  search_field_from name b content = Some v → forallb not_nl v = true.
Proof.
  revert v b.
  induction content as [|c s IH]; intros v b; cbn [search_field_from].
  - destruct b; [| done]. unfold m_field.
    destruct (lit _ []) as [rest|]; [| done].
    pose proof (take_while_forallb not_nl rest) as Ht.
    destruct (take_while not_nl rest); [done |]. by intros [= <-].
  - destruct (if b then m_field name (c :: s) else None) as [v'|] eqn:Hm.
    + intros [= <-]. destruct b; [| done]. unfold m_field in Hm.
      destruct (lit _ (c :: s)) as [rest|]; [| done].
      pose proof (take_while_forallb not_nl rest) as Ht.
      destruct (take_while not_nl rest); [done |]. by injection Hm as <-.
    + apply IH.
Qed.

Lemma search_field_no_nl name content v :
  search_field name content = Some v → forallb not_nl v = true.
Proof. apply search_field_from_no_nl. Qed.

Lemma extract_fields_no_nl content :
  forallb not_nl (new_lang (extract_fields content)) = true
  ∧ forallb not_nl (new_framework (extract_fields content)) = true
  ∧ forallb not_nl (new_db (extract_fields content)) = true.
Proof.
  unfold extract_fields. cbn [new_lang new_framework new_db].
  split_and!.
  - destruct (search_field "Language/Version" content) as [v|] eqn:Hv; [| done].
    destruct (negb _); [| done]. by eapply strip_forallb, search_field_no_nl.
  - destruct (search_field "Primary Dependencies" content) as [v|] eqn:Hv; [| done].
    destruct (negb _); [| done]. by eapply strip_forallb, search_field_no_nl.
  - destruct (search_field "Storage" content) as [v|] eqn:Hv; [| done].
    destruct (_ && _); [| done]. by eapply strip_forallb, search_field_no_nl.
Qed.

(** ** The active technologies *)

Section TechFacts.
Variable f : plan_fields.
Variable current_feature : str.
Hypothesis lang_no_nl : forallb not_nl (new_lang f) = true.
Hypothesis framework_no_nl : forallb not_nl (new_framework f) = true.
Hypothesis db_no_nl : forallb not_nl (new_db f) = true.
Hypothesis feature_no_nl : forallb not_nl current_feature = true.

Lemma tech_line_plain : forallb not_nl (tech_line f current_feature) = true.
Proof.
  unfold tech_line.
  by rewrite !forallb_app, lang_no_nl, framework_no_nl, feature_no_nl.
Qed.

Lemma db_line_plain : forallb not_nl (db_line f current_feature) = true.
Proof.
  unfold db_line. by rewrite !forallb_app, db_no_nl, feature_no_nl.
Qed.

(** The lines that are added: they start with a hyphen, hold no blank
    line, and hold the language and the storage that were missing. *)
Lemma additions_shape g :
  new_additions f current_feature g ≠ [] →
  ∃ y, join [nl] (new_additions f current_feature g) = "-"%char :: y
       ∧ no_blank_line ("-"%char :: y) = true
       ∧ (nonempty (new_lang f) = true → str_in (new_lang f) g = false →
          str_in (new_lang f) ("-"%char :: y) = true)
       ∧ (nonempty (new_db f) = true → str_eqb (new_db f) "N/A" = false →
          str_in (new_db f) g = false →
          str_in (new_db f) ("-"%char :: y) = true).
Proof.
  pose proof tech_line_plain as Ht. pose proof db_line_plain as Hd.
  assert (Hlang : ∀ z, str_in (new_lang f) (tech_line f current_feature ++ z) = true).
  { intros z. unfold tech_line. rewrite <- !app_assoc.
    apply (str_in_refl_app (new_lang f) "- "). }
  assert (Hdb : ∀ z, str_in (new_db f) (z ++ db_line f current_feature) = true).
  { intros z. unfold db_line. rewrite app_assoc.
    apply (str_in_refl_app (new_db f)). }
  assert (Ht_cons : ∃ y, tech_line f current_feature = "-"%char :: y)
    by by eexists.
  assert (Hd_cons : ∃ y, db_line f current_feature = "-"%char :: y)
    by by eexists.
  destruct Ht_cons as [yt Hyt]. destruct Hd_cons as [yd Hyd].
  unfold new_additions.
  destruct (nonempty (new_lang f) && negb (str_in (new_lang f) g)) eqn:H1;
    destruct (nonempty (new_db f) && negb (str_in (new_db f) g)
              && negb (str_eqb (new_db f) "N/A")) eqn:H2;
    cbn [app join]; intros Hne; [| | | done].
  - exists (yt ++ [nl] ++ db_line f current_feature).
    change ("-"%char :: yt ++ [nl] ++ db_line f current_feature)
      with (("-"%char :: yt) ++ [nl] ++ db_line f current_feature).
    rewrite <- Hyt. split; [done |]. split_and!.
    + rewrite Hyd. apply (no_blank_line_app (tech_line f current_feature) "-" yd);
        [| done |].
      * by apply no_blank_line_plain.
      * rewrite <- Hyd. by apply no_blank_line_plain.
    + intros _ _. apply (Hlang ([nl] ++ db_line f current_feature)).
    + intros _ _ _. rewrite app_assoc. apply Hdb.
  - exists yt. rewrite <- Hyt. split; [done |]. split_and!.
    + by apply no_blank_line_plain.
    + intros _ _. rewrite <- (app_nil_r (tech_line f current_feature)). apply Hlang.
    + intros Hn He Hg. by rewrite Hn, He, Hg in H2.
  - exists yd. rewrite <- Hyd. split; [done |]. split_and!.
    + by apply no_blank_line_plain.
    + intros Hn Hg. by rewrite Hn, Hg in H1.
    + intros _ _ _. apply (Hdb []).
Qed.

Lemma additions_covered g y :
  (nonempty (new_lang f) = true → str_in (new_lang f) g = false →
   str_in (new_lang f) y = true) →
  (nonempty (new_db f) = true → str_eqb (new_db f) "N/A" = false →
   str_in (new_db f) g = false → str_in (new_db f) y = true) →
  new_additions f current_feature (g ++ [nl] ++ y) = [].
Proof.
  intros Hlang Hdb. unfold new_additions.
  assert (nonempty (new_lang f)
          && negb (str_in (new_lang f) (g ++ [nl] ++ y)) = false) as ->.
  { destruct (nonempty (new_lang f)) eqn:Hn; [| done]. cbn [andb].
    apply negb_false_iff.
    destruct (str_in (new_lang f) g) eqn:Hg.
    - by apply str_in_app_l.
    - rewrite app_assoc. apply str_in_app_r. by apply Hlang. }
  assert (nonempty (new_db f)
          && negb (str_in (new_db f) (g ++ [nl] ++ y))
          && negb (str_eqb (new_db f) "N/A") = false) as ->; [| done].
  destruct (nonempty (new_db f)) eqn:Hn; [| done]. cbn [andb].
  destruct (str_eqb (new_db f) "N/A") eqn:He; [by rewrite andb_false_r |].
  rewrite andb_true_r. apply negb_false_iff.
  destruct (str_in (new_db f) g) eqn:Hg.
  - by apply str_in_app_l.
  - rewrite app_assoc. apply str_in_app_r. by apply Hdb.
Qed.

Lemma patch_tech_idempotent_fields content :
  patch_tech f current_feature (patch_tech f current_feature content)
  = patch_tech f current_feature content.
Proof.
  assert (Hfix : ∀ c, patch_tech f current_feature c = c →
            patch_tech f current_feature (patch_tech f current_feature c)
            = patch_tech f current_feature c) by (intros c Hc; by rewrite !Hc).
  destruct (re_search (m_inner tech_header (term_lit blank)) content)
    as [[pre [gs rest]]|] eqn:Hs;
    [| apply Hfix; unfold patch_tech; by rewrite Hs].
  assert (∃ g, gs = [g]) as [g ->].
  { destruct (search_between tech_header (term_lit blank) content) as (Hi & _).
    rewrite Hi in Hs. destruct (scan _ content) as [[? [[? ?] ?]]|]; [| done].
    cbn in Hs. injection Hs as <- <- <-. by eexists. }
  destruct (new_additions f current_feature g) as [|a adds] eqn:Hadds;
    [apply Hfix; unfold patch_tech; by rewrite Hs, Hadds |].
  destruct (additions_shape g) as (y & Hjoin & Hblank & Hlang & Hdb);
    [by rewrite Hadds |].
  rewrite Hadds in Hjoin.
  destruct (search_inner_lit_Some _ _ _ _ _ _ Hs) as (Hcontent & Hpre & Hg & _).
  assert (Hpatched : patch_tech f current_feature content
            = pre ++ tech_header ++ (g ++ [nl] ++ "-"%char :: y) ++ blank
              ++ replace_loop (tech_header ++ g ++ blank)
                   (tech_header ++ (g ++ [nl] ++ "-"%char :: y) ++ blank)
                   (length content) rest).
  { unfold patch_tech. rewrite Hs, Hadds, Hjoin.
    assert (Hgroup : consumed (drop (length pre) content) rest
                     = tech_header ++ g ++ blank).
    { rewrite Hcontent, drop_app_length.
      replace (tech_header ++ g ++ blank ++ rest)
        with ((tech_header ++ g ++ blank) ++ rest) by (by rewrite <- !app_assoc).
      apply consumed_app. }
    rewrite Hgroup.
    rewrite (str_replace_first _ _ content pre rest); [by rewrite <- !app_assoc | done |].
    rewrite Hcontent at 1.
    replace (pre ++ tech_header ++ g ++ blank ++ rest)
      with (pre ++ (tech_header ++ g ++ blank) ++ rest) by (by rewrite <- !app_assoc).
    apply scan_intro; [apply lit_app |].
    intros i Hi. apply lit_None. apply starts_with_false_app_l.
    rewrite <- (Hpre i Hi), Hcontent. by rewrite <- !app_assoc. }
  rewrite Hpatched.
  remember (replace_loop (tech_header ++ g ++ blank)
              (tech_header ++ (g ++ [nl] ++ "-"%char :: y) ++ blank)
              (length content) rest) as rest' eqn:Hrest'.
  assert (Hs' : re_search (m_inner tech_header (term_lit blank))
                  (pre ++ tech_header ++ (g ++ [nl] ++ "-"%char :: y)
                       ++ blank ++ rest')
                = Some (pre, ([g ++ [nl] ++ "-"%char :: y], rest'))).
  { apply (search_inner_lit_stable _ _ _ _ _ _ _ _ Hs).
    apply no_blank_line_iff.
    apply (no_blank_line_app g "-" y); [| done | done].
    by apply (no_blank_line_iff g rest). }
  unfold patch_tech. rewrite Hs'.
  by rewrite (additions_covered g ("-"%char :: y)).
Qed.

End TechFacts.

(** ** Patching twice *)

(** C1, amended.  For every plan, every context file and every current
    feature name without a line feed, the Active Technologies step of the
    patch adds the technology line only when the language is not in the
    section, and the storage line only when the storage is not in it: a
    section that holds both is left as it is, and the step applied to its
    own result with the same plan changes nothing, so no technology or
    storage line is appended twice. *)
Theorem technology_step_is_idempotent
    (plan current_feature content : str) :
  forallb not_nl current_feature = true →
  let f := extract_fields plan in
  patch_tech f current_feature (patch_tech f current_feature content)
  = patch_tech f current_feature content
  ∧ ∀ pre g rest,
      re_search (m_inner tech_header (term_lit blank)) content
      = Some (pre, ([g], rest)) →
      (nonempty (new_lang f) = true → str_in (new_lang f) g = true) →
      (nonempty (new_db f) = true → str_in (new_db f) g = true) →
      patch_tech f current_feature content = content.
Proof.
  intros Hfeature f.
  destruct (extract_fields_no_nl plan) as (Hlang & Hframework & Hdb).
  split.
  - by apply patch_tech_idempotent_fields.
  - intros pre g rest Hs Hl Hd. unfold patch_tech. rewrite Hs.
    unfold new_additions.
    destruct (nonempty (new_lang f)); [rewrite Hl by done |];
      destruct (nonempty (new_db f)); [rewrite Hd by done | | rewrite Hd by done |];
      done.
Qed.

Lemma technology_step_is_idempotent_witness :
  forallb not_nl "003-b" = true
  ∧ patch_tech (extract_fields sample_plan) "003-b"
      (patch_tech (extract_fields sample_plan) "003-b" sample_context)
    = patch_tech (extract_fields sample_plan) "003-b" sample_context.
Proof.
  split; [reflexivity |].
  apply (technology_step_is_idempotent sample_plan "003-b" sample_context).
  reflexivity.
Defined.

(** C1 as stated fails: update-agent-context run twice on the same plan
    writes two different files.  After the second run the entry of the
    feature stands twice in Recent Changes and the command line stands
    twice in Commands. *)
Lemma second_patch_changes_the_file :
  (c1 ← claude_md (context_after 1 world_with_context);
   c2 ← claude_md (context_after 2 world_with_context);
   Some (bool_decide (c1 = c2))) = Some false
  ∧ (c2 ← claude_md (context_after 2 world_with_context);
     change_lines
       <$> group1 (re_search (m_inner_term changes_header term_blank_or_end) c2))
    = Some ["- 003-b: Added Python 3.11 + FastAPI";
            "- 003-b: Added Python 3.11 + FastAPI";
            "- 003-b: Added Rust 1.75 + tokio"]
  ∧ (c2 ← claude_md (context_after 2 world_with_context);
     group1 (re_search (m_inner commands_header (term_lit blank)) c2))
    = Some ("cargo test && cargo clippy" ++ [nl]
            ++ "cd src && pytest && ruff check ." ++ [nl]
            ++ "cd src && pytest && ruff check .").
Proof. vm_compute. done. Qed.


(** ** The lines of the rewritten section *)














(** ** The project root *)

Lemma take_while_prefix p s : ∃ r, s = take_while p s ++ r.
Proof.
  induction s as [|c s [r IH]]; cbn [take_while]; [by exists [] |].
  destruct (p c); [| by eexists]. exists r. cbn. by rewrite <- IH.
Qed.

Lemma drop_while_suffix p s : ∃ r, s = r ++ drop_while p s.
Proof.
  induction s as [|c s [r IH]]; cbn [drop_while]; [by exists [] |].
  destruct (p c); [| by exists []]. exists (c :: r). cbn. by rewrite <- IH.
Qed.

(** The directory name is a prefix of the path. *)
Lemma dirname_prefix p : ∃ r, p = dirname p ++ r.
Proof.
  unfold dirname, path_split. cbn [fst].
  set (tail := rev (take_while _ (rev p))).
  set (head := take (length p - length tail) p).
  assert (Hhead : ∃ r, p = head ++ r).
  { exists (drop (length p - length tail) p). subst head.
    by rewrite take_drop. }
  destruct (nonempty head && negb (forallb is_slash head)); [| done].
  destruct Hhead as [r Hr].
  destruct (drop_while_suffix is_slash (rev head)) as [x Hx].
  exists (rev x ++ r). rewrite app_assoc, <- rev_app_distr, <- Hx, rev_involutive.
  done.
Qed.

Lemma dirname_shorter p : dirname p ≠ p → length (dirname p) < length p.
Proof.
  intros Hne. destruct (dirname_prefix p) as [r Hr].
  destruct r as [|c r].
  - rewrite app_nil_r in Hr. congruence.
  - rewrite Hr at 2. rewrite length_app. simpl. lia.
Qed.

Lemma find_project_root_loop_total fuel fs d :
  length d < fuel → is_Some (find_project_root_loop fuel fs d).
Proof.
  revert d. induction fuel as [|fuel IH]; intros d Hlen; [lia |].
  cbn [find_project_root_loop]. unfold str_eqb.
  destruct (bool_decide_reflect (d = dirname d)) as [Heq | Hne]; [by eexists |].
  destruct (has_marker fs d); [by eexists |].
  apply IH. assert (dirname d ≠ d) as Hne' by congruence.
  pose proof (dirname_shorter d Hne'). lia.
Qed.

Lemma find_project_root_loop_found fuel fs d r :
  find_project_root_loop fuel fs d = Some (Some r) →
  ∃ k, r = Nat.iter k dirname d
       ∧ has_marker fs r = true
       ∧ r ≠ dirname r
       ∧ ∀ j, j < k → has_marker fs (Nat.iter j dirname d) = false.
Proof.
  revert d. induction fuel as [|fuel IH]; intros d; [done |].
  cbn [find_project_root_loop]. unfold str_eqb.
  destruct (bool_decide_reflect (d = dirname d)) as [Heq | Hne]; [done |].
  destruct (has_marker fs d) eqn:Hm.
  - intros [= <-]. exists 0. split_and!; try done. lia.
  - intros Hr. destruct (IH _ Hr) as (k & Hk & Hmark & Htop & Hbelow).
    exists (S k). split_and!; try done.
    + rewrite Hk. by rewrite Nat.iter_succ_r.
    + intros [|j] Hj; [done |]. rewrite Nat.iter_succ_r. apply Hbelow. lia.
Qed.

Lemma iter_dirname_fixed d j : d = dirname d → Nat.iter j dirname d = d.
Proof.
  intros Hd. induction j as [|j IH]; [done |].
  rewrite Nat.iter_succ, IH. by symmetry.
Qed.

Lemma find_project_root_loop_none fuel fs d :
  find_project_root_loop fuel fs d = Some None →
  ∀ j, Nat.iter j dirname d ≠ dirname (Nat.iter j dirname d) →
       has_marker fs (Nat.iter j dirname d) = false.
Proof.
  revert d. induction fuel as [|fuel IH]; intros d; [done |].
  cbn [find_project_root_loop]. unfold str_eqb.
  destruct (bool_decide_reflect (d = dirname d)) as [Heq | Hne].
  - intros _ j Hj. by rewrite iter_dirname_fixed in Hj.
  - destruct (has_marker fs d) eqn:Hm; [done |].
    intros Hr [|j] Hj; [done |].
    rewrite Nat.iter_succ_r in *. by apply (IH _ Hr).
Qed.

Lemma iter_dirname_prefix k d : ∃ r, d = Nat.iter k dirname d ++ r.
Proof.
  induction k as [|k [r IH]]; [exists []; by rewrite app_nil_r |].
  rewrite Nat.iter_succ. destruct (dirname_prefix (Nat.iter k dirname d)) as [r' Hr'].
  exists (r' ++ r). rewrite app_assoc, <- Hr'. done.
Qed.

(** X1.  The search for the project root always ends.  Its answer is the
    nearest directory, going from the working directory upwards by
    dirname, that holds a file spec-kit.json or a directory specs; the
    topmost directory (the one that is its own dirname) is never looked
    at.  When no directory below the topmost one holds either, the answer
    is the working directory.  The answer is a prefix of the working
    directory. *)
Theorem find_project_root_is_nearest_marked (cwd : str) (fs : gmap str node) :
  ∃ root, _find_project_root cwd fs = Some root
    ∧ (∃ rest, cwd = root ++ rest)
    ∧ ((∃ k, root = Nat.iter k dirname cwd
             ∧ has_marker fs root = true
             ∧ root ≠ dirname root
             ∧ ∀ j, j < k → has_marker fs (Nat.iter j dirname cwd) = false)
       ∨ (root = cwd
          ∧ ∀ j, Nat.iter j dirname cwd ≠ dirname (Nat.iter j dirname cwd) →
                 has_marker fs (Nat.iter j dirname cwd) = false)).
Proof.
  unfold _find_project_root.
  destruct (find_project_root_loop_total (S (length cwd)) fs cwd) as [r Hr]; [lia |].
  rewrite Hr. destruct r as [root|].
  - exists root. split; [done |].
    destruct (find_project_root_loop_found _ _ _ _ Hr) as (k & Hk & H).
    split; [| left; by exists k].
    rewrite Hk. apply iter_dirname_prefix.
  - exists cwd. split; [done |]. split; [exists []; by rewrite app_nil_r |].
    right. split; [done |]. by apply (find_project_root_loop_none _ _ _ Hr).
Qed.

(** X2.  Locating the root again from the root that was found gives the
    same root. *)
Theorem find_project_root_idempotent (cwd root : str) (fs : gmap str node) :
  _find_project_root cwd fs = Some root →
  _find_project_root root fs = Some root.
Proof.
  unfold _find_project_root at 1.
  destruct (find_project_root_loop (S (length cwd)) fs cwd) as [[found|]|] eqn:Hr;
    [| | done].
  - intros [= <-].
    destruct (find_project_root_loop_found _ _ _ _ Hr) as (k & _ & Hmark & Htop & _).
    unfold _find_project_root. cbn [find_project_root_loop]. unfold str_eqb.
    rewrite bool_decide_eq_false_2 by done. by rewrite Hmark.
  - intros [= <-]. unfold _find_project_root. by rewrite Hr.
Qed.

Lemma find_project_root_idempotent_witness :
  _find_project_root "/work/app/specs/001-a" sample_fs = Some "/work/app"
  ∧ _find_project_root "/work/app" sample_fs = Some "/work/app".
Proof.
  assert (H : _find_project_root "/work/app/specs/001-a" sample_fs = Some "/work/app")
    by (vm_compute; reflexivity).
  split; [exact H |].
  exact (find_project_root_idempotent "/work/app/specs/001-a" "/work/app" sample_fs H).
Defined.

(** ** The shape of a slug *)

Lemma lower_alnum_not_hyphen c : is_lower_alnum c = true → is_hyphen c = false.
Proof.
  intros Hc. unfold is_hyphen. apply eqc_neq. intros ->. discriminate Hc.
Qed.

Lemma lower_char_slug_char c : is_slug_char c = true → lower_char c = c.
Proof.
  unfold is_slug_char, is_lower_alnum, is_digit, lower_char.
  intros [H | H]%orb_true_iff.
  - assert (Hrange : (48 ≤ code c ≤ 57 ∨ 97 ≤ code c ≤ 122)%nat).
    { apply orb_true_iff in H as [H | H]; apply andb_true_iff in H as [H1 H2];
        apply Nat.leb_le in H1, H2; lia. }
    assert (((65 <=? code c)%nat && (code c <=? 90)%nat) = false) as ->.
    { apply andb_false_iff. rewrite !Nat.leb_gt. lia. }
    assert ((192 <=? code c)%nat = false) as -> by (apply Nat.leb_gt; lia).
    done.
  - apply eqc_eq in H as ->. done.
Qed.

Lemma hyphenate_slug_chars s : forallb is_slug_char (hyphenate s) = true.
Proof.
  induction s as [|c s IH]; [done |]. unfold hyphenate in *. cbn [map forallb].
  rewrite IH, andb_true_r. unfold is_slug_char.
  destruct (is_lower_alnum c) eqn:Hc; [by rewrite Hc | done].
Qed.

Lemma squeeze_from_forallb P b s :
  forallb P s = true → forallb P (squeeze_from b s) = true.
Proof.
  revert b. induction s as [|c s IH]; intros b; [done |].
  cbn [forallb squeeze_from]. intros [Hc Hs]%andb_true_iff.
  destruct (is_hyphen c) eqn:Hh.
  - apply eqc_eq in Hh as ->.
    destruct b; [by apply IH |]. cbn [forallb]. by rewrite Hc, IH.
  - cbn [forallb]. by rewrite Hc, IH.
Qed.

Lemma strip_with_forallb P p s :
  forallb P s = true → forallb P (strip_with p s) = true.
Proof.
  rewrite !forallb_forall. intros H c Hc. apply H.
  unfold strip_with in Hc.
  apply in_rev, drop_while_In, in_rev, drop_while_In in Hc. done.
Qed.

(** The pieces of a split hold the characters of the text and no
    separator. *)
Lemma split_on_pieces sep P s :
  forallb P s = true →
  Forall (λ l, forallb P l = true
               ∧ forallb (λ c, negb (eqc c sep)) l = true) (split_on sep s).
Proof.
  induction s as [|c s IH]; cbn [split_on forallb]; [by repeat constructor |].
  intros [Hc Hs]%andb_true_iff. specialize (IH Hs).
  destruct (eqc c sep) eqn:Hsep; [by constructor |].
  destruct (split_on sep s) as [|h t].
  - constructor; [| constructor]. cbn [forallb]. by rewrite Hc, Hsep.
  - inversion IH as [|? ? [Hh1 Hh2] Ht]; subst. constructor; [| done].
    cbn [forallb]. by rewrite Hc, Hsep, Hh1, Hh2.
Qed.

Lemma split_on_single sep l :
  forallb (λ c, negb (eqc c sep)) l = true → split_on sep l = [l].
Proof.
  induction l as [|c l IH]; [done |]. cbn [forallb split_on].
  intros [Hc Hl]%andb_true_iff. apply negb_true_iff in Hc.
  by rewrite Hc, (IH Hl).
Qed.

Lemma split_on_app_sep sep l s :
  forallb (λ c, negb (eqc c sep)) l = true →
  split_on sep (l ++ sep :: s) = l :: split_on sep s.
Proof.
  induction l as [|c l IH]; cbn [forallb app split_on].
  - by rewrite eqc_refl.
  - intros [Hc Hl]%andb_true_iff. apply negb_true_iff in Hc.
    by rewrite Hc, (IH Hl).
Qed.

Lemma split_on_join_sep sep ws :
  ws ≠ [] → Forall (λ l, forallb (λ c, negb (eqc c sep)) l = true) ws →
  split_on sep (join [sep] ws) = ws.
Proof.
  intros Hne Hws. induction Hws as [|l ws Hl Hws IH]; [done |].
  destruct ws as [|l' ws].
  - by apply split_on_single.
  - change (join [sep] (l :: l' :: ws)) with (l ++ sep :: join [sep] (l' :: ws)).
    rewrite split_on_app_sep by done. f_equal. by apply IH.
Qed.

Lemma is_word_spec w :
  is_word w = true ↔ w ≠ [] ∧ forallb is_lower_alnum w = true.
Proof.
  unfold is_word. rewrite andb_true_iff.
  destruct w as [|c w]; cbn [nonempty]; split; intros [H1 H2]; done.
Qed.

Lemma word_no_hyphen w :
  is_word w = true → forallb (λ c, negb (eqc c "-")) w = true.
Proof.
  intros [_ Hw]%is_word_spec. rewrite forallb_forall in *. intros c Hc.
  apply negb_true_iff. change (is_hyphen c = false).
  by apply lower_alnum_not_hyphen, Hw.
Qed.

(** The words that [create_new_feature] joins. *)
Lemma slug_words description :
  ∃ ws, slug description = join "-" ws
        ∧ length ws ≤ 3
        ∧ Forall (λ w, is_word w = true) ws.
Proof.
  unfold slug.
  set (x := strip_with is_hyphen (squeeze_hyphens (hyphenate (lower description)))).
  assert (Hx : forallb is_slug_char x = true).
  { apply strip_with_forallb, squeeze_from_forallb, hyphenate_slug_chars. }
  eexists. split; [reflexivity |]. split.
  - rewrite length_take. lia.
  - apply Forall_take. apply Forall_forall. intros w Hw.
    apply list_elem_of_filter in Hw as [Hne Hin].
    pose proof (split_on_pieces "-" _ _ Hx) as Hpieces.
    rewrite Forall_forall in Hpieces. destruct (Hpieces w Hin) as [H1 H2].
    unfold is_word. rewrite Hne. cbn [andb].
    rewrite forallb_forall in *. intros c Hc.
    specialize (H1 c Hc). specialize (H2 c Hc).
    unfold is_slug_char in H1. apply orb_true_iff in H1 as [H1 | H1]; [done |].
    unfold is_hyphen in H1. by rewrite H1 in H2.
Qed.

Lemma join_words_chars ws :
  Forall (λ w, is_word w = true) ws →
  forallb is_slug_char (join "-" ws) = true.
Proof.
  intros Hws. induction Hws as [|w l Hw Hl IH]; [done |].
  assert (Hchars : forallb is_slug_char w = true).
  { apply is_word_spec in Hw as [_ Hw]. rewrite forallb_forall in *.
    intros c Hc. unfold is_slug_char. by rewrite (Hw c Hc). }
  destruct l as [|w' l]; [done |].
  change (join "-" (w :: w' :: l)) with (w ++ "-" ++ join "-" (w' :: l)).
  rewrite !forallb_app, Hchars, IH. done.
Qed.

Lemma join_words_head ws :
  Forall (λ w, is_word w = true) ws →
  match join "-" ws with c :: _ => is_lower_alnum c = true | [] => ws = [] end.
Proof.
  intros Hws. destruct Hws as [|w l Hw Hl]; [done |].
  apply is_word_spec in Hw as [Hne Hw].
  destruct w as [|c w]; [done |]. cbn [forallb] in Hw.
  apply andb_true_iff in Hw as [Hc _].
  destruct l; exact Hc.
Qed.

Lemma join_words_last ws :
  Forall (λ w, is_word w = true) ws →
  match rev (join "-" ws) with c :: _ => is_lower_alnum c = true | [] => ws = [] end.
Proof.
  intros Hws. induction Hws as [|w l Hw Hl IH]; [done |].
  apply is_word_spec in Hw as [Hne Hw].
  destruct l as [|w' l].
  - cbn [join]. destruct (rev w) as [|c r] eqn:Hr.
    + apply (f_equal (@rev _)) in Hr. rewrite rev_involutive in Hr. done.
    + rewrite forallb_forall in Hw. apply Hw. apply in_rev.
      rewrite Hr. by left.
  - change (join "-" (w :: w' :: l)) with (w ++ "-" ++ join "-" (w' :: l)).
    rewrite !rev_app_distr.
    destruct (rev (join "-" (w' :: l))) as [|c r]; [done |]. exact IH.
Qed.

Lemma squeeze_word b w r :
  is_word w = true → squeeze_from b (w ++ r) = w ++ squeeze_from false r.
Proof.
  intros [Hne Hw]%is_word_spec. revert b.
  induction w as [|c w IH]; intros b; [done |].
  cbn [forallb] in Hw. apply andb_true_iff in Hw as [Hc Hw].
  cbn [app squeeze_from]. rewrite (lower_alnum_not_hyphen c Hc). f_equal.
  destruct w as [|d w]; [done |]. by apply IH.
Qed.

Lemma squeeze_join_words ws b :
  Forall (λ w, is_word w = true) ws →
  squeeze_from b (join "-" ws) = join "-" ws.
Proof.
  intros Hws. revert b. induction Hws as [|w l Hw Hl IH]; intros b; [done |].
  destruct l as [|w' l].
  - cbn [join]. rewrite <- (app_nil_r w) at 1.
    rewrite squeeze_word by done. by rewrite app_nil_r.
  - change (join "-" (w :: w' :: l)) with (w ++ "-" ++ join "-" (w' :: l)).
    rewrite squeeze_word by done. f_equal.
    cbn [app squeeze_from]. change (is_hyphen "-") with true. cbn iota.
    f_equal. apply IH.
Qed.

Lemma filter_words ws :
  Forall (λ w, is_word w = true) ws →
  filter (λ w, nonempty w = true) ws = ws.
Proof.
  intros Hws. induction Hws as [|w l Hw Hl IH]; [done |].
  rewrite filter_cons. apply is_word_spec in Hw as [Hne _].
  destruct w as [|c w]; [done |].
  rewrite decide_True by done. by rewrite IH.
Qed.


Lemma strip_with_ends p s :
  match s with c :: _ => p c = false | [] => True end →
  match rev s with c :: _ => p c = false | [] => True end →
  strip_with p s = s.
Proof.
  intros Hhead Hlast. unfold strip_with.
  assert (drop_while p s = s) as ->.
  { destruct s as [|c s]; [done |]. cbn [drop_while]. by rewrite Hhead. }
  assert (drop_while p (rev s) = rev s) as ->.
  { destruct (rev s) as [|c r]; [done |]. cbn [drop_while]. by rewrite Hlast. }
  apply rev_involutive.
Qed.

Lemma slug_of_words ws :
  length ws ≤ 3 → Forall (λ w, is_word w = true) ws →
  slug (join "-" ws) = join "-" ws.
Proof.
  intros Hlen Hws. destruct ws as [|w0 ws0]; [done |].
  set (ws := w0 :: ws0) in *. unfold slug.
  assert (lower (join "-" ws) = join "-" ws) as ->.
  { unfold lower. rewrite <- (map_id (join "-" ws)) at 2.
    apply map_ext_in. intros c Hc. apply lower_char_slug_char.
    pose proof (join_words_chars ws Hws) as H. rewrite forallb_forall in H.
    by apply H. }
  assert (hyphenate (join "-" ws) = join "-" ws) as ->.
  { unfold hyphenate. rewrite <- (map_id (join "-" ws)) at 2.
    apply map_ext_in. intros c Hc.
    pose proof (join_words_chars ws Hws) as H. rewrite forallb_forall in H.
    specialize (H c Hc). unfold is_slug_char in H.
    destruct (is_lower_alnum c); [done |].
    cbn [orb] in H. by apply eqc_eq in H. }
  unfold squeeze_hyphens. rewrite squeeze_join_words by done.
  rewrite strip_with_ends.
  - rewrite split_on_join_sep.
    + rewrite filter_words by done. by rewrite take_ge by lia.
    + done.
    + eapply Forall_impl; [exact Hws |]. intros w Hw. by apply word_no_hyphen.
  - pose proof (join_words_head ws Hws) as H.
    destruct (join "-" ws) as [|c r]; [done |]. by apply lower_alnum_not_hyphen.
  - pose proof (join_words_last ws Hws) as H.
    destruct (rev (join "-" ws)) as [|c r]; [done |]. by apply lower_alnum_not_hyphen.
Qed.

Lemma squeeze_true_head s r : squeeze_from true s ≠ "-"%char :: r.
Proof.
  induction s as [|c s IH]; [done |]. cbn [squeeze_from].
  destruct (is_hyphen c) eqn:Hc; [done |]. intros [= -> _]. done.
Qed.

(** After [re.sub(r'-+', '-', s)] no two hyphens are in a row. *)
Lemma squeeze_no_double b s : str_in "--" (squeeze_from b s) = false.
Proof.
  destruct (str_in "--" (squeeze_from b s)) eqn:Hin; [| done]. exfalso.
  apply str_in_true in Hin as (a & r & Har). revert b a Har.
  induction s as [|c s IH]; intros b a Har.
  - by destruct a.
  - cbn [squeeze_from] in Har. destruct (is_hyphen c) eqn:Hc.
    + destruct b; [by apply (IH true a) |].
      destruct a as [|x a].
      * injection Har as Har. by apply squeeze_true_head in Har.
      * injection Har as _ Har. by apply (IH true a).
    + destruct a as [|x a].
      * injection Har as -> _. done.
      * injection Har as _ Har. by apply (IH false a).
Qed.

(** X3.  The slug that create_new_feature derives from a description is
    made of the characters a-z, 0-9 and the hyphen only; it neither
    starts nor ends with a hyphen and holds no two hyphens in a row;
    split on hyphens it gives at most three words, each of them not
    empty when the slug is not empty. *)
Theorem slug_is_well_formed (feature_description : str) :
  let s := slug feature_description in
  forallb is_slug_char s = true
  ∧ starts_with "-" s = false
  ∧ starts_with "-" (rev s) = false
  ∧ str_in "--" s = false
  ∧ length (split_on "-" s) ≤ 3
  ∧ (s ≠ [] → Forall (λ w, is_word w = true) (split_on "-" s)).
Proof.
  intros s. destruct (slug_words feature_description) as (ws & Hs & Hlen & Hws).
  fold s in Hs.
  assert (Hsplit : ws ≠ [] → split_on "-" s = ws).
  { intros Hne. rewrite Hs. apply split_on_join_sep; [done |].
    eapply Forall_impl; [exact Hws |]. intros w Hw. by apply word_no_hyphen. }
  assert (Hhead : starts_with "-" s = false).
  { pose proof (join_words_head ws Hws) as H. rewrite <- Hs in H.
    destruct s as [|c r]; [done |]. cbn [starts_with].
    rewrite eqc_sym. change (eqc c "-") with (is_hyphen c).
    by rewrite (lower_alnum_not_hyphen c H). }
  assert (Hlast : starts_with "-" (rev s) = false).
  { pose proof (join_words_last ws Hws) as H. rewrite <- Hs in H.
    destruct (rev s) as [|c r]; [done |]. cbn [starts_with].
    rewrite eqc_sym. change (eqc c "-") with (is_hyphen c).
    by rewrite (lower_alnum_not_hyphen c H). }
  split_and!; try done.
  - rewrite Hs. by apply join_words_chars.
  - rewrite Hs, <- (squeeze_join_words ws false Hws). apply squeeze_no_double.
  - destruct ws as [|w0 ws0].
    + rewrite Hs. cbn. lia.
    + by rewrite Hsplit.
  - intros Hne. destruct ws as [|w0 ws0]; [by rewrite Hs in Hne |].
    by rewrite Hsplit.
Qed.

(** X4.  Deriving a slug from a slug changes nothing: a feature
    description that already is a slug is its own slug. *)
Theorem slug_idempotent (feature_description : str) :
  slug (slug feature_description) = slug feature_description.
Proof.
  destruct (slug_words feature_description) as (ws & -> & Hlen & Hws).
  by apply slug_of_words.
Qed.

(** ** Feature names and their numbers *)

Lemma take_while_app_stop p a c r :
  forallb p a = true → p c = false → take_while p (a ++ c :: r) = a.
Proof.
  intros Ha Hc. induction a as [|x a IH]; cbn [app take_while].
  - by rewrite Hc.
  - cbn [forallb] in Ha. apply andb_true_iff in Ha as [Hx Ha].
    by rewrite Hx, IH.
Qed.

Lemma format_03d_nonempty n : format_03d n ≠ [].
Proof.
  unfold format_03d. rewrite str_of_N_unfold.
  destruct (n <? 10)%N; destruct (replicate _ _); try done;
    by destruct (str_of_N (n / 10)).
Qed.

Lemma match_digits_feature_name n rest :
  match_digits (format_03d n ++ "-" ++ rest) = Some (format_03d n).
Proof.
  pose proof (format_03d_spec n) as (Hdigits & _).
  unfold match_digits. cbn [app].
  rewrite take_while_app_stop by done.
  pose proof (format_03d_nonempty n). by destruct (format_03d n).
Qed.

(** X5.  The number of a feature is read back from its name: for every
    number and every description, the digits at the start of the name
    that create_new_feature builds are the formatted number, the feature
    numberer reads the number itself from a directory of that name, and
    the next feature number of every listing that holds such a directory
    is above the number. *)
Theorem feature_number_reads_back (n : N) (feature_description : str) :
  let name := final_feature_name n feature_description in
  match_digits name = Some (format_03d n)
  ∧ numbered (name, true) = Some n
  ∧ ∀ entries : listing,
      (name, true) ∈ entries → (n < next_feature_number (Some entries))%N.
Proof.
  intros name.
  assert (Hd : match_digits name = Some (format_03d n))
    by apply match_digits_feature_name.
  assert (Hn : numbered (name, true) = Some n).
  { unfold numbered. cbn [fst snd]. rewrite Hd.
    change (Some (int_of_digits (format_03d n)) = Some n).
    pose proof (format_03d_spec n) as (_ & -> & _). done. }
  split_and!; [done | done |].
  intros entries Hentry.
  unfold next_feature_number. rewrite fold_visit_max.
  assert (n ∈ dir_numbers entries) as Hin.
  { unfold dir_numbers. apply list_elem_of_omap. by exists (name, true). }
  apply max_N_bound in Hin. lia.
Qed.

Lemma short_number_has_feature_prefix n rest :
  (n < 1000)%N → match_feature_prefix (format_03d n ++ "-" ++ rest) = true.
Proof.
  intros Hlt. pose proof (format_03d_spec n) as (Hdigits & _ & Hlen & _).
  specialize (Hlen Hlt).
  destruct (format_03d n) as [|a [|b [|c [|d digits]]]]; simpl in Hlen; try lia.
  cbn [forallb] in Hdigits. cbn [app match_feature_prefix].
  apply andb_true_iff in Hdigits as [Ha Hdigits].
  apply andb_true_iff in Hdigits as [Hb Hdigits].
  apply andb_true_iff in Hdigits as [Hc _].
  by rewrite Ha, Hb, Hc.
Qed.

(** X6.  check_feature_name accepts the name that create_new_feature
    builds exactly when the feature number is below 1000. *)
Theorem created_name_is_valid_below_1000 (n : N) (feature_description : str) :
  match_feature_prefix (final_feature_name n feature_description) = true
  ↔ (n < 1000)%N.
Proof.
  split.
  - intros Hok. destruct (N.lt_ge_cases n 1000) as [Hlt | Hge]; [done |].
    unfold final_feature_name in Hok.
    by rewrite long_number_has_no_feature_prefix in Hok.
  - apply short_number_has_feature_prefix.
Qed.

(** ** Paths below the project root *)

Lemma join2_relative path b :
  starts_with "/" b = false → join2 path b = dir_prefix path ++ b.
Proof.
  intros Hb. unfold join2, dir_prefix. rewrite Hb.
  destruct (negb (nonempty path) || ends_with_slash path); [done |].
  by rewrite <- app_assoc.
Qed.

Lemma ends_with_slash_snoc x c : ends_with_slash (x ++ [c]) = eqc c "/".
Proof. unfold ends_with_slash. by rewrite rev_app_distr. Qed.

Lemma ends_with_slash_app x y c : ends_with_slash (x ++ y ++ [c]) = eqc c "/".
Proof. by rewrite app_assoc, ends_with_slash_snoc. Qed.

Lemma dir_prefix_cases path :
  dir_prefix path = [] ∨ ∃ x, dir_prefix path = x ++ "/".
Proof.
  unfold dir_prefix. destruct path as [|c path]; [by left |]. right.
  cbn [nonempty negb orb]. unfold ends_with_slash.
  destruct (rev (c :: path)) as [|d r] eqn:Hr; [by eexists |].
  destruct (eqc d "/") eqn:Hd; [| by eexists].
  apply eqc_eq in Hd as ->. exists (rev r).
  apply (f_equal (@rev _)) in Hr. rewrite rev_involutive in Hr.
  rewrite Hr. done.
Qed.

Lemma no_slash_head name :
  no_slash name = true → starts_with "/" name = false.
Proof.
  destruct name as [|c name]; [done |]. unfold no_slash. cbn [forallb starts_with].
  intros [Hc _]%andb_true_iff. apply negb_true_iff in Hc.
  unfold is_slash in Hc. by rewrite eqc_sym, Hc.
Qed.

Lemma no_slash_rev name : no_slash name = true → no_slash (rev name) = true.
Proof.
  unfold no_slash. rewrite !forallb_forall. intros H c Hc.
  apply H. by apply in_rev.
Qed.

Lemma no_slash_str_in name : no_slash name = true → str_in "/" name = false.
Proof.
  intros Hname. destruct (str_in "/" name) eqn:Hin; [| done].
  apply str_in_true in Hin as (a & b & ->). unfold no_slash in Hname.
  rewrite !forallb_app in Hname. cbn in Hname.
  by rewrite andb_false_r in Hname.
Qed.

(** The directory and the name of an entry. *)
Lemma path_split_entry d c name :
  eqc c "/" = false → no_slash name = true →
  path_split ((d ++ [c]) ++ "/" ++ name) = (d ++ [c], name).
Proof.
  intros Hc Hname. unfold path_split.
  assert (Htail : rev (take_while (λ x, negb (is_slash x))
                         (rev ((d ++ [c]) ++ "/" ++ name))) = name).
  { rewrite rev_app_distr. cbn [app]. rewrite rev_app_distr. cbn [rev app].
    rewrite <- app_assoc. cbn [app].
    rewrite take_while_app_stop; [apply rev_involutive | | done].
    by apply no_slash_rev. }
  rewrite Htail.
  assert (Hhead : take (length ((d ++ [c]) ++ "/" ++ name) - length name)
                       ((d ++ [c]) ++ "/" ++ name) = (d ++ [c]) ++ "/").
  { rewrite app_assoc. rewrite length_app.
    replace (length ((d ++ [c]) ++ "/") + length name - length name)
      with (length ((d ++ [c]) ++ "/")) by lia.
    by rewrite take_app_length. }
  rewrite Hhead. f_equal.
  assert (forallb is_slash ((d ++ [c]) ++ "/") = false) as ->.
  { rewrite !forallb_app. cbn [forallb]. unfold is_slash at 2. rewrite Hc.
    by rewrite !andb_false_r. }
  assert (nonempty ((d ++ [c]) ++ "/") = true) as -> by by destruct d.
  cbn [andb negb]. rewrite rev_app_distr. cbn [rev app drop_while].
  change (is_slash "/") with true. cbn iota.
  rewrite rev_app_distr. cbn [rev app drop_while]. unfold is_slash. rewrite Hc.
  change (c :: rev d) with ([c] ++ rev d). rewrite rev_app_distr, rev_involutive.
  done.
Qed.

(** The name of a path that [os.path.join] has built from a directory
    and a name. *)
Lemma path_split_tail path name :
  no_slash name = true → (path_split (dir_prefix path ++ name)).2 = name.
Proof.
  intros Hname. unfold path_split. cbn [snd].
  destruct (dir_prefix_cases path) as [-> | [x ->]].
  - cbn [app]. destruct (take_while_prefix (λ c, negb (is_slash c)) (rev name))
      as [r Hr].
    assert (forallb (λ c, negb (is_slash c)) (rev name) = true) as Hall
      by by apply no_slash_rev.
    assert (take_while (λ c, negb (is_slash c)) (rev name) = rev name) as ->.
    { clear Hr. induction (rev name) as [|c l IH]; [done |].
      cbn [forallb take_while] in *. apply andb_true_iff in Hall as [-> Hl].
      by rewrite IH. }
    apply rev_involutive.
  - rewrite rev_app_distr, rev_app_distr. cbn [rev app].
    rewrite take_while_app_stop; [apply rev_involutive | | done].
    by apply no_slash_rev.
Qed.

Section ProjectPaths.
Variable E : env.

Local Abbreviation P := (dir_prefix (project_root E)).
Local Abbreviation specs_dir := (path_join (project_root E) ["specs"]).

Lemma specs_dir_eq : specs_dir = P ++ "specs".
Proof. apply join2_relative. done. Qed.

Lemma config_path_eq : ProjectManager.config_path E = P ++ "spec-kit.json".
Proof. apply join2_relative. done. Qed.

Lemma specs_dir_no_slash_end : ends_with_slash specs_dir = false.
Proof.
  rewrite specs_dir_eq.
  change (P ++ "specs") with (P ++ "spec" ++ ["s"%char]).
  by rewrite ends_with_slash_app.
Qed.

Lemma dir_prefix_specs_dir : dir_prefix specs_dir = specs_dir ++ "/".
Proof.
  unfold dir_prefix. rewrite specs_dir_no_slash_end.
  assert (nonempty specs_dir = true) as ->; [| done].
  rewrite specs_dir_eq. by destruct P.
Qed.

Lemma entry_path_eq name :
  starts_with "/" name = false →
  path_join specs_dir [name] = specs_dir ++ "/" ++ name.
Proof.
  intros Hname. change (path_join specs_dir [name]) with (join2 specs_dir name).
  rewrite join2_relative by done. by rewrite dir_prefix_specs_dir, <- app_assoc.
Qed.

Lemma feature_dir_eq name :
  starts_with "/" name = false →
  FeatureManager.get_feature_dir E name = specs_dir ++ "/" ++ name.
Proof. apply entry_path_eq. Qed.

Lemma path_split_specs_entry name :
  no_slash name = true →
  path_split (specs_dir ++ "/" ++ name) = (specs_dir, name).
Proof.
  intros Hname. rewrite specs_dir_eq.
  change (P ++ "specs") with (P ++ "spec" ++ ["s"%char]).
  rewrite (app_assoc P). by apply path_split_entry.
Qed.

Lemma child_name_specs_entry name :
  child_name specs_dir (specs_dir ++ "/" ++ name)
  = if nonempty name && negb (str_in "/" name) then Some name else None.
Proof.
  unfold child_name. rewrite specs_dir_no_slash_end.
  by rewrite (app_assoc specs_dir), lit_app.
Qed.

Lemma child_name_specs_Some p name :
  child_name specs_dir p = Some name →
  p = specs_dir ++ "/" ++ name ∧ nonempty name = true ∧ str_in "/" name = false.
Proof.
  unfold child_name. rewrite specs_dir_no_slash_end.
  destruct (lit _ p) as [r|] eqn:Hlit; [| done].
  apply lit_Some in Hlit as ->.
  destruct (nonempty r) eqn:Hr; [| done]. destruct (str_in "/" r) eqn:Hs; [done |].
  intros [= <-]. by rewrite <- app_assoc.
Qed.

Lemma config_path_not_specs_entry :
  child_name specs_dir (ProjectManager.config_path E) = None.
Proof.
  unfold child_name. rewrite specs_dir_no_slash_end.
  destruct (lit _ _) as [r|] eqn:Hlit; [| done].
  apply lit_Some in Hlit. rewrite config_path_eq, specs_dir_eq in Hlit.
  rewrite <- !app_assoc in Hlit. apply app_inv_head in Hlit. done.
Qed.

Lemma config_path_not_specs_dir : ProjectManager.config_path E ≠ specs_dir.
Proof.
  rewrite config_path_eq, specs_dir_eq. intros H. by apply app_inv_head in H.
Qed.

Lemma specs_entry_not_specs_dir name : specs_dir ++ "/" ++ name ≠ specs_dir.
Proof.
  intros H. apply (f_equal length) in H. rewrite !length_app in H.
  cbn [length] in H. lia.
Qed.

Lemma specs_entry_not_config_path name :
  specs_dir ++ "/" ++ name ≠ ProjectManager.config_path E.
Proof.
  rewrite config_path_eq, specs_dir_eq. rewrite <- !app_assoc.
  intros H. by apply app_inv_head in H.
Qed.

End ProjectPaths.

(** ** Making directories *)

Lemma adds_dirs_refl fs : adds_dirs fs fs.
Proof. intros p. by left. Qed.

Lemma adds_dirs_trans fs1 fs2 fs3 :
  adds_dirs fs1 fs2 → adds_dirs fs2 fs3 → adds_dirs fs1 fs3.
Proof.
  intros H12 H23 p. destruct (H12 p) as [H1 | [H1 H1']], (H23 p) as [H2 | [H2 H2']].
  - left. congruence.
  - right. split; congruence.
  - right. split; congruence.
  - congruence.
Qed.

Lemma mkdir_cases name fs r fs' :
  mkdir name fs = (r, fs') →
  (r = None ∧ fs !! name = None ∧ fs' = <[name := Dir]> fs)
  ∨ (∃ e, r = Some e ∧ fs' = fs).
Proof.
  unfold mkdir. destruct (path_exists fs name) eqn:Hex.
  - intros [= <- <-]. right. by eexists.
  - destruct (parent_error fs _) as [e|].
    + intros [= <- <-]. right. by eexists.
    + intros [= <- <-]. left. split_and!; try done.
      unfold path_exists in Hex. apply orb_false_iff in Hex as [_ Hex].
      apply bool_decide_eq_false in Hex.
      destruct (fs !! name) eqn:Hl; [| done]. destruct Hex. by eexists.
Qed.

Lemma mkdir_adds_dirs name fs r fs' :
  mkdir name fs = (r, fs') → adds_dirs fs fs'.
Proof.
  intros [(-> & Hnew & ->) | (e & -> & ->)]%mkdir_cases; [| apply adds_dirs_refl].
  intros p. destruct (decide (p = name)) as [-> | Hne].
  - right. by rewrite lookup_insert_eq.
  - left. by rewrite lookup_insert_ne.
Qed.

(** [os.makedirs] changes nothing that exists: it only makes
    directories where there was nothing. *)
Lemma makedirs_loop_adds_dirs fuel name fs r fs' :
  makedirs_loop fuel name fs = (r, fs') → adds_dirs fs fs'.
Proof.
  revert name fs r fs'. induction fuel as [|fuel IH]; intros name fs r fs'.
  { intros [= <- <-]. apply adds_dirs_refl. }
  cbn [makedirs_loop]. destruct (path_split name) as [head0 tail0].
  destruct (if nonempty tail0 then (head0, tail0) else path_split head0)
    as [head tail].
  assert (Hlast : ∀ fs1, adds_dirs fs fs1 →
            match mkdir name fs1 with
            | (Some e, fs2) => if isdir fs2 name then (None, fs2) else (Some e, fs2)
            | (None, fs2) => (None, fs2)
            end = (r, fs') → adds_dirs fs fs').
  { intros fs1 H1. destruct (mkdir name fs1) as [r2 fs2] eqn:Hmk.
    apply mkdir_adds_dirs in Hmk. intros Hres.
    apply (adds_dirs_trans _ fs1); [done |].
    destruct r2 as [e|]; [destruct (isdir fs2 name) |];
      injection Hres as <- <-; done. }
  destruct (nonempty head && nonempty tail && negb (path_exists fs head)).
  - destruct (makedirs_loop fuel head fs) as [r1 fs1] eqn:Hrec.
    apply IH in Hrec.
    destruct r1 as [[]|]; try (intros [= <- <-]; done);
      (destruct (str_eqb tail "."); [intros [= <- <-]; done | by apply Hlast]).
  - apply Hlast, adds_dirs_refl.
Qed.

Lemma makedirs_adds_dirs name fs r fs' :
  makedirs name fs = (r, fs') → adds_dirs fs fs'.
Proof. apply makedirs_loop_adds_dirs. Qed.

(** A directory below a directory that exists: one [mkdir]. *)
Lemma makedirs_entry E name fs :
  no_slash name = true → nonempty name = true →
  isdir fs (path_join (project_root E) ["specs"]) = true →
  let entry := path_join (project_root E) ["specs"] ++ "/" ++ name in
  makedirs entry fs
  = match fs !! entry with
    | None => (None, <[entry := Dir]> fs)
    | Some Dir => (None, fs)
    | Some (File _) => (Some FileExistsError, fs)
    end.
Proof.
  intros Hname Hne Hdir entry. unfold makedirs. cbn [makedirs_loop].
  subst entry. rewrite path_split_specs_entry by done. rewrite Hne.
  set (specs_dir := path_join (project_root E) ["specs"]) in *.
  set (entry := specs_dir ++ "/" ++ name).
  assert (Hex : path_exists fs specs_dir = true).
  { unfold path_exists. unfold isdir in Hdir.
    destruct (fs !! specs_dir) as [x|] eqn:Hl; [| done].
    rewrite bool_decide_eq_true_2 by by eexists. apply orb_true_r. }
  rewrite Hex. rewrite andb_false_r.
  unfold mkdir. fold entry.
  assert (Hslashes : forallb is_slash entry = false).
  { subst entry specs_dir. rewrite specs_dir_eq. rewrite !forallb_app.
    cbn. by rewrite andb_false_r. }
  unfold path_exists at 1. rewrite Hslashes, andb_false_r. cbn [orb].
  destruct (fs !! entry) as [[c|]|] eqn:Hentry.
  - rewrite bool_decide_eq_true_2 by by eexists.
    unfold isdir. by rewrite Hentry.
  - rewrite bool_decide_eq_true_2 by by eexists.
    unfold isdir. by rewrite Hentry.
  - rewrite bool_decide_eq_false_2 by (by intros [? ?]).
    assert (Hsplit : path_split entry = (specs_dir, name))
      by by apply path_split_specs_entry.
    rewrite Hsplit. cbn [fst]. unfold parent_error.
    assert (forallb is_slash specs_dir = false) as ->.
    { subst specs_dir. rewrite specs_dir_eq. rewrite !forallb_app.
      cbn. by rewrite andb_false_r. }
    unfold isdir in Hdir. by destruct (fs !! specs_dir) as [[]|].
Qed.

(** When [os.makedirs(specs_dir, exist_ok=True)] returns, specs is a
    directory. *)
Lemma makedirs_specs_isdir E fs fs' :
  makedirs (path_join (project_root E) ["specs"]) fs = (None, fs') →
  isdir fs' (path_join (project_root E) ["specs"]) = true.
Proof.
  unfold makedirs. cbn [makedirs_loop].
  set (specs_dir := path_join (project_root E) ["specs"]).
  destruct (path_split specs_dir) as [head0 tail0] eqn:Hsplit.
  assert (Htail : tail0 = "specs").
  { pose proof (path_split_tail (project_root E) "specs" eq_refl) as H.
    rewrite <- specs_dir_eq in H. fold specs_dir in H. by rewrite Hsplit in H. }
  subst tail0. cbn [nonempty].
  assert (Hlast : ∀ fs1,
            match mkdir specs_dir fs1 with
            | (Some e, fs2) => if isdir fs2 specs_dir then (None, fs2) else (Some e, fs2)
            | (None, fs2) => (None, fs2)
            end = (None, fs') → isdir fs' specs_dir = true).
  { intros fs1. destruct (mkdir specs_dir fs1) as [r2 fs2] eqn:Hmk.
    apply mkdir_cases in Hmk as [(-> & _ & ->) | (e & -> & ->)].
    - intros [= <-]. unfold isdir. by rewrite lookup_insert_eq.
    - destruct (isdir fs1 specs_dir) eqn:Hd; [| done]. by intros [= <-]. }
  destruct (nonempty head0 && true && negb (path_exists fs head0)).
  - destruct (makedirs_loop _ head0 fs) as [[[]|] fs1]; try done;
      change (str_eqb "specs" ".") with false; apply Hlast.
  - apply Hlast.
Qed.

(** ** The listing of specs/ *)

Lemma str_in_starts_with p s : str_in p s = false → starts_with p s = false.
Proof.
  intros Hin. destruct (starts_with p s) eqn:Hs; [| done].
  apply starts_with_prefix in Hs as [r ->].
  pose proof (str_in_refl_app p [] r) as H. cbn [app] in H. congruence.
Qed.

Section Listing.
Variable E : env.
Local Abbreviation specs_dir := (path_join (project_root E) ["specs"]).

(** The numbers of the listing, read from the nodes of the map. *)
Lemma listing_numbers fs :
  dir_numbers (map (λ entry, (entry, isdir fs (path_join specs_dir [entry])))
                   (listdir fs specs_dir))
  = omap (node_number specs_dir) (map_to_list fs).
Proof.
  unfold listdir.
  assert (Hall : ∀ kv, kv ∈ map_to_list fs → fs !! kv.1 = Some kv.2).
  { intros [k v] Hkv. by apply elem_of_map_to_list in Hkv. }
  induction (map_to_list fs) as [|kv l IH]; [done |].
  assert (Hkv : fs !! kv.1 = Some kv.2) by (apply Hall; by left).
  assert (Hl : ∀ kv', kv' ∈ l → fs !! kv'.1 = Some kv'.2)
    by (intros kv' Hin; apply Hall; by right).
  specialize (IH Hl). unfold dir_numbers in *.
  cbn [omap list_omap]. unfold node_number at 1.
  destruct (child_name specs_dir kv.1) as [entry|] eqn:Hchild; [| exact IH].
  cbn [map omap list_omap]. rewrite IH.
  apply child_name_specs_Some in Hchild as (Hpath & Hne & Hslash).
  rewrite entry_path_eq by by apply str_in_starts_with.
  unfold isdir. rewrite <- Hpath, Hkv. by destruct kv.2.
Qed.

Lemma specs_listing_next fs :
  isdir fs specs_dir = true →
  next_feature_number (ProjectManager.specs_listing E fs)
  = (max_N (omap (node_number specs_dir) (map_to_list fs)) + 1)%N.
Proof.
  intros Hdir. unfold ProjectManager.specs_listing. rewrite Hdir.
  unfold next_feature_number. rewrite fold_visit_max, listing_numbers. lia.
Qed.

Lemma numbers_insert_new (m : gmap str node) k v :
  m !! k = None →
  omap (node_number specs_dir) (map_to_list (<[k := v]> m))
  ≡ₚ match node_number specs_dir (k, v) with Some n => [n] | None => [] end
     ++ omap (node_number specs_dir) (map_to_list m).
Proof.
  intros Hk. rewrite (map_to_list_insert m k v Hk). cbn [omap list_omap].
  by destruct (node_number specs_dir (k, v)).
Qed.

Lemma numbers_insert_other (m : gmap str node) k v :
  child_name specs_dir k = None →
  omap (node_number specs_dir) (map_to_list (<[k := v]> m))
  ≡ₚ omap (node_number specs_dir) (map_to_list m).
Proof.
  intros Hchild.
  assert (Hnone : ∀ x, node_number specs_dir (k, x) = None).
  { intros x. unfold node_number. cbn [fst]. by rewrite Hchild. }
  destruct (m !! k) as [old|] eqn:Hk.
  - rewrite <- (insert_delete_eq m k v).
    rewrite numbers_insert_new by apply lookup_delete_eq.
    rewrite <- (map_to_list_delete m k old Hk).
    cbn [omap list_omap]. by rewrite !Hnone.
  - rewrite numbers_insert_new by done. by rewrite Hnone.
Qed.

End Listing.

Lemma final_feature_name_no_slash n description :
  no_slash (final_feature_name n description) = true.
Proof.
  unfold final_feature_name, no_slash. rewrite !forallb_app.
  pose proof (format_03d_spec n) as (Hdigits & _).
  pose proof (slug_words description) as (ws & -> & _ & Hws).
  pose proof (join_words_chars ws Hws) as Hchars.
  assert (Hd : ∀ c, is_digit c = true → negb (is_slash c) = true).
  { intros c Hc. apply negb_true_iff, eqc_neq. intros ->. discriminate Hc. }
  assert (Hs : ∀ c, is_slug_char c = true → negb (is_slash c) = true).
  { intros c Hc. apply negb_true_iff, eqc_neq. intros ->. discriminate Hc. }
  rewrite forallb_forall in Hdigits. rewrite forallb_forall in Hchars.
  repeat (apply andb_true_iff; split); try done.
  - apply forallb_forall. intros c Hc. by apply Hd, Hdigits.
  - apply forallb_forall. intros c Hc. by apply Hs, Hchars.
Qed.

Lemma numbered_final_feature_name n description :
  numbered (final_feature_name n description, true) = Some n.
Proof.
  unfold numbered, final_feature_name. cbn [fst snd].
  rewrite match_digits_feature_name.
  change (Some (int_of_digits (format_03d n)) = Some n).
  pose proof (format_03d_spec n) as (_ & -> & _). done.
Qed.

Lemma final_feature_name_nonempty n description :
  nonempty (final_feature_name n description) = true.
Proof.
  unfold final_feature_name. pose proof (format_03d_nonempty n).
  by destruct (format_03d n).
Qed.

(** What a run of [create_new_feature] that returns has done to the
    files. *)
Lemma create_new_feature_files E description w r w' :
  FeatureManager.create_new_feature E description w = (Ok r, w') →
  ∃ fs1,
    makedirs (path_join (project_root E) ["specs"]) (fs w) = (None, fs1)
    ∧ isdir fs1 (path_join (project_root E) ["specs"]) = true
    ∧ let n := next_feature_number (ProjectManager.specs_listing E fs1) in
      let name := final_feature_name n description in
      let dir := path_join (project_root E) ["specs"] ++ "/" ++ name in
      r = {| feature_name := name; feature_dir := dir;
             feature_num := format_03d n |}
      ∧ (fs1 !! dir = None ∨ fs1 !! dir = Some Dir)
      ∧ config w' = <[("current_feature" : str) := Some name]> (config w)
      ∧ fs w' = <[ProjectManager.config_path E :=
                    File (json_dump E (config w'))]> (<[dir := Dir]> fs1)
      ∧ stdout w' = stdout w ∧ stderr w' = stderr w.
Proof.
  unfold FeatureManager.create_new_feature.
  destruct (nonempty (strip description)); cbn [negb]; [| by run].
  unfold ProjectManager.get_next_feature_number,
    ProjectManager.set_current_feature, ProjectManager._save_config,
    ProjectManager.get_project_root.
  run.
  destruct (makedirs _ (fs w)) as [[e1|] fs1] eqn:Hspecs; [done |].
  cbn [fs config stdout stderr].
  pose proof (makedirs_specs_isdir E _ _ Hspecs) as Hdir.
  set (n := next_feature_number (ProjectManager.specs_listing E fs1)).
  fold (final_feature_name n description).
  set (name := final_feature_name n description).
  assert (Hname : no_slash name = true) by apply final_feature_name_no_slash.
  assert (Hne : nonempty name = true) by apply final_feature_name_nonempty.
  rewrite entry_path_eq by by apply no_slash_head.
  rewrite (makedirs_entry E name fs1 Hname Hne Hdir).
  set (dir := path_join (project_root E) ["specs"] ++ "/" ++ name).
  assert (Hwrite : ∀ fs2 content,
            ∃ r3, write_file (ProjectManager.config_path E) content fs2
                  = (r3, match r3 with
                         | None => <[ProjectManager.config_path E := File content]> fs2
                         | Some _ => fs2
                         end)).
  { intros fs2 content. unfold write_file.
    destruct (fs2 !! ProjectManager.config_path E) as [[]|].
    - by exists None.
    - by exists (Some IsADirectoryError).
    - destruct (parent_error fs2 _) as [e|]; [by exists (Some e) | by exists None]. }
  destruct (fs1 !! dir) as [[c|]|] eqn:Hentry; [done | |].
  - cbn [fs config stdout stderr].
    destruct (Hwrite fs1 (json_dump E (<[("current_feature" : str) := Some name]> (config w))))
      as [r3 ->].
    destruct r3 as [e3|]; cbn [is_oserror]; [done |].
    intros [= <- <-]. exists fs1. split_and!; try done; [by right |].
    cbn [fs config]. by rewrite (insert_id fs1 dir Dir Hentry).
  - cbn [fs config stdout stderr].
    destruct (Hwrite (<[dir := Dir]> fs1)
                (json_dump E (<[("current_feature" : str) := Some name]> (config w))))
      as [r3 ->].
    destruct r3 as [e3|]; cbn [is_oserror]; [done |].
    intros [= <- <-]. exists fs1. split_and!; try done. by left.
Qed.

(** A directory that is there, below a directory that is there: nothing
    is made. *)
Lemma makedirs_specs_noop E fs :
  isdir fs (path_join (project_root E) ["specs"]) = true →
  path_exists fs (dirname (path_join (project_root E) ["specs"])) = true
  ∨ dirname (path_join (project_root E) ["specs"]) = [] →
  makedirs (path_join (project_root E) ["specs"]) fs = (None, fs).
Proof.
  intros Hdir Hparent. unfold makedirs. cbn [makedirs_loop].
  set (specs_dir := path_join (project_root E) ["specs"]) in *.
  unfold dirname in Hparent.
  destruct (path_split specs_dir) as [head0 tail0] eqn:Hsplit.
  assert (Htail : tail0 = "specs").
  { pose proof (path_split_tail (project_root E) "specs" eq_refl) as H.
    rewrite <- specs_dir_eq in H. fold specs_dir in H. by rewrite Hsplit in H. }
  subst tail0. cbn [nonempty fst] in *.
  assert (nonempty head0 && true && negb (path_exists fs head0) = false) as ->.
  { destruct Hparent as [-> | ->]; [by rewrite andb_false_r | done]. }
  unfold mkdir.
  assert (path_exists fs specs_dir = true) as ->.
  { unfold path_exists. unfold isdir in Hdir.
    destruct (fs !! specs_dir) as [x|] eqn:Hl; [| done].
    rewrite bool_decide_eq_true_2 by by eexists. apply orb_true_r. }
  by rewrite Hdir.
Qed.

(** X7.  Feature numbers are consecutive: when create_new_feature has
    returned the feature numbered n, the next feature number is n + 1;
    and when specs/ and the directory that holds it were there before
    the call, n was the next feature number then. *)
Theorem next_number_follows_created_feature
    (E : env) (feature_description : str) (w w' : world) (r : new_feature) :
  FeatureManager.create_new_feature E feature_description w = (Ok r, w') →
  ProjectManager.get_next_feature_number E w'
  = (Ok (int_of_digits (feature_num r) + 1)%N, w')
  ∧ (isdir (fs w) (path_join (project_root E) ["specs"]) = true →
     path_exists (fs w) (dirname (path_join (project_root E) ["specs"])) = true →
     ProjectManager.get_next_feature_number E w
     = (Ok (int_of_digits (feature_num r)), w)).
Proof.
  intros Hcreate.
  apply create_new_feature_files in Hcreate
    as (fs1 & Hspecs & Hdir & -> & Hentry & Hcfg & Hfs & _).
  cbn [feature_num].
  set (specs_dir := path_join (project_root E) ["specs"]) in *.
  set (n := next_feature_number (ProjectManager.specs_listing E fs1)) in *.
  set (name := final_feature_name n feature_description) in *.
  set (dir := specs_dir ++ "/" ++ name) in *.
  pose proof (format_03d_spec n) as (_ & -> & _).
  split.
  - unfold ProjectManager.get_next_feature_number. run. do 2 f_equal.
    assert (Hdir' : isdir (fs w') specs_dir = true).
    { rewrite Hfs. unfold isdir.
      rewrite lookup_insert_ne by apply config_path_not_specs_dir.
      rewrite lookup_insert_ne by apply specs_entry_not_specs_dir.
      exact Hdir. }
    rewrite (specs_listing_next E _ Hdir'). f_equal.
    pose proof (specs_listing_next E _ Hdir) as Hn. fold n in Hn.
    fold specs_dir in Hn.
    assert (Hnum : node_number specs_dir (dir, Dir) = Some n).
    { unfold node_number. cbn [fst snd]. subst dir specs_dir name.
      rewrite child_name_specs_entry.
      rewrite final_feature_name_nonempty.
      rewrite no_slash_str_in by apply final_feature_name_no_slash.
      cbn [andb negb]. apply numbered_final_feature_name. }
    rewrite Hfs.
    rewrite (max_N_perm _ _ (numbers_insert_other E _ _ _
                               (config_path_not_specs_entry E))).
    destruct Hentry as [Hnew | Hold].
    + rewrite (max_N_perm _ _ (numbers_insert_new E fs1 dir Dir Hnew)).
      fold specs_dir. rewrite Hnum. unfold max_N in *. cbn [app foldr]. lia.
    + rewrite (insert_id fs1 dir Dir Hold).
      assert (Hin : n ∈ omap (node_number specs_dir) (map_to_list fs1)).
      { apply list_elem_of_omap. exists (dir, Dir). split; [| done].
        by apply elem_of_map_to_list. }
      apply max_N_bound in Hin. unfold max_N in *. lia.
  - intros Hbefore Hparent.
    pose proof (makedirs_specs_noop E (fs w) Hbefore (or_introl Hparent)) as Hnoop.
    fold specs_dir in Hnoop. rewrite Hnoop in Hspecs. injection Hspecs as <-.
    unfold ProjectManager.get_next_feature_number. by run.
Qed.

Lemma next_number_follows_created_feature_witness :
  (FeatureManager.create_new_feature sample_env "User Auth System!!" sample_world).1
  = Ok {| feature_name := "004-user-auth-system";
          feature_dir := "/work/app/specs/004-user-auth-system";
          feature_num := "004" |}
  ∧ (ProjectManager.get_next_feature_number sample_env
       (FeatureManager.create_new_feature sample_env "User Auth System!!"
          sample_world).2).1 = Ok 5%N
  ∧ (ProjectManager.get_next_feature_number sample_env sample_world).1 = Ok 4%N.
Proof.
  pose (r := {| feature_name := "004-user-auth-system" : str;
                feature_dir := "/work/app/specs/004-user-auth-system" : str;
                feature_num := "004" : str |}).
  pose (w' := (FeatureManager.create_new_feature sample_env "User Auth System!!"
                 sample_world).2).
  assert (Hfst : (FeatureManager.create_new_feature sample_env
                    "User Auth System!!" sample_world).1 = Ok r)
    by (vm_compute; reflexivity).
  pose proof (pair_from_fst _ _ Hfst) as Hcreate. fold w' in Hcreate.
  destruct (next_number_follows_created_feature sample_env "User Auth System!!"
              sample_world w' r Hcreate) as [Hafter Hbefore].
  split_and!.
  - exact Hfst.
  - fold w'. rewrite Hafter. reflexivity.
  - rewrite Hbefore; reflexivity.
Defined.

(** ** After create-new-feature *)

Lemma check_feature_name_valid name w :
  match_feature_prefix name = true →
  FeatureManager.check_feature_name (Some name) w = (Ok true, w).
Proof.
  intros Hok. unfold FeatureManager.check_feature_name.
  destruct name as [|c name]; [done |].
  cbn [truthy negb from_option id]. by rewrite Hok.
Qed.

Lemma get_feature_paths_current E name w :
  config w !! ("current_feature" : str) = Some (Some name) →
  nonempty name = true →
  FeatureManager.get_feature_paths E w
  = (Ok {| PROJECT_ROOT := project_root E;
           CURRENT_FEATURE := name;
           FEATURE_DIR := FeatureManager.get_feature_dir E name;
           FEATURE_SPEC := path_join (FeatureManager.get_feature_dir E name) ["spec.md"];
           IMPL_PLAN := path_join (FeatureManager.get_feature_dir E name) ["plan.md"];
           TASKS := path_join (FeatureManager.get_feature_dir E name) ["tasks.md"];
           RESEARCH := path_join (FeatureManager.get_feature_dir E name) ["research.md"];
           DATA_MODEL := path_join (FeatureManager.get_feature_dir E name) ["data-model.md"];
           QUICKSTART := path_join (FeatureManager.get_feature_dir E name) ["quickstart.md"];
           CONTRACTS_DIR := path_join (FeatureManager.get_feature_dir E name) ["contracts"] |},
     w).
Proof.
  intros Hcfg Hne. unfold FeatureManager.get_feature_paths,
    ProjectManager.get_current_feature, ProjectManager.get_project_root.
  run. rewrite Hcfg. destruct name as [|c name]; [done |]. done.
Qed.

Lemma feature_paths_or_exit_current E name w :
  config w !! ("current_feature" : str) = Some (Some name) →
  nonempty name = true →
  SpecKit.feature_paths_or_exit E w = (FeatureManager.get_feature_paths E w).
Proof.
  intros Hcfg Hne. unfold SpecKit.feature_paths_or_exit, try_except.
  by rewrite (get_feature_paths_current E name w Hcfg Hne).
Qed.

(** X8.  The round trip of create-new-feature and get-feature-paths:
    after create_new_feature has returned, the paths of the current
    feature are those of the feature just created, its directory is
    there, and when the feature number is below 1000 the command
    get-feature-paths prints them, FEATURE_DIR being the directory that
    was created, and changes nothing. *)
Theorem created_feature_is_reported
    (E : env) (feature_description : str) (w w' : world) (r : new_feature) :
  FeatureManager.create_new_feature E feature_description w = (Ok r, w') →
  ∃ paths,
    FeatureManager.get_feature_paths E w' = (Ok paths, w')
    ∧ CURRENT_FEATURE paths = feature_name r
    ∧ FEATURE_DIR paths = feature_dir r
    ∧ FEATURE_SPEC paths = path_join (feature_dir r) ["spec.md"]
    ∧ IMPL_PLAN paths = path_join (feature_dir r) ["plan.md"]
    ∧ isdir (fs w') (feature_dir r) = true
    ∧ ((int_of_digits (feature_num r) < 1000)%N →
       SpecKit.get_feature_paths_command E w'
       = (Ok tt,
          World (fs w') (config w')
            (stdout w'
             ++ [Text ("PROJECT_ROOT: " ++ project_root E);
                 Text ("FEATURE_NAME: " ++ feature_name r);
                 Text ("FEATURE_DIR: " ++ feature_dir r);
                 Text ("FEATURE_SPEC: " ++ path_join (feature_dir r) ["spec.md"]);
                 Text ("IMPL_PLAN: " ++ path_join (feature_dir r) ["plan.md"]);
                 Text ("TASKS: " ++ path_join (feature_dir r) ["tasks.md"])])
            (stderr w'))).
Proof.
  intros Hcreate.
  apply create_new_feature_files in Hcreate
    as (fs1 & Hspecs & Hdir & -> & Hentry & Hcfg & Hfs & _).
  cbn [feature_name feature_dir feature_num].
  set (n := next_feature_number (ProjectManager.specs_listing E fs1)) in *.
  set (name := final_feature_name n feature_description) in *.
  assert (Hne : nonempty name = true) by apply final_feature_name_nonempty.
  assert (Hhead : starts_with "/" name = false)
    by apply no_slash_head, final_feature_name_no_slash.
  assert (Hcur : config w' !! ("current_feature" : str) = Some (Some name))
    by by rewrite Hcfg, lookup_insert_eq.
  pose proof (get_feature_paths_current E name w' Hcur Hne) as Hpaths.
  rewrite (feature_dir_eq E name Hhead) in Hpaths.
  eexists. split; [exact Hpaths |]. cbn [CURRENT_FEATURE FEATURE_DIR FEATURE_SPEC IMPL_PLAN].
  split_and!; try done.
  - rewrite Hfs. unfold isdir.
    rewrite lookup_insert_ne
      by (intros H; symmetry in H; by apply specs_entry_not_config_path in H).
    by rewrite lookup_insert_eq.
  - intros Hn. pose proof (format_03d_spec n) as (_ & Hint & _).
    rewrite Hint in Hn.
    apply (short_number_has_feature_prefix n (slug feature_description)) in Hn.
    fold (final_feature_name n feature_description) in Hn. fold name in Hn.
    unfold SpecKit.get_feature_paths_command. unfold bind at 1.
    rewrite (feature_paths_or_exit_current E name w' Hcur Hne), Hpaths.
    unfold bind at 1. cbn [CURRENT_FEATURE].
    rewrite (check_feature_name_valid name w' Hn). cbn [negb].
    run. cbn [PROJECT_ROOT CURRENT_FEATURE FEATURE_DIR FEATURE_SPEC IMPL_PLAN TASKS].
    by rewrite <- !app_assoc.
Qed.

Lemma created_feature_is_reported_witness :
  (FeatureManager.create_new_feature sample_env "User Auth System!!" sample_world).1
  = Ok {| feature_name := "004-user-auth-system";
          feature_dir := "/work/app/specs/004-user-auth-system";
          feature_num := "004" |}
  ∧ ∃ paths,
      (FeatureManager.get_feature_paths sample_env
         (FeatureManager.create_new_feature sample_env "User Auth System!!"
            sample_world).2).1 = Ok paths
      ∧ FEATURE_DIR paths = "/work/app/specs/004-user-auth-system".
Proof.
  pose (r := {| feature_name := "004-user-auth-system" : str;
                feature_dir := "/work/app/specs/004-user-auth-system" : str;
                feature_num := "004" : str |}).
  pose (w' := (FeatureManager.create_new_feature sample_env "User Auth System!!"
                 sample_world).2).
  assert (Hfst : (FeatureManager.create_new_feature sample_env
                    "User Auth System!!" sample_world).1 = Ok r)
    by (vm_compute; reflexivity).
  pose proof (pair_from_fst _ _ Hfst) as Hcreate. fold w' in Hcreate.
  destruct (created_feature_is_reported sample_env "User Auth System!!"
              sample_world w' r Hcreate) as (paths & Hpaths & _ & Hdir & _).
  split; [exact Hfst |].
  exists paths. fold w'. rewrite Hpaths. split; [reflexivity | exact Hdir].
Defined.

(** X9.  Whatever its outcome, create_new_feature removes nothing and
    overwrites nothing: every file and directory that was there is there
    unchanged afterwards, with the one exception of spec-kit.json, and
    everything else that is new is a directory. *)
Theorem create_new_feature_keeps_files
    (E : env) (feature_description : str) (w : world) :
  let w' := (FeatureManager.create_new_feature E feature_description w).2 in
  (∀ p, p ≠ ProjectManager.config_path E →
        fs w' !! p = fs w !! p
        ∨ (fs w !! p = None ∧ fs w' !! p = Some Dir))
  ∧ stderr w' = stderr w.
Proof.
  unfold FeatureManager.create_new_feature.
  destruct (nonempty (strip feature_description)); cbn [negb].
  2: { run. split; [intros p _; by left | done]. }
  unfold ProjectManager.get_next_feature_number,
    ProjectManager.set_current_feature, ProjectManager._save_config,
    ProjectManager.get_project_root.
  run.
  destruct (makedirs _ (fs w)) as [r1 fs1] eqn:H1.
  apply makedirs_adds_dirs in H1.
  destruct r1 as [e1|]; cbn [fs config stdout stderr snd].
  { split; [intros p _; apply H1 | done]. }
  destruct (makedirs _ fs1) as [r2 fs2] eqn:H2.
  apply makedirs_adds_dirs in H2.
  pose proof (adds_dirs_trans _ _ _ H1 H2) as H12.
  destruct r2 as [e2|]; cbn [fs config stdout stderr snd].
  { split; [intros p _; apply H12 | done]. }
  destruct (write_file _ _ fs2) as [r3 fs3] eqn:H3.
  assert (Hfs3 : ∀ p, p ≠ ProjectManager.config_path E → fs3 !! p = fs2 !! p).
  { intros p Hp. unfold write_file in H3.
    destruct (fs2 !! ProjectManager.config_path E) as [[]|];
      [| | destruct (parent_error fs2 _)]; injection H3 as <- <-;
      try done; by rewrite lookup_insert_ne. }
  destruct r3 as [e3|]; cbn [is_oserror fs config stdout stderr snd].
  - split; [| done]. intros p Hp. rewrite (Hfs3 p Hp). apply H12.
  - split; [| done]. intros p Hp. rewrite (Hfs3 p Hp). apply H12.
Qed.

(** ** Commands that only read *)

Lemma read_only_ret {A} (a : A) : read_only (ret a).
Proof. by intros w. Qed.

Lemma read_only_raise {A} e : read_only (@raise A e).
Proof. by intros w. Qed.

Lemma read_only_exit {A} status : read_only (@SpecKit.exit A status).
Proof. by intros w. Qed.

Lemma read_only_print l : read_only (print l).
Proof. by intros w. Qed.

Lemma read_only_get_fs : read_only get_fs.
Proof. by intros w. Qed.

Lemma read_only_get_config : read_only get_config.
Proof. by intros w. Qed.

Lemma read_only_bind {A B} (c : M A) (k : A → M B) :
  read_only c → (∀ a, read_only (k a)) → read_only (bind c k).
Proof.
  intros Hc Hk w. unfold bind. specialize (Hc w).
  destruct (c w) as [[a|e] w1]; cbn [snd] in *; [| done].
  destruct (Hk a w1) as (H1 & H2 & H3). destruct Hc as (H4 & H5 & H6).
  split_and!; congruence.
Qed.

Lemma read_only_try_except {A} (c : M A) h :
  read_only c → (∀ e handler, h e = Some handler → read_only handler) →
  read_only (try_except c h).
Proof.
  intros Hc Hh w. unfold try_except. specialize (Hc w).
  destruct (c w) as [[a|e] w1]; cbn [snd] in *; [done |].
  destruct (h e) as [handler|] eqn:He; [| done].
  destruct (Hh e handler He w1) as (H1 & H2 & H3). destruct Hc as (H4 & H5 & H6).
  split_and!; congruence.
Qed.

Lemma read_only_print_all ls : read_only (SpecKit.print_all ls).
Proof. intros w. by rewrite print_all_state. Qed.

Lemma read_only_when b (c : M unit) : read_only c → read_only (when b c).
Proof. intros Hc. destruct b; [done | apply read_only_ret]. Qed.

Ltac read_only_step :=
  match goal with
  | |- read_only (bind _ _) => apply read_only_bind; [| intros ?]
  | |- read_only (ret _) => apply read_only_ret
  | |- read_only (raise _) => apply read_only_raise
  | |- read_only (SpecKit.exit _) => apply read_only_exit
  | |- read_only (print _) => apply read_only_print
  | |- read_only get_fs => apply read_only_get_fs
  | |- read_only get_config => apply read_only_get_config
  | |- read_only (SpecKit.print_all _) => apply read_only_print_all
  | |- read_only (when _ _) => apply read_only_when
  | |- read_only (if ?b then _ else _) => destruct b
  | |- read_only (match ?l with [] => _ | _ :: _ => _ end) => destruct l
  end.

Lemma read_only_check_feature_name v :
  read_only (FeatureManager.check_feature_name v).
Proof.
  unfold FeatureManager.check_feature_name. repeat read_only_step.
Qed.

Lemma read_only_get_current_feature : read_only ProjectManager.get_current_feature.
Proof. unfold ProjectManager.get_current_feature. repeat read_only_step. Qed.

Lemma read_only_get_feature_paths E : read_only (FeatureManager.get_feature_paths E).
Proof.
  unfold FeatureManager.get_feature_paths.
  apply read_only_bind; [apply read_only_get_current_feature | intros v].
  repeat read_only_step.
Qed.

Lemma read_only_feature_paths_or_exit E : read_only (SpecKit.feature_paths_or_exit E).
Proof.
  unfold SpecKit.feature_paths_or_exit.
  apply read_only_try_except; [apply read_only_get_feature_paths |].
  intros [] handler; intros [= <-]; repeat read_only_step.
Qed.

Lemma read_only_check_file path description :
  read_only (FileManager.check_file path description).
Proof. unfold FileManager.check_file. repeat read_only_step. Qed.

Lemma read_only_check_dir path description :
  read_only (FileManager.check_dir path description).
Proof. unfold FileManager.check_dir. repeat read_only_step. Qed.

(** X10.  The commands check-task-prerequisites, get-feature-paths,
    get-current-feature and list-features only read: whatever the state
    of the project and whatever their outcome, the files, the
    configuration and the error stream are afterwards as they were
    before. *)
Theorem reporting_commands_change_nothing (E : env) (json_mode : bool) :
  read_only (SpecKit.check_task_prerequisites E json_mode)
  ∧ read_only (SpecKit.get_feature_paths_command E)
  ∧ read_only (SpecKit.get_current_feature_info E)
  ∧ read_only (SpecKit.list_available_features E).
Proof.
  split_and!.
  - unfold SpecKit.check_task_prerequisites.
    apply read_only_bind; [apply read_only_feature_paths_or_exit | intros paths].
    apply read_only_bind; [apply read_only_check_feature_name | intros valid].
    repeat first [ apply read_only_check_file | apply read_only_check_dir
                 | read_only_step ].
  - unfold SpecKit.get_feature_paths_command.
    apply read_only_bind; [apply read_only_feature_paths_or_exit | intros paths].
    apply read_only_bind; [apply read_only_check_feature_name | intros valid].
    repeat read_only_step.
  - unfold SpecKit.get_current_feature_info.
    apply read_only_bind; [apply read_only_get_current_feature | intros v].
    destruct (negb (truthy v)); [repeat read_only_step |].
    apply read_only_bind; [apply read_only_print | intros _].
    apply read_only_try_except.
    + apply read_only_bind; [apply read_only_get_feature_paths | intros paths].
      repeat read_only_step.
    + intros [] handler; intros [= <-]; repeat read_only_step.
  - unfold SpecKit.list_available_features.
    apply read_only_bind; [apply read_only_get_current_feature | intros v].
    repeat read_only_step.
Qed.

(** ** Without a current feature *)

Lemma get_current_feature_value w :
  ProjectManager.get_current_feature w = (Ok (current_of (config w)), w).
Proof. done. Qed.

Lemma feature_paths_or_exit_none E w :
  truthy (current_of (config w)) = false →
  SpecKit.feature_paths_or_exit E w
  = (Raise (SystemExit 1),
     World (fs w) (config w)
       (stdout w ++ [Text "ERROR: No current feature set. Run 'create-new-feature' first."])
       (stderr w)).
Proof.
  intros Hnone. unfold SpecKit.feature_paths_or_exit,
    FeatureManager.get_feature_paths, try_except.
  unfold bind at 1. rewrite get_current_feature_value, Hnone. cbn [negb].
  by run.
Qed.

Lemma truthy_Some v : truthy v = true → ∃ name, v = Some name ∧ nonempty name = true.
Proof. destruct v as [[|c name]|]; try done. intros _. by eexists. Qed.

Lemma feature_paths_or_exit_some E w name :
  current_of (config w) = Some name → nonempty name = true →
  SpecKit.feature_paths_or_exit E w
  = (Ok {| PROJECT_ROOT := project_root E;
           CURRENT_FEATURE := name;
           FEATURE_DIR := FeatureManager.get_feature_dir E name;
           FEATURE_SPEC := path_join (FeatureManager.get_feature_dir E name) ["spec.md"];
           IMPL_PLAN := path_join (FeatureManager.get_feature_dir E name) ["plan.md"];
           TASKS := path_join (FeatureManager.get_feature_dir E name) ["tasks.md"];
           RESEARCH := path_join (FeatureManager.get_feature_dir E name) ["research.md"];
           DATA_MODEL := path_join (FeatureManager.get_feature_dir E name) ["data-model.md"];
           QUICKSTART := path_join (FeatureManager.get_feature_dir E name) ["quickstart.md"];
           CONTRACTS_DIR := path_join (FeatureManager.get_feature_dir E name) ["contracts"] |},
     w).
Proof.
  intros Hcur Hne. unfold SpecKit.feature_paths_or_exit,
    FeatureManager.get_feature_paths, try_except.
  unfold bind at 1. rewrite get_current_feature_value, Hcur.
  destruct name as [|c name]; [done |]. done.
Qed.

(** X11.  Without a current feature, that is when the configuration
    holds no current_feature, or None, or the empty string, each of the
    commands check-task-prerequisites, get-feature-paths, setup-plan and
    update-agent-context prints the one line that says so and exits with
    status 1, and get-current-feature prints its two lines and returns;
    none of them touches a file or the configuration. *)
Theorem commands_need_a_current_feature
    (E : env) (json_mode : bool) (agent_type : pyval) (w : world) :
  truthy (current_of (config w)) = false →
  let stopped :=
    (Raise (SystemExit 1) : result unit,
     World (fs w) (config w)
       (stdout w ++ [Text "ERROR: No current feature set. Run 'create-new-feature' first."])
       (stderr w)) in
  SpecKit.check_task_prerequisites E json_mode w = stopped
  ∧ SpecKit.get_feature_paths_command E w = stopped
  ∧ SpecKit.setup_plan E json_mode w = stopped
  ∧ SpecKit.update_agent_context E agent_type w = stopped
  ∧ SpecKit.get_current_feature_info E w
    = (Ok tt,
       World (fs w) (config w)
         (stdout w ++ [Text "No current feature set.";
                       Text "Use 'create-new-feature' to create a new feature or 'set-current-feature' to switch to an existing one."])
         (stderr w)).
Proof.
  intros Hnone stopped. pose proof (feature_paths_or_exit_none E w Hnone) as Hexit.
  split_and!.
  - unfold SpecKit.check_task_prerequisites. unfold bind at 1. by rewrite Hexit.
  - unfold SpecKit.get_feature_paths_command. unfold bind at 1. by rewrite Hexit.
  - unfold SpecKit.setup_plan. unfold bind at 1. by rewrite Hexit.
  - unfold SpecKit.update_agent_context. unfold bind at 1. by rewrite Hexit.
  - unfold SpecKit.get_current_feature_info. unfold bind at 1.
    rewrite get_current_feature_value, Hnone. cbn [negb]. run.
    by rewrite <- app_assoc.
Qed.

Lemma commands_need_a_current_feature_witness :
  truthy (current_of (∅ : gmap str pyval)) = false
  ∧ SpecKit.setup_plan sample_env true (World sample_fs ∅ [] [])
    = (Raise (SystemExit 1),
       World sample_fs ∅
         [Text "ERROR: No current feature set. Run 'create-new-feature' first."] []).
Proof.
  split; [reflexivity |].
  apply (commands_need_a_current_feature sample_env true None
           (World sample_fs ∅ [] [])).
  reflexivity.
Defined.

(** ** The prerequisites of the tasks *)

Lemma check_feature_name_invalid name w :
  nonempty name = true → match_feature_prefix name = false →
  FeatureManager.check_feature_name (Some name) w
  = (Ok false,
     World (fs w) (config w)
       (stdout w ++ [Text ("ERROR: Invalid feature name: " ++ name);
                     Text "Feature names should be like: 001-feature-name"])
       (stderr w)).
Proof.
  intros Hne Hbad. unfold FeatureManager.check_feature_name.
  destruct name as [|c name]; [done |]. cbn [truthy negb from_option id].
  rewrite Hbad. cbn [negb]. run. by rewrite <- app_assoc.
Qed.

Lemma check_file_state path description w :
  FileManager.check_file path description w
  = (Ok (isfile (fs w) path),
     World (fs w) (config w) (stdout w ++ [Mark (isfile (fs w) path) description])
       (stderr w)).
Proof.
  unfold FileManager.check_file. run. by destruct (isfile (fs w) path).
Qed.

Lemma check_dir_state path description w :
  let found := isdir (fs w) path && bool_decide (listdir (fs w) path ≠ []) in
  FileManager.check_dir path description w
  = (Ok found,
     World (fs w) (config w) (stdout w ++ [Mark found description]) (stderr w)).
Proof.
  intros found. unfold FileManager.check_dir. run. fold found. by destruct found.
Qed.

(** X12.  check-task-prerequisites succeeds exactly when there is a
    current feature whose name has the form NNN-, whose directory is
    there and which has a plan.md; otherwise it exits with status 1.
    When it succeeds, its two modes say the same: the JSON mode prints
    one object with the feature directory and the list of the design
    documents that are there, and the text mode prints the directory,
    a heading and, for research.md, data-model.md, contracts/ and
    quickstart.md in this order, one line that is marked as found
    exactly when the document is in that list. *)
Theorem check_task_prerequisites_outcome (E : env) (w : world) :
  (∀ json_mode,
     (SpecKit.check_task_prerequisites E json_mode w).1
     = if prerequisites_met E w then Ok tt else Raise (SystemExit 1))
  ∧ (prerequisites_met E w = true →
     ∃ name, current_of (config w) = Some name ∧
       let dir := FeatureManager.get_feature_dir E name in
       let docs := available_docs (fs w) dir in
       SpecKit.check_task_prerequisites E true w
       = (Ok tt,
          World (fs w) (config w)
            (stdout w ++ [Json [("FEATURE_DIR" : str, JString dir);
                                ("AVAILABLE_DOCS" : str, JList docs)]])
            (stderr w))
       ∧ SpecKit.check_task_prerequisites E false w
         = (Ok tt,
            World (fs w) (config w)
              (stdout w ++ [Text ("FEATURE_DIR:" ++ dir);
                            Text "AVAILABLE_DOCS:";
                            Mark (is_in "research.md" docs) "research.md";
                            Mark (is_in "data-model.md" docs) "data-model.md";
                            Mark (is_in "contracts/" docs) "contracts/";
                            Mark (is_in "quickstart.md" docs) "quickstart.md"])
              (stderr w))).
Proof.
  unfold prerequisites_met.
  destruct (truthy (current_of (config w))) eqn:Htruthy.
  2: { pose proof (feature_paths_or_exit_none E w Htruthy) as Hexit.
       assert (Hbad : match current_of (config w) with
                      | Some name =>
                          match_feature_prefix name
                          && isdir (fs w) (FeatureManager.get_feature_dir E name)
                          && isfile (fs w)
                               (path_join (FeatureManager.get_feature_dir E name) ["plan.md"])
                      | None => false
                      end = false).
       { destruct (current_of (config w)) as [[|c name]|]; done. }
       rewrite Hbad. split; [| done]. intros json_mode.
       unfold SpecKit.check_task_prerequisites. unfold bind at 1. by rewrite Hexit. }
  apply truthy_Some in Htruthy as (name & Hcur & Hne). rewrite Hcur.
  pose proof (feature_paths_or_exit_some E w name Hcur Hne) as Hpaths.
  set (dir := FeatureManager.get_feature_dir E name) in *.
  assert (Hrun : ∀ json_mode,
            if match_feature_prefix name && isdir (fs w) dir
               && isfile (fs w) (path_join dir ["plan.md"])
            then
              SpecKit.check_task_prerequisites E json_mode w
              = if json_mode then
                  (Ok tt,
                   World (fs w) (config w)
                     (stdout w ++ [Json [("FEATURE_DIR" : str, JString dir);
                                         ("AVAILABLE_DOCS" : str,
                                          JList (available_docs (fs w) dir))]])
                     (stderr w))
                else
                  (Ok tt,
                   World (fs w) (config w)
                     (stdout w
                      ++ [Text ("FEATURE_DIR:" ++ dir);
                          Text "AVAILABLE_DOCS:";
                          Mark (isfile (fs w) (path_join dir ["research.md"])) "research.md";
                          Mark (isfile (fs w) (path_join dir ["data-model.md"])) "data-model.md";
                          Mark (isdir (fs w) (path_join dir ["contracts"])
                                && bool_decide (listdir (fs w) (path_join dir ["contracts"]) ≠ []))
                               "contracts/";
                          Mark (isfile (fs w) (path_join dir ["quickstart.md"])) "quickstart.md"])
                     (stderr w))
            else ∃ w', SpecKit.check_task_prerequisites E json_mode w
                       = (Raise (SystemExit 1), w')).
  { intros json_mode.
    assert (Hstart : SpecKit.check_task_prerequisites E json_mode w
              = (valid <- FeatureManager.check_feature_name (Some name) ;;
                 if negb valid then SpecKit.exit 1 else
                 fs <- get_fs ;;
                 if negb (isdir fs dir) then
                   print (Text ("ERROR: Feature directory not found: " ++ dir)) ;;
                   print (Text "Run 'create-new-feature' first to create the feature structure.") ;;
                   SpecKit.exit 1
                 else if negb (isfile fs (path_join dir ["plan.md"])) then
                   print (Text ("ERROR: plan.md not found in " ++ dir)) ;;
                   print (Text "Run 'setup-plan' first to create the plan.") ;;
                   SpecKit.exit 1
                 else if json_mode then
                   print (Json [("FEATURE_DIR" : str, JString dir);
                                ("AVAILABLE_DOCS" : str,
                                 JList (available_docs fs dir))])
                 else
                   print (Text ("FEATURE_DIR:" ++ dir)) ;;
                   print (Text "AVAILABLE_DOCS:") ;;
                   FileManager.check_file (path_join dir ["research.md"]) "research.md" ;;
                   FileManager.check_file (path_join dir ["data-model.md"]) "data-model.md" ;;
                   FileManager.check_dir (path_join dir ["contracts"]) "contracts/" ;;
                   FileManager.check_file (path_join dir ["quickstart.md"]) "quickstart.md" ;;
                   ret tt) w).
    { unfold SpecKit.check_task_prerequisites. unfold bind at 1.
      by rewrite Hpaths. }
    rewrite Hstart. clear Hstart.
    destruct (match_feature_prefix name) eqn:Hprefix; cbn [andb].
    2: { unfold bind at 1.
         rewrite (check_feature_name_invalid name w Hne Hprefix).
         cbn [negb]. by eexists. }
    destruct (isdir (fs w) dir) eqn:Hdir; cbn [andb].
    2: { unfold bind at 1.
         rewrite (check_feature_name_valid name w Hprefix). cbn [negb].
         unfold bind at 1. unfold get_fs at 1. rewrite Hdir. cbn [negb].
         run. by eexists. }
    destruct (isfile (fs w) (path_join dir ["plan.md"])) eqn:Hplan.
    2: { unfold bind at 1.
         rewrite (check_feature_name_valid name w Hprefix). cbn [negb].
         unfold bind at 1. unfold get_fs at 1. rewrite Hdir, Hplan. cbn [negb].
         run. by eexists. }
    unfold bind at 1.
    rewrite (check_feature_name_valid name w Hprefix). cbn [negb].
    unfold bind at 1. unfold get_fs at 1. rewrite Hdir, Hplan. cbn [negb].
    destruct json_mode.
    - by run.
    - unfold bind. unfold print at 1 2. cbn [fs config stdout stderr].
      rewrite !check_file_state. cbn [fs config stdout stderr].
      rewrite check_dir_state. cbn [fs config stdout stderr].
      rewrite !check_file_state. cbn [fs config stdout stderr].
      unfold ret. by rewrite <- !app_assoc. }
  split.
  - intros json_mode. specialize (Hrun json_mode).
    destruct (match_feature_prefix name && isdir (fs w) dir
              && isfile (fs w) (path_join dir ["plan.md"])).
    + rewrite Hrun. by destruct json_mode.
    + destruct Hrun as [w' ->]. done.
  - intros Hmet. exists name. split; [done |]. cbv zeta. fold dir.
    pose proof (Hrun true) as Hjson. pose proof (Hrun false) as Htext.
    rewrite Hmet in Hjson, Htext. rewrite Hjson, Htext. split; [done |].
    do 3 f_equal. unfold available_docs, is_in.
    destruct (isfile (fs w) (path_join dir ["research.md"]));
      destruct (isfile (fs w) (path_join dir ["data-model.md"]));
      destruct (isdir (fs w) (path_join dir ["contracts"])
                && bool_decide (listdir (fs w) (path_join dir ["contracts"]) ≠ []));
      destruct (isfile (fs w) (path_join dir ["quickstart.md"]));
      reflexivity.
Qed.

Lemma check_task_prerequisites_outcome_witness :
  prerequisites_met sample_env world_with_plan = true
  ∧ (SpecKit.check_task_prerequisites sample_env true world_with_plan).1 = Ok tt
  ∧ available_docs (fs world_with_plan) "/work/app/specs/003-b" = [].
Proof.
  assert (Hmet : prerequisites_met sample_env world_with_plan = true)
    by (vm_compute; reflexivity).
  destruct (check_task_prerequisites_outcome sample_env world_with_plan)
    as [_ Hdocs].
  destruct (Hdocs Hmet) as (name & Hcur & Hjson & _).
  split_and!.
  - exact Hmet.
  - rewrite Hjson. reflexivity.
  - vm_compute. reflexivity.
Defined.

(** ** Saving the configuration *)

Lemma write_file_result path content fs :
  write_file path content fs
  = (write_error fs path,
     match write_error fs path with
     | None => <[path := File content]> fs
     | Some _ => fs
     end).
Proof.
  unfold write_file, write_error, dirname.
  destruct (fs !! path) as [[]|]; try done.
  by destruct (parent_error fs _).
Qed.

Lemma save_config_result E w :
  ProjectManager._save_config E w
  = match write_error (fs w) (ProjectManager.config_path E) with
    | None =>
        (Ok tt,
         World (<[ProjectManager.config_path E := File (json_dump E (config w))]> (fs w))
           (config w) (stdout w) (stderr w))
    | Some e =>
        (Raise (OSError e (ProjectManager.config_path E)),
         World (fs w) (config w)
           (stdout w ++ [TextExn ("Error: Could not save config to "
                                  ++ ProjectManager.config_path E ++ ": ")
                           (OSError e (ProjectManager.config_path E))])
           (stderr w))
    end.
Proof.
  unfold ProjectManager._save_config. run. rewrite write_file_result.
  by destruct (write_error (fs w) _).
Qed.

Lemma set_current_feature_run E name w :
  match_feature_prefix name = true →
  isdir (fs w) (FeatureManager.get_feature_dir E name) = true →
  SpecKit.set_current_feature E name w
  = (ProjectManager._save_config E ;;
     print (Text ("Current feature set to: " ++ name)))
      (World (fs w) (<[("current_feature" : str) := Some name]> (config w))
         (stdout w) (stderr w)).
Proof.
  intros Hprefix Hdir. unfold SpecKit.set_current_feature.
  unfold bind at 1. rewrite (check_feature_name_valid name w Hprefix).
  cbn [negb]. unfold bind at 1. unfold get_fs at 1. rewrite Hdir. cbn [negb].
  unfold ProjectManager.set_current_feature. by run.
Qed.

(** X13.  set-current-feature on a name of the form NNN- whose directory
    is there, in a project whose spec-kit.json can be written: the
    command succeeds, the current feature of the configuration is the
    name and every other key of the configuration is kept, spec-kit.json
    holds the dump of the new configuration, one line is printed, and no
    other file changes. *)
Theorem set_current_feature_switches (E : env) (name : str) (w : world) :
  match_feature_prefix name = true →
  isdir (fs w) (FeatureManager.get_feature_dir E name) = true →
  write_error (fs w) (ProjectManager.config_path E) = None →
  ∃ w', SpecKit.set_current_feature E name w = (Ok tt, w')
    ∧ config w' = <[("current_feature" : str) := Some name]> (config w)
    ∧ ProjectManager.get_current_feature w' = (Ok (Some name), w')
    ∧ (∀ key, key ≠ ("current_feature" : str) → config w' !! key = config w !! key)
    ∧ fs w' = <[ProjectManager.config_path E := File (json_dump E (config w'))]> (fs w)
    ∧ stdout w' = stdout w ++ [Text ("Current feature set to: " ++ name)]
    ∧ stderr w' = stderr w.
Proof.
  intros Hprefix Hdir Hwrite.
  rewrite (set_current_feature_run E name w Hprefix Hdir).
  unfold bind at 1. rewrite save_config_result. cbn [fs config stdout stderr].
  rewrite Hwrite. eexists. split; [reflexivity |]. cbn [fs config stdout stderr].
  split_and!; try done.
  - rewrite get_current_feature_value. cbn [config]. unfold current_of.
    by rewrite lookup_insert_eq.
  - intros key Hkey. by rewrite lookup_insert_ne.
Qed.

Lemma set_current_feature_switches_witness :
  ∃ w', SpecKit.set_current_feature sample_env "001-a" sample_world = (Ok tt, w')
        ∧ ProjectManager.get_current_feature w' = (Ok (Some ("001-a" : str)), w').
Proof.
  destruct (set_current_feature_switches sample_env "001-a" sample_world)
    as (w' & Hrun & _ & Hcur & _).
  - reflexivity.
  - vm_compute. reflexivity.
  - vm_compute. reflexivity.
  - exists w'. split; [exact Hrun | exact Hcur].
Defined.

(** X14.  When spec-kit.json cannot be written (it is a directory, or
    the directory that should hold it is missing), set-current-feature
    on a valid name of a feature that is there reports the error on the
    standard output and raises it again, so the process ends with status
    1: no file has changed and the success line is not printed, but the
    configuration in memory already names the new feature. *)
Theorem set_current_feature_reports_save_error
    (E : env) (name : str) (w : world) (e : oserror) :
  match_feature_prefix name = true →
  isdir (fs w) (FeatureManager.get_feature_dir E name) = true →
  write_error (fs w) (ProjectManager.config_path E) = Some e →
  let error := OSError e (ProjectManager.config_path E) in
  SpecKit.set_current_feature E name w
  = (Raise error,
     World (fs w) (<[("current_feature" : str) := Some name]> (config w))
       (stdout w ++ [TextExn ("Error: Could not save config to "
                              ++ ProjectManager.config_path E ++ ": ") error])
       (stderr w))
  ∧ exit_status error = 1.
Proof.
  intros Hprefix Hdir Hwrite error. split; [| done].
  rewrite (set_current_feature_run E name w Hprefix Hdir).
  unfold bind at 1. rewrite save_config_result. cbn [fs config stdout stderr].
  by rewrite Hwrite.
Qed.

Lemma set_current_feature_reports_save_error_witness :
  (SpecKit.set_current_feature sample_env "001-a"
     (World (<[("/work/app/spec-kit.json" : str) := Dir]> sample_fs)
        sample_config [] [])).1
  = Raise (OSError IsADirectoryError "/work/app/spec-kit.json").
Proof.
  pose (w := World (<[("/work/app/spec-kit.json" : str) := Dir]> sample_fs)
               sample_config [] []).
  destruct (set_current_feature_reports_save_error sample_env "001-a" w
              IsADirectoryError) as [Hrun _].
  - reflexivity.
  - vm_compute. reflexivity.
  - vm_compute. reflexivity.
  - fold w. rewrite Hrun. reflexivity.
Defined.

(** ** Setting up the plan *)

Lemma copy2_file template target fs bytes :
  fs !! template = Some (File bytes) →
  isdir fs target = false → target ≠ template →
  copy2 template target fs = write_file target bytes fs.
Proof.
  intros Htemplate Hdir Hne. unfold copy2. rewrite Hdir.
  unfold str_eqb. rewrite bool_decide_eq_false_2 by done. cbn [andb].
  unfold read_file. by rewrite Htemplate.
Qed.

Lemma last_not_slash name :
  no_slash name = true → nonempty name = true →
  ∃ d c, name = d ++ [c] ∧ eqc c "/" = false.
Proof.
  intros Hname Hne. destruct (rev name) as [|c r] eqn:Hr.
  { apply (f_equal (@rev _)) in Hr. rewrite rev_involutive in Hr.
    by rewrite Hr in Hne. }
  apply (f_equal (@rev _)) in Hr. rewrite rev_involutive in Hr. cbn in Hr.
  exists (rev r), c. split; [done |].
  unfold no_slash in Hname. rewrite Hr, forallb_app in Hname.
  apply andb_true_iff in Hname as [_ Hc]. cbn in Hc.
  rewrite andb_true_r in Hc. by apply negb_true_iff in Hc.
Qed.

Section FeatureFiles.
Variable E : env.
Variable name : str.
Hypothesis Hname : no_slash name = true.
Hypothesis Hne : nonempty name = true.
Local Abbreviation feature_dir := (FeatureManager.get_feature_dir E name).

Lemma feature_dir_last :
  ∃ d c, feature_dir = d ++ [c] ∧ eqc c "/" = false.
Proof.
  destruct (last_not_slash name Hname Hne) as (d & c & Hd & Hc).
  exists (path_join (project_root E) ["specs"] ++ "/" ++ d), c.
  split; [| done]. rewrite feature_dir_eq by by apply no_slash_head.
  rewrite Hd. by rewrite <- !app_assoc.
Qed.

(** A document of the feature directory. *)
Lemma feature_file_eq file :
  starts_with "/" file = false →
  path_join feature_dir [file] = feature_dir ++ "/" ++ file.
Proof.
  intros Hfile. destruct feature_dir_last as (d & c & Hd & Hc).
  change (path_join feature_dir [file]) with (join2 feature_dir file).
  rewrite join2_relative by done.
  rewrite (app_assoc feature_dir). f_equal. unfold dir_prefix.
  rewrite Hd, ends_with_slash_snoc, Hc.
  assert (nonempty (d ++ [c]) = true) as -> by by destruct d.
  done.
Qed.

Lemma feature_file_split file :
  no_slash file = true →
  path_split (path_join feature_dir [file]) = (feature_dir, file).
Proof.
  intros Hfile. rewrite feature_file_eq by by apply no_slash_head.
  destruct feature_dir_last as (d & c & -> & Hc). by apply path_split_entry.
Qed.

Lemma feature_file_not_template file template_name :
  starts_with "/" file = false → starts_with "/" template_name = false →
  path_join feature_dir [file]
  ≠ path_join (project_root E) ["templates"; template_name].
Proof.
  intros Hfile Htemplate. rewrite feature_file_eq by done.
  rewrite feature_dir_eq by by apply no_slash_head.
  rewrite specs_dir_eq.
  change (path_join (project_root E) ["templates"; template_name])
    with (join2 (join2 (project_root E) "templates") template_name).
  rewrite (join2_relative _ template_name) by done.
  rewrite (join2_relative _ "templates") by done.
  unfold dir_prefix at 2.
  change (dir_prefix (project_root E) ++ "templates")
    with (dir_prefix (project_root E) ++ "template" ++ ["s"%char]).
  rewrite ends_with_slash_app.
  assert (nonempty (dir_prefix (project_root E) ++ "template" ++ ["s"%char]) = true)
    as -> by by destruct (dir_prefix (project_root E)).
  cbn [negb orb]. change (eqc "s" "/") with false. cbn iota.
  rewrite <- !app_assoc. intros H. by apply app_inv_head in H.
Qed.

End FeatureFiles.

(** X15.  setup-plan for a current feature NNN-name that has its
    directory under specs/, when plan.md is not a directory: the command
    succeeds and plan.md is a file afterwards.  With a template
    templates/plan-template.md, plan.md holds the bytes of the template,
    whatever it held before; without one, a warning goes to the error
    stream and plan.md keeps its content, or is made empty when it was
    not there.  Nothing else changes in the files, and nothing in the
    configuration; the paths are printed as one JSON object or as four
    lines. *)
Theorem setup_plan_result
    (E : env) (json_mode : bool) (name : str) (w : world) :
  let dir := FeatureManager.get_feature_dir E name in
  let plan := path_join dir ["plan.md"] in
  let template := path_join (project_root E) ["templates"; "plan-template.md"] in
  current_of (config w) = Some name →
  match_feature_prefix name = true →
  no_slash name = true →
  isdir (fs w) (path_join (project_root E) ["specs"]) = true →
  isdir (fs w) dir = true →
  isdir (fs w) plan = false →
  ∃ w', SpecKit.setup_plan E json_mode w = (Ok tt, w')
    ∧ config w' = config w
    ∧ isfile (fs w') plan = true
    ∧ match fs w !! template with
      | Some (File bytes) =>
          fs w' = <[plan := File bytes]> (fs w) ∧ stderr w' = stderr w
      | _ =>
          stderr w' = stderr w
                      ++ [Text ("Warning: Template not found at " ++ template)]
          ∧ fs w' = match fs w !! plan with
                    | Some _ => fs w
                    | None => <[plan := File []]> (fs w)
                    end
      end
    ∧ stdout w'
      = stdout w
        ++ if json_mode
           then [Json [("FEATURE_SPEC" : str, JString (path_join dir ["spec.md"]));
                       ("IMPL_PLAN" : str, JString plan);
                       ("SPECS_DIR" : str, JString dir);
                       ("FEATURE_NAME" : str, JString name)]]
           else [Text ("FEATURE_SPEC: " ++ path_join dir ["spec.md"]);
                 Text ("IMPL_PLAN: " ++ plan);
                 Text ("SPECS_DIR: " ++ dir);
                 Text ("FEATURE_NAME: " ++ name)].
Proof.
  intros dir plan template Hcur Hprefix Hname Hspecs Hdir Hplan.
  assert (Hne : nonempty name = true) by by destruct name.
  assert (Hmk : makedirs dir (fs w) = (None, fs w)).
  { subst dir. rewrite feature_dir_eq by by apply no_slash_head.
    rewrite (makedirs_entry E name (fs w) Hname Hne Hspecs).
    rewrite <- (feature_dir_eq E name) by by apply no_slash_head.
    unfold isdir in Hdir.
    by destruct (fs w !! FeatureManager.get_feature_dir E name) as [[]|]. }
  assert (Hparent : parent_error (fs w) (dirname plan) = None).
  { unfold dirname. subst plan dir. rewrite feature_file_split by done.
    cbn [fst]. unfold parent_error. unfold isdir in Hdir.
    destruct (forallb is_slash _); [done |].
    by destruct (fs w !! FeatureManager.get_feature_dir E name) as [[]|]. }
  assert (Hwrite : write_error (fs w) plan = None).
  { unfold write_error. unfold isdir in Hplan.
    by destruct (fs w !! plan) as [[]|]. }
  assert (Hdiff : plan ≠ template)
    by by apply feature_file_not_template.
  unfold SpecKit.setup_plan. unfold bind at 1.
  rewrite (feature_paths_or_exit_some E w name Hcur Hne).
  cbn [CURRENT_FEATURE FEATURE_DIR FEATURE_SPEC IMPL_PLAN].
  unfold bind at 1. rewrite (check_feature_name_valid name w Hprefix).
  cbn [negb]. fold dir plan.
  unfold bind at 1. unfold fs_call at 1. rewrite Hmk.
  unfold bind at 1. unfold FileManager.copy_template,
    ProjectManager.get_project_root. fold template.
  assert (Hsame : World (fs w) (config w) (stdout w) (stderr w) = w)
    by by destruct w.
  rewrite Hsame. unfold bind at 1. unfold get_fs at 1.
  destruct (fs w !! template) as [[bytes|]|] eqn:Htemplate.
  - assert (isfile (fs w) template = true) as ->
      by (unfold isfile; by rewrite Htemplate).
    unfold bind at 1. unfold fs_call at 1.
    rewrite (copy2_file template plan (fs w) bytes Htemplate Hplan Hdiff).
    rewrite write_file_result, Hwrite. unfold ret at 1.
    destruct json_mode; run; (eexists; split; [reflexivity |]);
      cbn [fs config stdout stderr]; split_and!; try done;
      try (unfold isfile; by rewrite lookup_insert_eq);
      by rewrite <- !app_assoc.
  - assert (isfile (fs w) template = false) as ->
      by (unfold isfile; by rewrite Htemplate).
    unfold bind at 1. unfold print_err at 1. unfold bind at 1.
    unfold fs_call at 1. cbn [fs config stdout stderr]. unfold touch.
    fold (dirname plan). rewrite Hparent. unfold ret at 1.
    unfold isdir in Hplan.
    destruct (fs w !! plan) as [[old|]|] eqn:Hold; try done;
      destruct json_mode; run; (eexists; split; [reflexivity |]);
      cbn [fs config stdout stderr]; split_and!; try done;
      try (unfold isfile; by rewrite ?Hold, ?lookup_insert_eq);
      by rewrite <- !app_assoc.
  - assert (isfile (fs w) template = false) as ->
      by (unfold isfile; by rewrite Htemplate).
    unfold bind at 1. unfold print_err at 1. unfold bind at 1.
    unfold fs_call at 1. cbn [fs config stdout stderr]. unfold touch.
    fold (dirname plan). rewrite Hparent. unfold ret at 1.
    unfold isdir in Hplan.
    destruct (fs w !! plan) as [[old|]|] eqn:Hold; try done;
      destruct json_mode; run; (eexists; split; [reflexivity |]);
      cbn [fs config stdout stderr]; split_and!; try done;
      try (unfold isfile; by rewrite ?Hold, ?lookup_insert_eq);
      by rewrite <- !app_assoc.
Qed.

Lemma setup_plan_result_witness :
  ∃ w', SpecKit.setup_plan sample_env false world_with_template = (Ok tt, w')
        ∧ fs w' !! ("/work/app/specs/003-b/plan.md" : str) = Some (File "# Plan").
Proof.
  destruct (setup_plan_result sample_env false "003-b" world_with_template)
    as (w' & Hrun & _ & _ & Hfs & _).
  - reflexivity.
  - reflexivity.
  - reflexivity.
  - vm_compute. reflexivity.
  - vm_compute. reflexivity.
  - vm_compute. reflexivity.
  - exists w'. split; [exact Hrun |].
    assert (Htemplate : fs world_with_template
                        !! path_join (project_root sample_env)
                             ["templates"; "plan-template.md"]
                        = Some (File "# Plan")) by (vm_compute; reflexivity).
    rewrite Htemplate in Hfs. destruct Hfs as [-> _].
    apply lookup_insert_eq.
Defined.

(** ** What update-agent-context may write *)

Section WritesWithin.
Variable allowed : str → Prop.

Lemma read_only_writes_within {A} (c : M A) :
  read_only c → writes_within allowed c.
Proof.
  intros Hc w. destruct (Hc w) as (Hfs & Hcfg & Herr).
  split_and!; try done. intros p _. left. by rewrite Hfs.
Qed.

Lemma writes_within_bind {A B} (c : M A) (k : A → M B) :
  writes_within allowed c → (∀ a, writes_within allowed (k a)) →
  writes_within allowed (bind c k).
Proof.
  intros Hc Hk w. unfold bind. specialize (Hc w).
  destruct (c w) as [[a|e] w1]; cbn [snd] in *; [| done].
  destruct (Hk a w1) as (H1 & H2 & H3). destruct Hc as (H4 & H5 & H6).
  split_and!; [| congruence | congruence].
  intros p Hp. destruct (H4 p Hp) as [Ha | [Ha Ha']], (H1 p Hp) as [Hb | [Hb Hb']].
  - left. congruence.
  - right. split; congruence.
  - right. split; congruence.
  - congruence.
Qed.

Lemma writes_within_bind_post {A B} (P : A → Prop) (c : M A) (k : A → M B) :
  writes_within allowed c →
  (∀ w a w', c w = (Ok a, w') → P a) →
  (∀ a, P a → writes_within allowed (k a)) →
  writes_within allowed (bind c k).
Proof.
  intros Hc Hpost Hk w. unfold bind. specialize (Hc w). specialize (Hpost w).
  destruct (c w) as [[a|e] w1]; cbn [snd] in *; [| done].
  destruct (Hk a (Hpost a w1 eq_refl) w1) as (H1 & H2 & H3).
  destruct Hc as (H4 & H5 & H6).
  split_and!; [| congruence | congruence].
  intros p Hp. destruct (H4 p Hp) as [Ha | [Ha Ha']], (H1 p Hp) as [Hb | [Hb Hb']].
  - left. congruence.
  - right. split; congruence.
  - right. split; congruence.
  - congruence.
Qed.

Lemma writes_within_try_except {A} (c : M A) h :
  writes_within allowed c →
  (∀ e handler, h e = Some handler → writes_within allowed handler) →
  writes_within allowed (try_except c h).
Proof.
  intros Hc Hh w. unfold try_except. specialize (Hc w).
  destruct (c w) as [[a|e] w1]; cbn [snd] in *; [done |].
  destruct (h e) as [handler|] eqn:He; [| done].
  destruct (Hh e handler He w1) as (H1 & H2 & H3). destruct Hc as (H4 & H5 & H6).
  split_and!; [| congruence | congruence].
  intros p Hp. destruct (H4 p Hp) as [Ha | [Ha Ha']], (H1 p Hp) as [Hb | [Hb Hb']].
  - left. congruence.
  - right. split; congruence.
  - right. split; congruence.
  - congruence.
Qed.

Lemma writes_within_when b (c : M unit) :
  writes_within allowed c → writes_within allowed (when b c).
Proof.
  intros Hc. destruct b; [done |]. apply read_only_writes_within, read_only_ret.
Qed.

Lemma writes_within_write target content :
  allowed target → writes_within allowed (fs_call target (write_file target content)).
Proof.
  intros Htarget w. unfold fs_call. rewrite write_file_result.
  destruct (write_error (fs w) target); cbn [fs config stderr snd];
    (split_and!; [| done | done]); intros p Hp; left; [done |].
  apply lookup_insert_ne. by intros ->.
Qed.

Lemma writes_within_makedirs name :
  writes_within allowed (fs_call name (makedirs name)).
Proof.
  intros w. unfold fs_call.
  destruct (makedirs name (fs w)) as [r fs1] eqn:Hmk.
  apply makedirs_adds_dirs in Hmk.
  destruct r; cbn [fs config stderr snd]; (split_and!; [| done | done]);
    intros p _; apply Hmk.
Qed.

End WritesWithin.

Lemma writes_within_mono (S1 S2 : str → Prop) {A} (c : M A) :
  (∀ p, S1 p → S2 p) → writes_within S1 c → writes_within S2 c.
Proof.
  intros Hsub Hc w. destruct (Hc w) as (Hfs & Hcfg & Herr).
  split_and!; try done. intros p Hp. apply Hfs. intros H1. by apply Hp, Hsub.
Qed.

Lemma read_only_read_text path : read_only (read_text path).
Proof. intros w. unfold read_text. by destruct (read_file path (fs w)). Qed.

Ltac writes_within_step :=
  match goal with
  | |- writes_within _ (bind _ _) => apply writes_within_bind; [| intros ?]
  | |- writes_within _ (when _ _) => apply writes_within_when
  | |- writes_within _ (fs_call _ (makedirs _)) => apply writes_within_makedirs
  | |- writes_within _ (ret _) => apply read_only_writes_within, read_only_ret
  | |- writes_within _ (raise _) => apply read_only_writes_within, read_only_raise
  | |- writes_within _ (SpecKit.exit _) => apply read_only_writes_within, read_only_exit
  | |- writes_within _ (print _) => apply read_only_writes_within, read_only_print
  | |- writes_within _ get_fs => apply read_only_writes_within, read_only_get_fs
  | |- writes_within _ (read_text _) => apply read_only_writes_within, read_only_read_text
  | |- writes_within _ (if ?b then _ else _) => destruct b
  end.

(** The nested update_agent_file writes its target and nothing else. *)
Lemma update_agent_file_writes E f current_feature target agent_name :
  writes_within (λ p, p = target)
    (SpecKit.update_agent_file E f current_feature target agent_name).
Proof.
  unfold SpecKit.update_agent_file.
  apply writes_within_bind; [writes_within_step | intros _].
  apply writes_within_bind; [writes_within_step | intros fs0].
  destruct (negb (isfile fs0 target)).
  - apply writes_within_bind; [writes_within_step | intros _].
    destruct (isfile fs0 _).
    + apply writes_within_bind; [writes_within_step | intros template_content].
      apply writes_within_bind; [by apply writes_within_write | intros _].
      repeat writes_within_step.
    + repeat writes_within_step.
  - apply writes_within_bind; [writes_within_step | intros _].
    apply writes_within_bind.
    + apply writes_within_try_except.
      * apply writes_within_bind; [writes_within_step | intros content].
        destruct (patch_existing _ _ _ content).
        -- apply writes_within_bind; [by apply writes_within_write | intros _].
           writes_within_step.
        -- writes_within_step.
      * intros e handler He. destruct e; try done; injection He as <-;
          repeat writes_within_step.
    + intros updated. repeat writes_within_step.
Qed.

Lemma feature_paths_or_exit_root E w paths w' :
  SpecKit.feature_paths_or_exit E w = (Ok paths, w') →
  PROJECT_ROOT paths = project_root E.
Proof.
  unfold SpecKit.feature_paths_or_exit, FeatureManager.get_feature_paths,
    ProjectManager.get_current_feature, ProjectManager.get_project_root.
  run. destruct (truthy _); cbn [negb]; [| done]. by intros [= <- _].
Qed.

(** X16.  update-agent-context writes nothing but agent context files:
    for every argument, every state of the project and every outcome,
    each path other than CLAUDE.md, GEMINI.md and
    .github/copilot-instructions.md of the project root holds afterwards
    what it held before, or a directory where there was nothing; the
    configuration and the error stream are as they were. *)
Theorem update_agent_context_writes_only_agent_files
    (E : env) (agent_type : pyval) :
  writes_within (λ p, p ∈ agent_files E)
    (SpecKit.update_agent_context E agent_type).
Proof.
  assert (Hupdate : ∀ f current_feature target agent_name,
            target ∈ agent_files E →
            writes_within (λ p, p ∈ agent_files E)
              (SpecKit.update_agent_file E f current_feature target agent_name)).
  { intros f current_feature target agent_name Htarget.
    eapply writes_within_mono; [| apply update_agent_file_writes].
    by intros p ->. }
  assert (Hclaude : path_join (project_root E) ["CLAUDE.md"] ∈ agent_files E)
    by (unfold agent_files; by left).
  assert (Hgemini : path_join (project_root E) ["GEMINI.md"] ∈ agent_files E)
    by (unfold agent_files; right; by left).
  assert (Hcopilot : path_join (project_root E) [".github"; "copilot-instructions.md"]
                     ∈ agent_files E)
    by (unfold agent_files; right; right; by left).
  unfold SpecKit.update_agent_context.
  apply (writes_within_bind_post _ (λ paths, PROJECT_ROOT paths = project_root E));
    [apply read_only_writes_within, read_only_feature_paths_or_exit
    | apply feature_paths_or_exit_root | intros paths ->].
  apply writes_within_bind; [writes_within_step | intros fs0].
  destruct (negb (isfile fs0 (IMPL_PLAN paths))); [repeat writes_within_step |].
  apply writes_within_bind; [writes_within_step | intros _].
  apply writes_within_bind.
  { apply writes_within_try_except.
    - repeat writes_within_step.
    - intros e handler He. destruct e; try done; injection He as <-;
        repeat writes_within_step. }
  intros f.
  apply writes_within_bind; [| intros _; repeat writes_within_step].
  destruct agent_type as [agent|].
  - repeat first [ apply Hupdate; assumption | writes_within_step ].
  - repeat first [ apply Hupdate; assumption | writes_within_step ].
Qed.

(** ** Updating agent context files that exist *)








(** The start of update-agent-context for a current feature with a
    plan: the fields of the plan, after one line of output. *)
Lemma update_agent_context_start E agent_type w current_feature plan_text :
  current_of (config w) = Some current_feature →
  nonempty current_feature = true →
  fs w !! path_join (FeatureManager.get_feature_dir E current_feature) ["plan.md"]
  = Some (File plan_text) →
  let f := extract_fields plan_text in
  let update := SpecKit.update_agent_file E f current_feature in
  let claude_file := path_join (project_root E) ["CLAUDE.md"] in
  let gemini_file := path_join (project_root E) ["GEMINI.md"] in
  let copilot_file := path_join (project_root E) [".github"; "copilot-instructions.md"] in
  SpecKit.update_agent_context E agent_type w
  = (match agent_type with
     | Some agent =>
         if str_eqb agent "claude" then update claude_file "Claude Code" ;; ret tt
         else if str_eqb agent "gemini" then update gemini_file "Gemini CLI" ;; ret tt
         else if str_eqb agent "copilot" then update copilot_file "GitHub Copilot" ;; ret tt
         else
           print (Text ("ERROR: Unknown agent type '" ++ agent
                        ++ "'. Use: claude, gemini, copilot, or leave empty for all.")) ;;
           SpecKit.exit 1
     | None =>
         fs <- get_fs ;;
         let has_claude := isfile fs claude_file in
         when has_claude (update claude_file "Claude Code" ;; ret tt) ;;
         fs <- get_fs ;;
         let has_gemini := isfile fs gemini_file in
         when has_gemini (update gemini_file "Gemini CLI" ;; ret tt) ;;
         fs <- get_fs ;;
         let has_copilot := isfile fs copilot_file in
         when has_copilot (update copilot_file "GitHub Copilot" ;; ret tt) ;;
         let updated_any := has_claude || has_gemini || has_copilot in
         when (negb updated_any)
           (print (Text "No agent context files found. Creating Claude Code context file by default.") ;;
            fs_call (path_split claude_file).1 (makedirs (path_split claude_file).1) ;;
            update claude_file "Claude Code" ;; ret tt)
     end ;;
     print (Text []) ;;
     print (Text "Summary of changes:") ;;
     when (nonempty (new_lang f)) (print (Text ("- Added language: " ++ new_lang f))) ;;
     when (nonempty (new_framework f))
          (print (Text ("- Added framework: " ++ new_framework f))) ;;
     when (nonempty (new_db f) && negb (str_eqb (new_db f) "N/A"))
          (print (Text ("- Added database: " ++ new_db f))) ;;
     print (Text []) ;;
     print (Text ("Usage: " ++ script_name E ++ " update-agent-context [claude|gemini|copilot]")) ;;
     print (Text " - No argument: Update all existing agent context files") ;;
     print (Text " - claude: Update only CLAUDE.md") ;;
     print (Text " - gemini: Update only GEMINI.md") ;;
     print (Text " - copilot: Update only .github/copilot-instructions.md"))
      (World (fs w) (config w)
         (stdout w ++ [Text ("=== Updating agent context files for feature "
                             ++ current_feature ++ " ===")])
         (stderr w)).
Proof.
  intros Hcur Hne Hplan f update claude_file gemini_file copilot_file.
  unfold SpecKit.update_agent_context. unfold bind at 1.
  rewrite (feature_paths_or_exit_some E w current_feature Hcur Hne).
  cbn [PROJECT_ROOT CURRENT_FEATURE IMPL_PLAN].
  unfold bind at 1. unfold get_fs at 1.
  assert (isfile (fs w) (path_join (FeatureManager.get_feature_dir E current_feature)
                           ["plan.md"]) = true) as ->
    by (unfold isfile; by rewrite Hplan).
  cbn [negb]. unfold bind at 1. unfold print at 1.
  unfold bind at 1. unfold try_except at 1. unfold bind at 1.
  unfold read_text at 1. cbn [fs config stdout stderr].
  unfold read_file. rewrite Hplan. unfold ret at 1. done.
Qed.




(** X18.  update-agent-context for a current feature without a plan.md,
    and update-agent-context with an argument other than claude, gemini
    and copilot: the command exits with status 1 and no file, nor the
    configuration, nor the error stream has changed (the message goes to
    the standard output). *)
Theorem update_agent_context_rejects
    (E : env) (agent_type : pyval) (current_feature : str) (w : world) :
  current_of (config w) = Some current_feature →
  nonempty current_feature = true →
  isfile (fs w) (path_join (FeatureManager.get_feature_dir E current_feature)
                   ["plan.md"]) = false
  ∨ (∃ agent, agent_type = Some agent ∧ agent_target E agent = None) →
  ∃ w', SpecKit.update_agent_context E agent_type w = (Raise (SystemExit 1), w')
        ∧ fs w' = fs w ∧ config w' = config w ∧ stderr w' = stderr w.
Proof.
  intros Hcur Hne Hbad.
  destruct (isfile (fs w) (path_join (FeatureManager.get_feature_dir E current_feature)
                             ["plan.md"])) eqn:Hplan.
  - destruct Hbad as [? | (agent & -> & Hagent)]; [done |].
    unfold isfile in Hplan.
    destruct (fs w !! path_join (FeatureManager.get_feature_dir E current_feature)
                        ["plan.md"]) as [[plan_text|]|] eqn:Hfile; try done.
    rewrite (update_agent_context_start E (Some agent) w current_feature plan_text
               Hcur Hne Hfile). cbv zeta.
    unfold agent_target in Hagent.
    destruct (str_eqb agent "claude"); [done |].
    destruct (str_eqb agent "gemini"); [done |].
    destruct (str_eqb agent "copilot"); [done |].
    unfold bind at 1. unfold bind at 1. unfold print at 1. unfold SpecKit.exit, raise.
    eexists. split; [reflexivity |]. done.
  - unfold SpecKit.update_agent_context. unfold bind at 1.
    rewrite (feature_paths_or_exit_some E w current_feature Hcur Hne).
    cbn [PROJECT_ROOT CURRENT_FEATURE IMPL_PLAN].
    unfold bind at 1. unfold get_fs at 1. rewrite Hplan. cbn [negb].
    run. eexists. split; [reflexivity |]. done.
Qed.

Lemma update_agent_context_rejects_witness :
  ∃ w', SpecKit.update_agent_context sample_env (Some ("cursor" : str))
          world_with_context = (Raise (SystemExit 1), w')
        ∧ fs w' = fs world_with_context.
Proof.
  destruct (update_agent_context_rejects sample_env (Some ("cursor" : str)) "003-b"
              world_with_context) as (w' & Hrun & Hfs & _).
  - reflexivity.
  - reflexivity.
  - right. exists ("cursor" : str). split; reflexivity.
  - exists w'. split; [exact Hrun | exact Hfs].
Defined.



(** ** What the extracted fields never hold *)

Lemma drop_while_head p s :
  match drop_while p s with c :: _ => p c = false | [] => True end.
Proof.
  induction s as [|c s IH]; [done |]. cbn [drop_while].
  destruct (p c) eqn:Hc; [exact IH | exact Hc].
Qed.

Lemma drop_while_last p s c r :
  rev (drop_while p s) = c :: r → ∃ r', rev s = c :: r'.
Proof.
  destruct (drop_while_suffix p s) as [x Hx]. intros Hr.
  apply (f_equal (@rev _)) in Hx. rewrite rev_app_distr, Hr in Hx.
  by exists (r ++ rev x).
Qed.

(** [s.strip(chars)] is a piece of [s]. *)
Lemma strip_with_substring p s : ∃ a b, s = a ++ strip_with p s ++ b.
Proof.
  unfold strip_with.
  destruct (drop_while_suffix p s) as [a Ha].
  destruct (drop_while_suffix p (rev (drop_while p s))) as [b Hb].
  exists a, (rev b). rewrite <- rev_app_distr, <- Hb, rev_involutive. exact Ha.
Qed.

Lemma str_in_strip_with x p s :
  str_in x (strip_with p s) = true → str_in x s = true.
Proof.
  intros Hin. destruct (strip_with_substring p s) as (a & b & Hs).
  rewrite Hs. by apply str_in_app_r, str_in_app_l.
Qed.

(** Stripping what has been stripped changes nothing. *)
Lemma strip_with_idempotent p s :
  strip_with p (strip_with p s) = strip_with p s.
Proof.
  apply strip_with_ends.
  - unfold strip_with.
    destruct (rev (drop_while p (rev (drop_while p s)))) as [|c r] eqn:Hr; [done |].
    apply drop_while_last in Hr as [r' Hr]. rewrite rev_involutive in Hr.
    pose proof (drop_while_head p s) as Hhead. by rewrite Hr in Hhead.
  - unfold strip_with. rewrite rev_involutive. apply drop_while_head.
Qed.

Lemma stripped_field_clean marker v :
  str_in marker v = false → str_in marker (strip v) = false.
Proof.
  intros Hv. destruct (str_in marker (strip v)) eqn:Hs; [| done].
  apply str_in_strip_with in Hs. congruence.
Qed.

(** X20.  The fields that update-agent-context extracts from a plan are
    stripped texts of one line: stripping them again changes nothing and
    none holds a line feed.  The language, the dependencies, the testing
    and the storage never hold the marker NEEDS CLARIFICATION, and the
    storage never holds N/A: the later tests of the storage against N/A
    always pass. *)
Theorem extracted_fields_are_clean (content : str) :
  let f := extract_fields content in
  Forall (λ x, strip x = x ∧ forallb not_nl x = true)
    [new_lang f; new_framework f; new_testing f; new_db f; new_project_type f]
  ∧ Forall (λ x, str_in needs_clarification x = false)
      [new_lang f; new_framework f; new_testing f; new_db f]
  ∧ str_in "N/A" (new_db f) = false
  ∧ str_eqb (new_db f) "N/A" = false.
Proof.
  intros f.
  assert (Hclean : ∀ name (keep : str → bool),
            let x := match search_field name content with
                     | Some g => if keep g then strip g else []
                     | None => []
                     end in
            strip x = x ∧ forallb not_nl x = true).
  { intros name keep. cbv zeta.
    destruct (search_field name content) as [g|] eqn:Hg; [| done].
    destruct (keep g); [| done]. split.
    - apply strip_with_idempotent.
    - by eapply strip_forallb, search_field_no_nl. }
  assert (Hmarker : ∀ name (other : str → bool),
            let x := match search_field name content with
                     | Some g =>
                         if other g && negb (str_in needs_clarification g)
                         then strip g else []
                     | None => []
                     end in
            str_in needs_clarification x = false).
  { intros name other. cbv zeta.
    destruct (search_field name content) as [g|]; [| done].
    destruct (other g); cbn [andb]; [| done].
    destruct (str_in needs_clarification g) eqn:Hg; [done |].
    by apply stripped_field_clean. }
  assert (Hna : str_in "N/A" (new_db f) = false).
  { subst f. unfold extract_fields. cbn [new_db].
    destruct (search_field "Storage" content) as [g|]; [| done].
    destruct (str_in "N/A" g) eqn:Hg; [done |]. cbn [negb andb].
    destruct (negb _); [| done]. by apply stripped_field_clean. }
  split_and!.
  - subst f. unfold extract_fields.
    cbn [new_lang new_framework new_testing new_db new_project_type].
    constructor;
      [apply (Hclean "Language/Version" (λ g, negb (str_in needs_clarification g))) |].
    constructor;
      [apply (Hclean "Primary Dependencies" (λ g, negb (str_in needs_clarification g))) |].
    constructor;
      [apply (Hclean "Testing" (λ g, negb (str_in needs_clarification g))) |].
    constructor;
      [apply (Hclean "Storage" (λ g, negb (str_in "N/A" g)
                                     && negb (str_in needs_clarification g))) |].
    constructor; [apply (Hclean "Project Type" (λ _, true)) | constructor].
  - subst f. unfold extract_fields. cbn [new_lang new_framework new_testing new_db].
    constructor; [apply (Hmarker "Language/Version" (λ _, true)) |].
    constructor; [apply (Hmarker "Primary Dependencies" (λ _, true)) |].
    constructor; [apply (Hmarker "Testing" (λ _, true)) |].
    constructor; [apply (Hmarker "Storage" (λ g, negb (str_in "N/A" g))) | constructor].
  - exact Hna.
  - unfold str_eqb. apply bool_decide_eq_false. intros Heq.
    rewrite Heq in Hna. done.
Qed.

(** ** Listing the features *)

Lemma str_leb_total a b : str_leb a b = true ∨ str_leb b a = true.
Proof.
  revert b. induction a as [|x a IH]; intros b; [by left |].
  destruct b as [|y b]; [by right |]. cbn [str_leb].
  destruct (Nat.ltb_spec (code x) (code y)) as [Hxy | Hxy]; [by left |].
  destruct (Nat.ltb_spec (code y) (code x)) as [Hyx | Hyx]; [by right |].
  apply IH.
Qed.

Lemma str_leb_trans a b c :
  str_leb a b = true → str_leb b c = true → str_leb a c = true.
Proof.
  revert b c. induction a as [|x a IH]; intros b c; [done |].
  destruct b as [|y b]; [done |]. destruct c as [|z c]; [done |].
  cbn [str_leb].
  destruct (Nat.ltb_spec (code x) (code y)) as [Hxy | Hxy];
    destruct (Nat.ltb_spec (code y) (code x)) as [Hyx | Hyx];
    destruct (Nat.ltb_spec (code y) (code z)) as [Hyz | Hyz];
    destruct (Nat.ltb_spec (code z) (code y)) as [Hzy | Hzy];
    destruct (Nat.ltb_spec (code x) (code z)) as [Hxz | Hxz];
    destruct (Nat.ltb_spec (code z) (code x)) as [Hzx | Hzx];
    try done; try lia.
  apply IH.
Qed.

Lemma sorted_is_sorted l :
  StronglySorted (λ a b, Is_true (str_leb a b)) (sorted l) ∧ sorted l ≡ₚ l.
Proof.
  split; [| apply merge_sort_Permutation].
  apply StronglySorted_merge_sort.
  - intros a b c Hab Hbc. apply Is_true_true in Hab, Hbc. apply Is_true_true.
    by apply (str_leb_trans a b c).
  - intros a b. destruct (str_leb_total a b) as [H | H]; [left | right];
      by apply Is_true_true.
Qed.

Lemma NoDup_omap_inj {A B} (f : A → option B) (l : list A) :
  NoDup l →
  (∀ x y z, x ∈ l → y ∈ l → f x = Some z → f y = Some z → x = y) →
  NoDup (omap f l).
Proof.
  induction 1 as [|x l Hx Hl IH]; intros Hinj; [constructor |].
  cbn [omap list_omap]. destruct (f x) as [z|] eqn:Hfx.
  - constructor.
    + intros (y & Hy & Hfy)%list_elem_of_omap.
      assert (x = y) by (apply (Hinj x y z); [by left | by right | done | done]).
      by subst y.
    + apply IH. intros a b c Ha Hb. apply Hinj; by right.
  - apply IH. intros a b c Ha Hb. apply Hinj; by right.
Qed.

Lemma child_name_Some d p name :
  child_name d p = Some name ↔
  p = (if ends_with_slash d then d else d ++ "/") ++ name
  ∧ nonempty name = true ∧ str_in "/" name = false.
Proof.
  unfold child_name. split.
  - destruct (lit _ p) as [r|] eqn:Hlit; [| done].
    apply lit_Some in Hlit as ->.
    destruct (nonempty r) eqn:Hr; [| done].
    destruct (str_in "/" r) eqn:Hs; [done |]. by intros [= <-].
  - intros (-> & Hne & Hslash). by rewrite lit_app, Hne, Hslash.
Qed.

(** The entries of a directory: each name once. *)
Lemma listdir_spec fs d :
  NoDup (listdir fs d)
  ∧ ∀ name, name ∈ listdir fs d ↔
            is_Some (fs !! ((if ends_with_slash d then d else d ++ "/") ++ name))
            ∧ nonempty name = true ∧ str_in "/" name = false.
Proof.
  unfold listdir. split.
  - apply NoDup_omap_inj; [apply NoDup_map_to_list |].
    intros [p1 x1] [p2 x2] name H1 H2. cbn [fst].
    intros (-> & _)%child_name_Some (-> & _)%child_name_Some.
    apply elem_of_map_to_list in H1, H2. congruence.
  - intros name. rewrite list_elem_of_omap. split.
    + intros ([p x] & Hin & Hchild). cbn [fst] in Hchild.
      apply child_name_Some in Hchild as (-> & Hne & Hslash).
      apply elem_of_map_to_list in Hin. split; [by eexists | done].
    + intros ([x Hx] & Hne & Hslash). eexists (_, x). split.
      * apply elem_of_map_to_list. exact Hx.
      * cbn [fst]. by apply child_name_Some.
Qed.

(** X21.  list-features, in a project whose specs/ holds at least one
    feature directory: the command prints a heading, one line for each
    feature and three closing lines.  The features listed are exactly the
    directories directly under specs/ whose names have the form NNN-,
    each of them once, in ascending order of their code points, and the
    line of the current feature, and no other, ends with (current).
    Nothing but the standard output changes. *)
Theorem list_features_lists_feature_directories (E : env) (w : world) :
  let specs_dir := path_join (project_root E) ["specs"] in
  isdir (fs w) specs_dir = true →
  SpecKit.feature_entries (fs w) specs_dir (listdir (fs w) specs_dir) ≠ [] →
  ∃ names,
    SpecKit.list_available_features E w
    = (Ok tt,
       World (fs w) (config w)
         (stdout w
          ++ [Text "Available features:"]
          ++ map (λ feature,
                    Text ("  " ++ feature
                          ++ if bool_decide (Some feature = current_of (config w))
                             then " (current)" else []))
                 names
          ++ [Text [];
              Text ("Usage: " ++ script_name E ++ " set-current-feature <feature-name>");
              Text ("       " ++ script_name E ++ " get-current-feature")])
         (stderr w))
    ∧ StronglySorted (λ a b, Is_true (str_leb a b)) names
    ∧ NoDup names
    ∧ ∀ name, name ∈ names ↔
              str_in "/" name = false
              ∧ match_feature_prefix name = true
              ∧ isdir (fs w) (specs_dir ++ "/" ++ name) = true.
Proof.
  intros specs_dir Hdir Hsome.
  set (features := SpecKit.feature_entries (fs w) specs_dir (listdir (fs w) specs_dir))
    in *.
  destruct (sorted_is_sorted features) as [Hsorted Hperm].
  destruct (listdir_spec (fs w) specs_dir) as [Hnodup Hlist].
  exists (sorted features). split_and!.
  - unfold SpecKit.list_available_features, ProjectManager.get_project_root.
    unfold bind at 1. rewrite get_current_feature_value. unfold bind at 1. unfold get_fs at 1.
    fold specs_dir. rewrite Hdir. cbn [negb]. unfold bind at 1.
    unfold print at 1. cbn [fs config stdout stderr]. fold features.
    destruct features as [|x l] eqn:Hf; [done |]. rewrite <- Hf.
    unfold bind at 1. rewrite print_all_state. cbn [fs config stdout stderr].
    run. by rewrite <- !app_assoc.
  - exact Hsorted.
  - rewrite Hperm. subst features. unfold SpecKit.feature_entries.
    by apply NoDup_filter.
  - intros name. rewrite Hperm. subst features. unfold SpecKit.feature_entries.
    rewrite list_elem_of_filter, Hlist.
    unfold specs_dir at 2. rewrite specs_dir_no_slash_end. fold specs_dir.
    split.
    + intros (Hok & _ & Hne & Hslash).
      apply andb_true_iff in Hok as [Hd Hprefix].
      unfold specs_dir in Hd.
      rewrite entry_path_eq in Hd by by apply str_in_starts_with.
      done.
    + intros (Hslash & Hprefix & Hd).
      assert (Hne : nonempty name = true) by by destruct name.
      split_and!; try done.
      * unfold specs_dir.
        rewrite entry_path_eq by by apply str_in_starts_with.
        fold specs_dir. by rewrite Hd, Hprefix.
      * unfold isdir in Hd. rewrite <- app_assoc.
        destruct (fs w !! (specs_dir ++ "/" ++ name)); [by eexists | done].
Qed.

Lemma list_features_lists_feature_directories_witness :
  ∃ names,
    StronglySorted (λ a b, Is_true (str_leb a b)) names
    ∧ (("003-b" : str) ∈ names)
    ∧ ¬ (("x-y" : str) ∈ names).
Proof.
  destruct (list_features_lists_feature_directories sample_env sample_world)
    as (names & _ & Hsorted & _ & Hnames).
  - vm_compute. reflexivity.
  - vm_compute. discriminate.
  - exists names. split_and!.
    + exact Hsorted.
    + apply Hnames. vm_compute. done.
    + intros Hin. apply Hnames in Hin as (_ & Hprefix & _). discriminate Hprefix.
Defined.

(** ** get-current-feature *)

Lemma current_of_Some cfg name :
  current_of cfg = Some name → cfg !! ("current_feature" : str) = Some (Some name).
Proof.
  unfold current_of.
  destruct (cfg !! ("current_feature" : str)) as [v|]; [by intros -> | done].
Qed.

(** X22.  get-current-feature always returns normally and changes
    nothing but the standard output.  For a current feature it prints the
    name and the three paths derived from it without looking at the file
    system, so the directory need not exist; the line (Feature directory
    not found) of its handler is never printed. *)
Theorem get_current_feature_info_prints_derived_paths (E : env) (w : world) :
  ∃ out,
    SpecKit.get_current_feature_info E w
    = (Ok tt, World (fs w) (config w) (stdout w ++ out) (stderr w))
    ∧ (Text "(Feature directory not found)" ∉ out)
    ∧ ∀ name, current_of (config w) = Some name → nonempty name = true →
        let dir := FeatureManager.get_feature_dir E name in
        out = [Text ("Current feature: " ++ name);
               Text ("Feature directory: " ++ dir);
               Text ("Feature spec: " ++ path_join dir ["spec.md"]);
               Text ("Implementation plan: " ++ path_join dir ["plan.md"])].
Proof.
  unfold SpecKit.get_current_feature_info. unfold bind at 1.
  rewrite get_current_feature_value.
  destruct (truthy (current_of (config w))) eqn:Htruthy; cbn [negb].
  - apply truthy_Some in Htruthy as (name & Hcur & Hne). rewrite Hcur.
    cbn [from_option id]. unfold bind at 1. unfold print at 1.
    unfold try_except. unfold bind at 1.
    rewrite (get_feature_paths_current E name);
      [| by apply current_of_Some | exact Hne].
    cbn [FEATURE_DIR FEATURE_SPEC IMPL_PLAN]. run.
    eexists. split; [rewrite <- !app_assoc; reflexivity |]. split.
    + cbn [app]. intros Hin.
      repeat (apply elem_of_cons in Hin as [Hin | Hin]; [discriminate Hin |]).
      by apply elem_of_nil in Hin.
    + intros name' [= <-] _. done.
  - run. eexists. split; [rewrite <- !app_assoc; reflexivity |]. split.
    + cbn [app]. intros Hin.
      repeat (apply elem_of_cons in Hin as [Hin | Hin]; [discriminate Hin |]).
      by apply elem_of_nil in Hin.
    + intros name Hcur Hne. rewrite Hcur in Htruthy. by destruct name.
Qed.

(** ** The command line *)

Lemma str_eqb_false a b : a ≠ b → str_eqb a b = false.
Proof. intros H. unfold str_eqb. by apply bool_decide_eq_false. Qed.

(** X23.  Usage errors and help requests of the command line.  Without
    a command, main prints the usage on the standard output and exits
    with status 1; for a command it does not know it writes two lines to
    the error stream and exits with status 1.  A help flag anywhere
    after check-task-prerequisites, create-new-feature or setup-plan, or
    as the first argument of update-agent-context, prints the usage line
    of the command and exits with status 0.  In all these cases no file
    and no entry of the configuration changes. *)
Theorem main_usage_errors_and_help (E : env) (w : world) :
  main E [] w
  = (Raise (SystemExit 1),
     World (fs w) (config w) (stdout w ++ main_usage) (stderr w))
  ∧ (∀ command rest,
       command ∉ ["check-task-prerequisites"; "get-feature-paths";
                  "create-new-feature"; "setup-plan"; "update-agent-context";
                  "set-current-feature"; "get-current-feature";
                  "list-features" : str] →
       main E (command :: rest) w
       = (Raise (SystemExit 1),
          World (fs w) (config w) (stdout w)
            (stderr w
             ++ [Text ("ERROR: Unknown command '" ++ command ++ "'");
                 Text "Run 'spec_kit.py' without arguments to see available commands."])))
  ∧ (∀ command usage rest,
       (command, usage)
       ∈ [("check-task-prerequisites" : str,
           "Usage: spec_kit.py check-task-prerequisites [--json]" : str);
          ("create-new-feature" : str,
           "Usage: spec_kit.py create-new-feature [--json] <description>" : str);
          ("setup-plan" : str, "Usage: spec_kit.py setup-plan [--json]" : str)] →
       help_asked rest = true →
       main E (command :: rest) w
       = (Raise (SystemExit 0),
          World (fs w) (config w) (stdout w ++ [Text usage]) (stderr w)))
  ∧ (∀ flag rest,
       flag ∈ ["--help"; "-h" : str] →
       main E ("update-agent-context" :: flag :: rest) w
       = (Raise (SystemExit 0),
          World (fs w) (config w)
            (stdout w
             ++ [Text "Usage: spec_kit.py update-agent-context [claude|gemini|copilot]"])
            (stderr w))).
Proof.
  split_and!.
  - unfold main. unfold bind. rewrite print_all_state. done.
  - intros command rest Hunknown. unfold main.
    rewrite !str_eqb_false.
    + run. by rewrite <- app_assoc.
    + intros ->. apply Hunknown. do 7 right. by left.
    + intros ->. apply Hunknown. do 6 right. by left.
    + intros ->. apply Hunknown. do 5 right. by left.
    + intros ->. apply Hunknown. do 4 right. by left.
    + intros ->. apply Hunknown. do 3 right. by left.
    + intros ->. apply Hunknown. do 2 right. by left.
    + intros ->. apply Hunknown. right. by left.
    + intros ->. apply Hunknown. by left.
  - intros command usage rest Hin Hhelp.
    apply elem_of_cons in Hin as [[= -> ->] | Hin];
      [unfold main;
       change (str_eqb "check-task-prerequisites" "check-task-prerequisites")
         with true;
       cbn iota; rewrite Hhelp; by run |].
    apply elem_of_cons in Hin as [[= -> ->] | Hin];
      [unfold main;
       change (str_eqb "create-new-feature" "check-task-prerequisites") with false;
       change (str_eqb "create-new-feature" "get-feature-paths") with false;
       change (str_eqb "create-new-feature" "create-new-feature") with true;
       cbn iota; rewrite Hhelp; by run |].
    apply elem_of_cons in Hin as [[= -> ->] | Hin];
      [unfold main;
       change (str_eqb "setup-plan" "check-task-prerequisites") with false;
       change (str_eqb "setup-plan" "get-feature-paths") with false;
       change (str_eqb "setup-plan" "create-new-feature") with false;
       change (str_eqb "setup-plan" "setup-plan") with true;
       cbn iota; rewrite Hhelp; by run |].
    by apply elem_of_nil in Hin.
  - intros flag rest Hflag. unfold main.
    change (str_eqb "update-agent-context" "check-task-prerequisites") with false.
    change (str_eqb "update-agent-context" "get-feature-paths") with false.
    change (str_eqb "update-agent-context" "create-new-feature") with false.
    change (str_eqb "update-agent-context" "setup-plan") with false.
    change (str_eqb "update-agent-context" "update-agent-context") with true.
    cbn iota. unfold is_in. rewrite bool_decide_eq_true_2 by done. by run.
Qed.

(** ** Text that the patch leaves alone *)

Lemma parse_template_plain groups text :
  no_backslash text = true →
  parse_template groups text = Some (map (λ c, Lit [c]) text).
Proof.
  intros Hplain. unfold parse_template.
  pose proof (tokenize_plain text [] Hplain) as Htok.
  rewrite app_nil_r in Htok. rewrite Htok. cbn [tokenize fmap option_fmap option_map].
  rewrite app_nil_r, length_map.
  replace (S (length text)) with (length text + 1) by lia.
  pose proof (parse_plain groups text [] 1) as Hparse.
  rewrite app_nil_r in Hparse. rewrite Hparse. cbn [parse_tokens].
  cbn [fmap option_fmap option_map]. by rewrite app_nil_r.
Qed.

Lemma str_in_prefix h x s : str_in (h ++ x) s = true → str_in h s = true.
Proof.
  intros (a & b & ->)%str_in_true. apply str_in_true.
  exists a, (x ++ b). by rewrite <- !app_assoc.
Qed.

Lemma lazy_between_header h t s r :
  scan (lazy_between h t) s = Some r → str_in h s = true.
Proof.
  destruct r as [pre [[g tm] rest]]. intros (s' & -> & Hm & _)%scan_Some.
  apply lazy_between_Some in Hm as (s1 & -> & _).
  apply str_in_true. by exists pre, s1.
Qed.

Lemma search_without_header (wrap : str * str * str → list str * str) h t s :
  str_in h s = false →
  scan (λ s, match lazy_between h t s with
             | Some x => Some (wrap x)
             | None => None
             end) s = None.
Proof.
  intros Hin.
  rewrite (scan_ext _ (λ s, wrap <$> lazy_between h t s))
    by (intros x; by destruct (lazy_between h t x)).
  rewrite scan_fmap.
  destruct (scan (lazy_between h t) s) as [r|] eqn:Hs; [| done].
  apply lazy_between_header in Hs. congruence.
Qed.

Lemma search_inner_without_header h t s :
  str_in h s = false → re_search (m_inner h t) s = None.
Proof.
  intros Hin. unfold re_search, m_inner.
  rewrite (scan_ext _ (λ s, match lazy_between h t s with
                            | Some x => Some ((λ '(g, tm, rest), ([g], rest)) x)
                            | None => None
                            end)).
  - by apply search_without_header.
  - intros x. by destruct (lazy_between h t x) as [[[g tm] rest]|].
Qed.

Lemma search_inner_term_without_header h t s :
  str_in h s = false → re_search (m_inner_term h t) s = None.
Proof.
  intros Hin. unfold re_search, m_inner_term.
  rewrite (scan_ext _ (λ s, match lazy_between h t s with
                            | Some x => Some ((λ '(g, tm, rest), ([g; tm], rest)) x)
                            | None => None
                            end)).
  - by apply search_without_header.
  - intros x. by destruct (lazy_between h t x) as [[[g tm] rest]|].
Qed.

Lemma search_date_without_marker s :
  str_in "Last updated: " s = false → re_search m_date s = None.
Proof.
  intros Hin. unfold re_search.
  destruct (scan m_date s) as [[pre r]|] eqn:Hs; [| done].
  apply scan_Some in Hs as (s' & -> & Hm & _). unfold m_date in Hm.
  destruct (lit "Last updated: " s') as [s1|] eqn:Hlit; [| done].
  apply lit_Some in Hlit as ->.
  by rewrite str_in_refl_app in Hin.
Qed.

(** X24.  The patch of an agent context file leaves alone a text that
    holds none of its markers: when the file has no header of the
    sections Active Technologies, Project Structure, Commands and Recent
    Changes and no text Last updated: , the patch succeeds and the file
    is rewritten with its content unchanged, whatever the plan says. *)
Theorem patch_leaves_unmarked_text_alone
    (f : plan_fields) (current_feature today content : str) :
  no_backslash today = true →
  Forall (λ marker, str_in marker content = false) section_markers →
  patch_existing f current_feature today content = Some content.
Proof.
  intros Htoday Hmarkers. unfold section_markers in Hmarkers.
  apply Forall_cons in Hmarkers as [Htech Hmarkers].
  apply Forall_cons in Hmarkers as [Hstruct Hmarkers].
  apply Forall_cons in Hmarkers as [Hcommands Hmarkers].
  apply Forall_cons in Hmarkers as [Hchanges Hmarkers].
  apply Forall_cons in Hmarkers as [Hdate _].
  unfold patch_existing.
  assert (patch_tech f current_feature content = content) as ->.
  { unfold patch_tech. by rewrite search_inner_without_header. }
  assert (patch_structure f content = Some content) as ->.
  { unfold patch_structure. rewrite search_inner_without_header by done.
    by destruct (_ && _). }
  assert (patch_commands f content = Some content) as ->.
  { unfold patch_commands.
    assert (str_in commands_bash_header content = false) as Hbash.
    { destruct (str_in commands_bash_header content) eqn:Hin; [| done].
      change commands_bash_header with (commands_header ++ "```bash" ++ [nl]) in Hin.
      apply str_in_prefix in Hin. congruence. }
    rewrite !search_inner_without_header by done. by destruct (_ && _). }
  assert (patch_changes f current_feature content = Some content) as ->.
  { unfold patch_changes. by rewrite search_inner_term_without_header. }
  unfold patch_date, re_sub.
  rewrite parse_template_plain.
  - cbn [sub_loop]. by rewrite search_date_without_marker.
  - unfold no_backslash in *. rewrite forallb_app, Htoday. done.
Qed.

Lemma patch_leaves_unmarked_text_alone_witness :
  patch_existing (extract_fields sample_plan) "003-b" "2026-11-04"
    ("# Notes" ++ [nl] ++ "Nothing to see." ++ [nl])
  = Some ("# Notes" ++ [nl] ++ "Nothing to see." ++ [nl]).
Proof.
  apply patch_leaves_unmarked_text_alone.
  - reflexivity.
  - repeat constructor.
Defined.

(** ** The date line *)

Lemma digits_then_Some n (k : str → option str) s r :
  digits_then n k s = Some r ↔
  ∃ ds s', s = ds ++ s' ∧ length ds = n ∧ forallb is_digit ds = true
           ∧ k s' = Some r.
Proof.
  revert s. induction n as [|n IH]; intros s; cbn [digits_then].
  - split.
    + intros Hk. by exists [], s.
    + intros (ds & s' & -> & Hlen & _ & Hk). by destruct ds.
  - destruct s as [|c s].
    + split; [done |]. intros (ds & s' & Hs & Hlen & _).
      destruct ds; [done |]. done.
    + destruct (is_digit c) eqn:Hc.
      * rewrite IH. split.
        -- intros (ds & s' & -> & Hlen & Hds & Hk).
           exists (c :: ds), s'. cbn [app length forallb]. rewrite Hc.
           split_and!; try done. by rewrite Hlen.
        -- intros (ds & s' & Hs & Hlen & Hds & Hk).
           destruct ds as [|c' ds]; [done |]. injection Hs as <- ->.
           cbn [forallb length] in *. apply andb_true_iff in Hds as [_ Hds].
           exists ds, s'. split_and!; try done. lia.
      * split; [done |]. intros (ds & s' & Hs & Hlen & Hds & _).
        destruct ds as [|c' ds]; [done |]. injection Hs as <- ->.
        cbn [forallb] in Hds. by rewrite Hc in Hds.
Qed.

(** What [Last updated: \d{4}-\d{2}-\d{2}] matches at a position. *)
Lemma m_date_Some s gs rest :
  m_date s = Some (gs, rest) ↔
  gs = [] ∧ ∃ d, is_date d = true ∧ s = "Last updated: " ++ d ++ rest.
Proof.
  unfold m_date. split.
  - destruct (lit "Last updated: " s) as [s1|] eqn:H1; [| done].
    apply lit_Some in H1 as ->.
    destruct (digits_then 4 (lit "-") s1) as [s2|] eqn:H2; [| done].
    apply digits_then_Some in H2 as (y & s1' & -> & Hy & Hyd & ->%lit_Some).
    destruct (digits_then 2 (lit "-") s2) as [s3|] eqn:H3; [| done].
    apply digits_then_Some in H3 as (m & s2' & -> & Hm & Hmd & ->%lit_Some).
    destruct (digits_then 2 Some s3) as [r|] eqn:H4; [| done].
    apply digits_then_Some in H4 as (d & s3' & -> & Hd & Hdd & [= ->]).
    intros [= <- <-]. split; [done |].
    exists (y ++ "-" ++ m ++ "-" ++ d). split; [| by rewrite <- !app_assoc].
    destruct y as [|y1 [|y2 [|y3 [|y4 [|]]]]]; try done.
    destruct m as [|m1 [|m2 [|]]]; try done.
    destruct d as [|d1 [|d2 [|]]]; try done.
    cbn [forallb] in *. cbn [app is_date].
    repeat match goal with
           | H : _ && _ = true |- _ => apply andb_true_iff in H as [? ?]
           end.
    repeat match goal with H : is_digit _ = true |- _ => rewrite H; clear H end.
    reflexivity.
  - intros (-> & d & Hd & ->). rewrite lit_app.
    destruct d as [|y1 [|y2 [|y3 [|y4 [|h1 [|m1 [|m2 [|h2 [|d1 [|d2 [|]]]]]]]]]]];
      try done.
    cbn [is_date] in Hd. rewrite !andb_true_iff in Hd.
    destruct Hd as [[[[[[[[[Hy1 Hy2] Hy3] Hy4] Hh1] Hm1] Hm2] Hh2] Hd1] Hd2].
    apply eqc_eq in Hh1 as ->. apply eqc_eq in Hh2 as ->.
    cbn [app digits_then]. rewrite Hy1, Hy2, Hy3, Hy4.
    unfold lit at 1. cbn [starts_with length drop].
    change (eqc "-" "-") with true. cbn [andb]. rewrite Hm1, Hm2.
    unfold lit at 1. cbn [starts_with length drop].
    change (eqc "-" "-") with true. cbn [andb]. rewrite Hd1, Hd2. done.
Qed.

Lemma m_date_consuming : consuming m_date.
Proof.
  intros s gs rest (_ & d & _ & ->)%m_date_Some. rewrite !length_app. simpl. lia.
Qed.

Lemma expand_plain text whole gs :
  expand (map (λ c, Lit [c]) text) whole gs = text.
Proof.
  unfold expand. induction text as [|c text IH]; [done |].
  cbn [map flat_map app]. by rewrite IH.
Qed.

Lemma patch_date_sub_all today content :
  no_backslash today = true →
  patch_date today content
  = Some (sub_all m_date (map (λ c, Lit [c]) ("Last updated: " ++ today)) content).
Proof.
  intros Htoday. unfold patch_date, re_sub. rewrite parse_template_plain; [done |].
  unfold no_backslash in *. by rewrite forallb_app, Htoday.
Qed.

(** X25.  The date step of the patch.  Where the text Last updated:
    followed by a date dddd-dd-dd is found first, the step puts today's
    date in the place of that date, keeps the text before it, and treats
    the text after it in the same way; a text after it that holds no
    further date line is kept as it is.  A text without a date line is
    not changed. *)
Theorem date_line_gets_today (today content : str) :
  no_backslash today = true →
  (re_search m_date content = None → patch_date today content = Some content)
  ∧ ∀ pre gs rest,
      re_search m_date content = Some (pre, (gs, rest)) →
      ∃ d rest',
        is_date d = true
        ∧ content = pre ++ "Last updated: " ++ d ++ rest
        ∧ patch_date today rest = Some rest'
        ∧ patch_date today content
          = Some (pre ++ "Last updated: " ++ today ++ rest')
        ∧ (re_search m_date rest = None → rest' = rest).
Proof.
  intros Htoday. split.
  - intros Hnone. rewrite (patch_date_sub_all today content Htoday).
    unfold sub_all. cbn [sub_loop]. by rewrite Hnone.
  - intros pre gs rest Hs.
    pose proof Hs as Hs'. unfold re_search in Hs'.
    apply scan_Some in Hs' as (s' & Hcontent & Hm & _).
    apply m_date_Some in Hm as (-> & d & Hd & ->).
    set (items := map (λ c, Lit [c]) ("Last updated: " ++ today)).
    exists d, (sub_all m_date items rest). split_and!.
    + done.
    + done.
    + by apply patch_date_sub_all.
    + rewrite (patch_date_sub_all today content Htoday). fold items.
      unfold sub_all at 1. cbn [sub_loop]. rewrite Hs.
      unfold items at 1. rewrite expand_plain. fold items.
      rewrite <- !app_assoc. do 4 f_equal. unfold sub_all.
      apply sub_loop_fuel; [apply m_date_consuming | | lia].
      rewrite Hcontent, !length_app. simpl. lia.
    + intros Hnone. unfold sub_all. cbn [sub_loop]. by rewrite Hnone.
Qed.

Lemma date_line_gets_today_witness :
  patch_date "2026-11-04" ("Intro" ++ [nl] ++ "Last updated: 2026-01-31" ++ [nl])
  = Some ("Intro" ++ [nl] ++ "Last updated: 2026-11-04" ++ [nl]).
Proof.
  destruct (date_line_gets_today "2026-11-04"
              ("Intro" ++ [nl] ++ "Last updated: 2026-01-31" ++ [nl]))
    as [_ Hfound]; [reflexivity |].
  destruct (Hfound ("Intro" ++ [nl]) [] [nl])
    as (d & rest' & _ & _ & _ & Hpatch & Hrest); [reflexivity |].
  rewrite Hpatch, Hrest; reflexivity.
Defined.

(** ** The date step, twice *)

Lemma is_date_no_backslash d : is_date d = true → no_backslash d = true.
Proof.
  intros Hd.
  destruct d as [|y1 [|y2 [|y3 [|y4 [|h1 [|m1 [|m2 [|h2 [|d1 [|d2 [|]]]]]]]]]]];
    try done.
  cbn [is_date] in Hd. rewrite !andb_true_iff in Hd.
  destruct Hd as [[[[[[[[[Hy1 Hy2] Hy3] Hy4] Hh1] Hm1] Hm2] Hh2] Hd1] Hd2].
  assert (Hdigit : ∀ c, is_digit c = true → negb (eqc c backslash) = true).
  { intros c Hc. apply negb_true_iff, eqc_neq. intros ->. discriminate Hc. }
  apply eqc_eq in Hh1 as ->. apply eqc_eq in Hh2 as ->.
  unfold no_backslash. cbn [forallb].
  rewrite (Hdigit y1 Hy1), (Hdigit y2 Hy2), (Hdigit y3 Hy3), (Hdigit y4 Hy4),
    (Hdigit m1 Hm1), (Hdigit m2 Hm2), (Hdigit d1 Hd1), (Hdigit d2 Hd2).
  reflexivity.
Qed.

(** The capital L of a date line is its first character. *)
Lemma date_line_one_L d p k :
  is_date d = true → p ≠ [] →
  "Last updated: " ++ d ≠ p ++ "L"%char :: k.
Proof.
  intros Hd Hp H.
  destruct d as [|y1 [|y2 [|y3 [|y4 [|h1 [|m1 [|m2 [|h2 [|d1 [|d2 [|]]]]]]]]]]];
    try done.
  cbn [is_date] in Hd. rewrite !andb_true_iff in Hd.
  destruct Hd as [[[[[[[[[Hy1 Hy2] Hy3] Hy4] Hh1] Hm1] Hm2] Hh2] Hd1] Hd2].
  apply eqc_eq in Hh1 as ->. apply eqc_eq in Hh2 as ->.
  destruct p as [|c0 p]; [done |]. cbn [app] in H. injection H as _ H.
  do 23 (destruct p as [|? p];
         [cbn [app] in H;
          first [discriminate H | (injection H as Hc _; subst; done)]
         | cbn [app] in H; injection H as _ H]).
  by destruct p.
Qed.

(** A date line that starts before another date line ends before it. *)
Lemma date_match_within p tail gs r :
  p ≠ [] →
  m_date (p ++ "Last updated: " ++ tail) = Some (gs, r) →
  ∃ d rest, is_date d = true ∧ p = "Last updated: " ++ d ++ rest.
Proof.
  intros Hp (-> & d & Hd & Heq)%m_date_Some.
  rewrite (app_assoc "Last updated: " d r) in Heq.
  apply app_eq_inv in Heq as [(k & Hk & Hr) | (k & Hk & Hr)].
  - exists d, k. split; [done |]. by rewrite <- app_assoc in Hk.
  - destruct k as [|c k].
    + rewrite app_nil_r in Hk. exists d, []. by rewrite app_nil_r, <- Hk.
    + cbn [app] in Hr.
      assert (c = "L"%char) as -> by by injection Hr.
      exfalso. by apply (date_line_one_L d p k Hd Hp).
Qed.

Lemma date_search_stable pre d rest today rest' :
  is_date d = true → is_date today = true →
  re_search m_date (pre ++ "Last updated: " ++ d ++ rest)
  = Some (pre, ([], rest)) →
  re_search m_date (pre ++ "Last updated: " ++ today ++ rest')
  = Some (pre, ([], rest')).
Proof.
  intros Hd Htoday Hs. unfold re_search in *.
  apply scan_Some in Hs as (s' & _ & _ & Hmin).
  apply scan_intro.
  - apply m_date_Some. split; [done |]. by exists today.
  - intros i Hi. specialize (Hmin i Hi).
    rewrite drop_app_le in Hmin |- * by lia.
    destruct (m_date (drop i pre ++ "Last updated: " ++ today ++ rest'))
      as [[gs r]|] eqn:Hm; [| done].
    assert (Hp : drop i pre ≠ []).
    { intros Hnil. apply (f_equal length) in Hnil.
      rewrite length_drop in Hnil. simpl in Hnil. lia. }
    apply date_match_within in Hm as (d' & k & Hd' & Hk); [| done].
    rewrite Hk in Hmin.
    assert (Hsome : m_date (("Last updated: " ++ d' ++ k)
                            ++ "Last updated: " ++ d ++ rest)
                    = Some ([], k ++ "Last updated: " ++ d ++ rest)).
    { apply m_date_Some. split; [done |]. exists d'. split; [done |].
      by rewrite <- !app_assoc. }
    congruence.
Qed.

Lemma date_step_fixed today fuel content :
  is_date today = true → length content < fuel →
  let items := map (λ c, Lit [c]) ("Last updated: " ++ today) in
  sub_all m_date items (sub_all m_date items content)
  = sub_all m_date items content.
Proof.
  intros Htoday. revert content.
  induction fuel as [|fuel IH]; intros content Hlen items; [lia |].
  assert (Hexp : ∀ whole gs, expand items whole gs = "Last updated: " ++ today)
    by (intros; apply expand_plain).
  unfold sub_all at 2 3. cbn [sub_loop].
  destruct (re_search m_date content) as [[pre [gs rest]]|] eqn:Hs.
  - pose proof Hs as Hs'. unfold re_search in Hs'.
    apply scan_Some in Hs' as (s' & Hcontent & Hm & _).
    apply m_date_Some in Hm as (-> & d & Hd & ->).
    assert (Hrest : length rest < length content).
    { rewrite Hcontent, !length_app. simpl. lia. }
    assert (sub_loop m_date items (length content) rest
            = sub_all m_date items rest) as ->.
    { apply sub_loop_fuel; [apply m_date_consuming | done | lia]. }
    rewrite Hexp.
    set (rest' := sub_all m_date items rest).
    rewrite <- !app_assoc.
    rewrite Hcontent in Hs.
    pose proof (date_search_stable pre d rest today rest' Hd Htoday Hs) as Hs2.
    unfold sub_all at 1. cbn [sub_loop]. rewrite Hs2, Hexp.
    rewrite <- !app_assoc. do 4 f_equal.
    assert (sub_loop m_date items
              (length (pre ++ "Last updated: " ++ today ++ rest')) rest'
            = sub_all m_date items rest') as ->.
    { apply sub_loop_fuel; [apply m_date_consuming | | lia].
      rewrite !length_app. simpl. lia. }
    subst rest'. apply IH. lia.
  - unfold sub_all. cbn [sub_loop]. by rewrite Hs.
Qed.

(** X26.  The date step of the patch is idempotent: for a date of the
    form dddd-dd-dd, as datetime gives it, the step applied to its own
    result changes nothing, however many date lines the file holds. *)
Theorem date_step_is_idempotent (today content patched : str) :
  is_date today = true →
  patch_date today content = Some patched →
  patch_date today patched = Some patched.
Proof.
  intros Htoday. pose proof (is_date_no_backslash today Htoday) as Hplain.
  rewrite !patch_date_sub_all by done. intros [= <-]. f_equal.
  apply (date_step_fixed today (S (length content))); [done | lia].
Qed.

Lemma date_step_is_idempotent_witness :
  patch_date "2026-11-04"
    ("Last updated: 2026-01-31" ++ [nl] ++ "Last updated: 2025-12-01")
  = Some ("Last updated: 2026-11-04" ++ [nl] ++ "Last updated: 2026-11-04")
  ∧ patch_date "2026-11-04"
      ("Last updated: 2026-11-04" ++ [nl] ++ "Last updated: 2026-11-04")
    = Some ("Last updated: 2026-11-04" ++ [nl] ++ "Last updated: 2026-11-04").
Proof.
  assert (Hfirst : patch_date "2026-11-04"
            ("Last updated: 2026-01-31" ++ [nl] ++ "Last updated: 2025-12-01")
          = Some ("Last updated: 2026-11-04" ++ [nl] ++ "Last updated: 2026-11-04"))
    by reflexivity.
  split; [exact Hfirst |].
  exact (date_step_is_idempotent "2026-11-04" _ _ eq_refl Hfirst).
Defined.

(** ** The command create-new-feature *)

Lemma copy_template_run E template_name target w :
  let template := path_join (project_root E) ["templates"; template_name] in
  write_error (fs w) target = None →
  target ≠ template →
  FileManager.copy_template E template_name target w
  = match fs w !! template with
    | Some (File bytes) =>
        (Ok true,
         World (<[target := File bytes]> (fs w)) (config w) (stdout w) (stderr w))
    | _ =>
        (Ok false,
         World (match fs w !! target with
                | Some _ => fs w
                | None => <[target := File []]> (fs w)
                end)
           (config w) (stdout w)
           (stderr w ++ [Text ("Warning: Template not found at " ++ template)]))
    end.
Proof.
  intros template Hwrite Hdiff.
  assert (Hdir : isdir (fs w) target = false).
  { unfold write_error in Hwrite. unfold isdir.
    by destruct (fs w !! target) as [[]|]. }
  assert (Htouch : touch target (fs w)
                   = (None, match fs w !! target with
                            | Some _ => fs w
                            | None => <[target := File []]> (fs w)
                            end)).
  { unfold touch. unfold write_error, dirname in Hwrite.
    destruct (fs w !! target) as [[]|]; try done. by rewrite Hwrite. }
  unfold FileManager.copy_template, ProjectManager.get_project_root.
  fold template. unfold bind at 1. unfold get_fs at 1. unfold isfile.
  destruct (fs w !! template) as [[bytes|]|] eqn:Htemplate.
  - unfold bind, fs_call.
    rewrite (copy2_file template target (fs w) bytes Htemplate Hdir Hdiff).
    by rewrite write_file_result, Hwrite.
  - unfold bind, print_err, fs_call. cbn [fs config stdout stderr].
    by rewrite Htouch.
  - unfold bind, print_err, fs_call. cbn [fs config stdout stderr].
    by rewrite Htouch.
Qed.

(** X27.  The command create-new-feature, when the feature could be
    created and spec.md of the new feature is not a directory: the
    command succeeds, spec.md is a file of the feature directory
    afterwards, holding the bytes of templates/spec-template.md when that
    template exists and otherwise empty (or what it held), with a warning
    on the error stream; the configuration is the one that
    create_new_feature has left, and the name, the path of spec.md and
    the number are printed as one JSON object or as three lines. *)
Theorem create_new_feature_command_result
    (E : env) (feature_description : str) (json_mode : bool)
    (w w1 : world) (r : new_feature) :
  let spec_file := path_join (feature_dir r) ["spec.md"] in
  let template := path_join (project_root E) ["templates"; "spec-template.md"] in
  FeatureManager.create_new_feature E feature_description w = (Ok r, w1) →
  isdir (fs w1) spec_file = false →
  ∃ w', SpecKit.create_new_feature E feature_description json_mode w = (Ok tt, w')
    ∧ isfile (fs w') spec_file = true
    ∧ config w' = config w1
    ∧ match fs w1 !! template with
      | Some (File bytes) =>
          fs w' = <[spec_file := File bytes]> (fs w1) ∧ stderr w' = stderr w
      | _ =>
          fs w' = match fs w1 !! spec_file with
                  | Some _ => fs w1
                  | None => <[spec_file := File []]> (fs w1)
                  end
          ∧ stderr w'
            = stderr w ++ [Text ("Warning: Template not found at " ++ template)]
      end
    ∧ stdout w'
      = stdout w
        ++ if json_mode
           then [Json [("FEATURE_NAME" : str, JString (feature_name r));
                       ("SPEC_FILE" : str, JString spec_file);
                       ("FEATURE_NUM" : str, JString (feature_num r))]]
           else [Text ("FEATURE_NAME: " ++ feature_name r);
                 Text ("SPEC_FILE: " ++ spec_file);
                 Text ("FEATURE_NUM: " ++ feature_num r)].
Proof.
  intros spec_file template Hcreate Hspec.
  pose proof Hcreate as Hfiles.
  apply create_new_feature_files in Hfiles
    as (fs1 & _ & _ & Hr & _ & _ & Hfs & Hout & Herr).
  cbv zeta in Hr, Hfs.
  set (n := next_feature_number (ProjectManager.specs_listing E fs1)) in *.
  set (name := final_feature_name n feature_description) in *.
  assert (Hname : no_slash name = true) by apply final_feature_name_no_slash.
  assert (Hne : nonempty name = true) by apply final_feature_name_nonempty.
  assert (Hdir_eq : feature_dir r = FeatureManager.get_feature_dir E name).
  { rewrite Hr. cbn [feature_dir]. symmetry. by apply feature_dir_eq, no_slash_head. }
  assert (Hisdir : isdir (fs w1) (feature_dir r) = true).
  { rewrite Hfs, Hr. cbn [feature_dir]. unfold isdir.
    rewrite lookup_insert_ne
      by (intros H; symmetry in H; by apply specs_entry_not_config_path in H).
    by rewrite lookup_insert_eq. }
  assert (Hwrite : write_error (fs w1) spec_file = None).
  { unfold write_error. unfold isdir in Hspec.
    destruct (fs w1 !! spec_file) as [[]|]; try done.
    unfold dirname. subst spec_file. rewrite Hdir_eq.
    rewrite (feature_file_split E name Hname Hne "spec.md" eq_refl). cbn [fst].
    unfold parent_error. rewrite <- Hdir_eq. unfold isdir in Hisdir.
    destruct (forallb is_slash (feature_dir r)); [done |].
    by destruct (fs w1 !! feature_dir r) as [[]|]. }
  assert (Hdiff : spec_file ≠ template).
  { subst spec_file. rewrite Hdir_eq. by apply feature_file_not_template. }
  assert (Hstrip : nonempty (strip feature_description) = true).
  { unfold FeatureManager.create_new_feature in Hcreate.
    destruct (nonempty (strip feature_description)); [done |].
    cbn [negb] in Hcreate. by run. }
  unfold SpecKit.create_new_feature. rewrite Hstrip. cbn [negb].
  unfold bind at 1. unfold try_except. rewrite Hcreate.
  unfold bind at 1. fold spec_file.
  rewrite (copy_template_run E "spec-template.md" spec_file w1 Hwrite Hdiff).
  fold template.
  destruct (fs w1 !! template) as [[bytes|]|] eqn:Htemplate.
  - destruct json_mode; run; (eexists; split; [reflexivity |]);
      cbn [fs config stdout stderr]; rewrite ?Hout, ?Herr;
      split_and!; try done;
      try (unfold isfile; by rewrite lookup_insert_eq);
      by rewrite <- ?app_assoc.
  - unfold isdir in Hspec.
    destruct (fs w1 !! spec_file) as [[old|]|] eqn:Hold; try done;
      destruct json_mode; run; (eexists; split; [reflexivity |]);
      cbn [fs config stdout stderr]; rewrite ?Hout, ?Herr;
      split_and!; try done;
      try (unfold isfile; by rewrite ?Hold, ?lookup_insert_eq);
      by rewrite <- ?app_assoc.
  - unfold isdir in Hspec.
    destruct (fs w1 !! spec_file) as [[old|]|] eqn:Hold; try done;
      destruct json_mode; run; (eexists; split; [reflexivity |]);
      cbn [fs config stdout stderr]; rewrite ?Hout, ?Herr;
      split_and!; try done;
      try (unfold isfile; by rewrite ?Hold, ?lookup_insert_eq);
      by rewrite <- ?app_assoc.
Qed.

Lemma create_new_feature_command_result_witness :
  ∃ w', SpecKit.create_new_feature sample_env "User Auth System!!" true sample_world
        = (Ok tt, w')
        ∧ isfile (fs w') "/work/app/specs/004-user-auth-system/spec.md" = true.
Proof.
  pose (r := {| feature_name := "004-user-auth-system" : str;
                feature_dir := "/work/app/specs/004-user-auth-system" : str;
                feature_num := "004" : str |}).
  pose (w1 := (FeatureManager.create_new_feature sample_env "User Auth System!!"
                 sample_world).2).
  assert (Hfst : (FeatureManager.create_new_feature sample_env
                    "User Auth System!!" sample_world).1 = Ok r)
    by (vm_compute; reflexivity).
  pose proof (pair_from_fst _ _ Hfst) as Hcreate. fold w1 in Hcreate.
  destruct (create_new_feature_command_result sample_env "User Auth System!!" true
              sample_world w1 r Hcreate) as (w' & Hrun & Hfile & _).
  - vm_compute. reflexivity.
  - exists w'. split; [exact Hrun | exact Hfile].
Defined.

(** ** The two listings of the features *)

Lemma code_inj a b : code a = code b → a = b.
Proof.
  unfold code. intros H.
  rewrite <- (ascii_nat_embedding a), <- (ascii_nat_embedding b). by rewrite H.
Qed.

Lemma str_leb_antisym a b :
  str_leb a b = true → str_leb b a = true → a = b.
Proof.
  revert b. induction a as [|x a IH]; intros b.
  - by destruct b.
  - destruct b as [|y b]; [done |]. cbn [str_leb].
    destruct (Nat.ltb_spec (code x) (code y)) as [Hxy | Hxy];
      destruct (Nat.ltb_spec (code y) (code x)) as [Hyx | Hyx];
      try done; try lia.
    intros Hab Hba. f_equal; [apply code_inj; lia | by apply IH].
Qed.

Lemma StronglySorted_filter {A} (R : relation A) (P : A → Prop)
    `{!∀ x, Decision (P x)} (l : list A) :
  StronglySorted R l → StronglySorted R (filter P l).
Proof.
  induction 1 as [|x l Hl IH Hx]; [constructor |].
  rewrite filter_cons. destruct (decide (P x)); [| done].
  constructor; [done |]. rewrite Forall_forall in *.
  intros y Hy. apply list_elem_of_filter in Hy as [_ Hy]. by apply Hx.
Qed.

(** Filtering the sorted listing gives the sorted list of what the
    filter keeps. *)
Lemma filter_sorted (P : str → Prop) `{!∀ x, Decision (P x)} (l : list str) :
  filter P (sorted l) = sorted (filter P l).
Proof.
  destruct (sorted_is_sorted l) as [Hs1 Hp1].
  destruct (sorted_is_sorted (filter P l)) as [Hs2 Hp2].
  assert (Hanti : AntiSymm eq (λ a b : str, Is_true (str_leb a b))).
  { intros a b Hab Hba. apply Is_true_true in Hab, Hba.
    by apply str_leb_antisym. }
  apply (StronglySorted_unique _ (AntiSymm0 := Hanti)).
  - by apply StronglySorted_filter.
  - done.
  - by rewrite Hp1, Hp2.
Qed.

(** X28.  set-current-feature, for a valid name whose directory is
    missing, and list-features name the same features in the same order:
    the names of the feature directories of specs/, sorted.  The first
    prints them after its error message and exits with status 1 without
    changing anything; the second prints them between its heading and
    its closing lines, the current one marked. *)
Theorem both_listings_name_the_same_features (E : env) (name : str) (w : world) :
  let specs_dir := path_join (project_root E) ["specs"] in
  let names :=
    sorted (SpecKit.feature_entries (fs w) specs_dir (listdir (fs w) specs_dir)) in
  isdir (fs w) specs_dir = true →
  match_feature_prefix name = true →
  isdir (fs w) (FeatureManager.get_feature_dir E name) = false →
  SpecKit.set_current_feature E name w
  = (Raise (SystemExit 1),
     World (fs w) (config w)
       (stdout w
        ++ [Text ("ERROR: Feature directory not found: "
                  ++ FeatureManager.get_feature_dir E name);
            Text "Available features:"]
        ++ map (λ feature, Text ("  " ++ feature)) names)
       (stderr w))
  ∧ (names ≠ [] →
     SpecKit.list_available_features E w
     = (Ok tt,
        World (fs w) (config w)
          (stdout w
           ++ [Text "Available features:"]
           ++ map (λ feature,
                     Text ("  " ++ feature
                           ++ if bool_decide (Some feature = current_of (config w))
                              then " (current)" else []))
                  names
           ++ [Text [];
               Text ("Usage: " ++ script_name E ++ " set-current-feature <feature-name>");
               Text ("       " ++ script_name E ++ " get-current-feature")])
          (stderr w))).
Proof.
  intros specs_dir names Hspecs Hprefix Hdir. split.
  - unfold SpecKit.set_current_feature, ProjectManager.get_project_root.
    unfold bind at 1. rewrite (check_feature_name_valid name w Hprefix).
    cbn [negb]. unfold bind at 1. unfold get_fs at 1. rewrite Hdir. cbn [negb].
    fold specs_dir. rewrite Hspecs. cbn [when].
    unfold SpecKit.feature_entries at 1. rewrite filter_sorted.
    fold (SpecKit.feature_entries (fs w) specs_dir (listdir (fs w) specs_dir)).
    fold names.
    unfold bind at 1. unfold print at 1. unfold bind at 1. unfold print at 1.
    unfold bind at 1. rewrite print_all_state. cbn [fs config stdout stderr].
    unfold SpecKit.exit, raise. by rewrite <- !app_assoc.
  - intros Hnames.
    unfold SpecKit.list_available_features, ProjectManager.get_project_root.
    unfold bind at 1. rewrite get_current_feature_value. unfold bind at 1.
    unfold get_fs at 1. fold specs_dir. rewrite Hspecs. cbn [negb].
    unfold bind at 1. unfold print at 1. cbn [fs config stdout stderr].
    fold names.
    destruct (SpecKit.feature_entries (fs w) specs_dir (listdir (fs w) specs_dir))
      as [|x l] eqn:Hf; [by subst names |].
    unfold bind at 1. rewrite print_all_state. cbn [fs config stdout stderr].
    run. by rewrite <- !app_assoc.
Qed.

Lemma both_listings_name_the_same_features_witness :
  (SpecKit.set_current_feature sample_env "007-missing" sample_world).1
  = Raise (SystemExit 1)
  ∧ sorted (SpecKit.feature_entries sample_fs "/work/app/specs"
              (listdir sample_fs "/work/app/specs"))
    = ["001-a"; "003-b"].
Proof.
  destruct (both_listings_name_the_same_features sample_env "007-missing"
              sample_world) as [Hset _].
  - vm_compute. reflexivity.
  - reflexivity.
  - vm_compute. reflexivity.
  - split; [by rewrite Hset | vm_compute; reflexivity].
Defined.

(** ** Creating an agent context file *)




(** ** The default agent context file *)



